(** * Quantificacao de materiais: table detection and consolidation

    A shallow embedding of the core of [app.py]: the text normalizer
    ([norm_cell], [norm_key], [to_float_br]), the header matcher
    ([looks_header_row]), the title locator ([is_candidate_title],
    [find_title_near]), the block parser ([parse_blocks]) and the
    consolidator ([consolidate]).

    Python strings are sequences of Unicode code points, so a [str] is a
    list of code points in [N]; Python floats are IEEE 754 binary64 values,
    taken from the Standard Library's [SpecFloat] with precision 53 and
    maximal exponent 1024. *)

From Stdlib Require Import ZArith NArith Ascii String DecimalString DecimalPos.
From Stdlib Require Import SpecFloat PrimFloat FloatOps.
From stdpp Require Import base option list gmap sorting.

#[local] Set Warnings "-clear-no-such-hyp".

Local Open Scope N_scope.

(** ** Strings *)

Abbreviation str := (list N).

(** ASCII literals.  Literals with letters outside ASCII are written with
    their code points spelled out. *)
Fixpoint lit (s : string) : str :=
  match s with
  | EmptyString => []
  | String a s' => N_of_ascii a :: lit s'
  end.

(** A Python value reaching the normalizer: [None], a string, or any other
    object (a float NaN of a data frame, a number); [str(x)] of the latter
    is carried along. *)
Inductive pyval :=
  | PyNone
  | PyStr (s : str)
  | PyObj (repr : str).

(** [str(x)]. *)
Definition py_str (x : pyval) : str :=
  match x with
  | PyNone => lit "None"
  | PyStr s => s
  | PyObj r => r
  end.

(** [str.isspace] for one code point, which is also what [\s] matches in a
    [str] pattern and what [str.strip()] removes. *)
Definition isspace (c : N) : bool :=
  ((9 <=? c) && (c <=? 13)) || ((28 <=? c) && (c <=? 32))
  || (c =? 0x85) || (c =? 0xa0) || (c =? 0x1680)
  || ((0x2000 <=? c) && (c <=? 0x200a))
  || (c =? 0x2028) || (c =? 0x2029) || (c =? 0x202f)
  || (c =? 0x205f) || (c =? 0x3000).

Fixpoint lstrip (s : str) : str :=
  match s with
  | [] => []
  | c :: s' => if isspace c then lstrip s' else s
  end.

Definition rstrip (s : str) : str := reverse (lstrip (reverse s)).

(** [s.strip()]. *)
Definition strip (s : str) : str := rstrip (lstrip s).

(** [s.replace(old, new)] for a one-character [old]. *)
Definition replace (old : N) (new : str) (s : str) : str :=
  c ← s; if c =? old then new else [c].

(** [re.sub(r"\s+", " ", s)]: every maximal run of whitespace becomes one
    space; [in_run] tells that the previous character was whitespace. *)
Fixpoint sub_spaces (in_run : bool) (s : str) : str :=
  match s with
  | [] => []
  | c :: s' =>
      if isspace c
      then (if in_run then sub_spaces true s' else 32 :: sub_spaces true s')
      else c :: sub_spaces false s'
  end.

(** [needle in s] for strings. *)
Fixpoint startswith (p s : str) : bool :=
  match p, s with
  | [], _ => true
  | _ :: _, [] => false
  | a :: p', b :: s' => (a =? b) && startswith p' s'
  end.

Fixpoint contains (p s : str) : bool :=
  startswith p s ||
  match s with
  | [] => false
  | _ :: s' => contains p s'
  end.

(** Truth value of a string: non-empty. *)
Definition truthy (s : str) : bool :=
  match s with [] => false | _ => true end.

(** ** Text normalizer *)

Definition norm_cell (x : pyval) : str :=
  match x with
  | PyNone => []
  | _ =>
      let s := strip (replace 0xa0 (lit " ") (py_str x)) in
      sub_spaces false s
  end.

(** ** Floats

    A Python [float] is a binary64 value. *)

Definition float := spec_float.

#[global] Instance float_eq_dec : EqDecision float.
Proof. solve_decision. Defined.

Definition float_zero : float := S754_zero false.

Definition float_add : float → float → float := SFadd 53 1024.

(** The binary64 value nearest to [p / q] (ties to even), for positive
    [p] and [q]; the fraction is first reduced. *)
Definition float_of_ratio (neg : bool) (p q : Z) : float :=
  let g := Z.gcd p q in
  let '(mz, ez, lz) := SFdiv_core_binary 53 1024 (p / g) 0 (q / g) 0 in
  binary_round_aux 53 1024 neg mz ez lz.

(** The binary64 value nearest to [m * 10 ^ e10]. *)
Definition float_of_decimal (neg : bool) (m : Z) (e10 : Z) : float :=
  if (m =? 0)%Z then S754_zero neg
  else if (0 <=? e10)%Z then float_of_ratio neg (m * 10 ^ e10) 1
  else float_of_ratio neg m (10 ^ (- e10)).

(** *** The built-in [float(s)]

    The conversion of CPython: non-ASCII decimal digits and spaces are
    brought to ASCII, underscores between digits are dropped, surrounding
    ASCII whitespace is stripped, and the rest must be a decimal number with
    an optional exponent, or an infinity or a NaN.  [None] stands for the
    [ValueError] of a string that is not a number.  The decimal digit value
    of a code point outside ASCII is a fact of the Unicode database and is a
    parameter [todecimal]. *)

Definition is_digit (c : N) : bool := (48 <=? c) && (c <=? 57).

(** Digits and spaces to ASCII; the first other non-ASCII character
    becomes ["?"] and ends the string. *)
Fixpoint transform_decimal_and_space (todecimal : N → option N) (s : str) : str :=
  match s with
  | [] => []
  | c :: s' =>
      if c <? 127 then c :: transform_decimal_and_space todecimal s'
      else if isspace c then 32 :: transform_decimal_and_space todecimal s'
      else match todecimal c with
           | Some d => (48 + d) :: transform_decimal_and_space todecimal s'
           | None => [63]
           end
  end.

(** Underscores are allowed between digits only; [prev] is the previous
    character (0 at the start). *)
Fixpoint drop_underscores (prev : N) (s : str) : option str :=
  match s with
  | [] => if prev =? 95 then None else Some []
  | c :: s' =>
      if c =? 95 then
        if is_digit prev then drop_underscores c s' else None
      else if (prev =? 95) && negb (is_digit c) then None
      else (c ::.) <$> drop_underscores c s'
  end.

Definition is_ascii_space (c : N) : bool :=
  (c =? 32) || ((9 <=? c) && (c <=? 13)).

Fixpoint lstrip_ascii (s : str) : str :=
  match s with
  | [] => []
  | c :: s' => if is_ascii_space c then lstrip_ascii s' else s
  end.

(** The leading ASCII digits of [s], and what follows them. *)
Fixpoint span_digits (s : str) : str * str :=
  match s with
  | [] => ([], [])
  | c :: s' =>
      if is_digit c
      then let '(ds, rest) := span_digits s' in (c :: ds, rest)
      else ([], s)
  end.

(** The number written by a string of ASCII digits. *)
Definition digits_value (ds : str) : Z :=
  fold_left (λ acc c, 10 * acc + (Z.of_N c - 48))%Z ds 0%Z.

Definition parse_sign (s : str) : bool * str :=
  match s with
  | c :: s' =>
      if c =? 45 then (true, s')
      else if c =? 43 then (false, s')
      else (false, s)
  | [] => (false, s)
  end.

(** ASCII lower case, for the case-insensitive [inf], [infinity], [nan]. *)
Definition ascii_lower (c : N) : N :=
  if (65 <=? c) && (c <=? 90) then c + 32 else c.

Definition parse_inf_or_nan (s : str) : option float :=
  let '(neg, s1) := parse_sign s in
  let l := ascii_lower <$> s1 in
  if bool_decide (l = lit "inf") || bool_decide (l = lit "infinity")
  then Some (S754_infinity neg)
  else if bool_decide (l = lit "nan") then Some S754_nan
  else None.

(** The whole of [s] as a number. *)
Definition string_to_double (s : str) : option float :=
  let '(neg, s1) := parse_sign s in
  let '(ip, s2) := span_digits s1 in
  let '(fp, s3) :=
    match s2 with
    | c :: t => if c =? 46 then span_digits t else ([], s2)
    | [] => ([], s2)
    end in
  match ip ++ fp with
  | [] => parse_inf_or_nan s
  | ds =>
      let m := digits_value ds in
      let nf := Z.of_nat (length fp) in
      match s3 with
      | [] => Some (float_of_decimal neg m (- nf))
      | c :: t =>
          if (c =? 101) || (c =? 69) then
            let '(eneg, t1) := parse_sign t in
            match span_digits t1 with
            | ((_ :: _) as ed, []) =>
                let e := digits_value ed in
                Some (float_of_decimal neg m ((if eneg then - e else e) - nf)%Z)
            | _ => None
            end
          else None
      end
  end.

Definition py_float (todecimal : N → option N) (s : str) : option float :=
  let a := transform_decimal_and_space todecimal s in
  u ← (if bool_decide (95 ∈ a) then drop_underscores 0 a else Some a);
  let t := reverse (lstrip_ascii (reverse (lstrip_ascii u))) in
  string_to_double t.

(** *** Integers and floats as text

    [str(n)] for an integer: its decimal digits, after a minus sign when it
    is negative. *)

Fixpoint str_of_uint (u : Decimal.uint) : str :=
  match u with
  | Decimal.Nil => []
  | Decimal.D0 u' => 48 :: str_of_uint u'
  | Decimal.D1 u' => 49 :: str_of_uint u'
  | Decimal.D2 u' => 50 :: str_of_uint u'
  | Decimal.D3 u' => 51 :: str_of_uint u'
  | Decimal.D4 u' => 52 :: str_of_uint u'
  | Decimal.D5 u' => 53 :: str_of_uint u'
  | Decimal.D6 u' => 54 :: str_of_uint u'
  | Decimal.D7 u' => 55 :: str_of_uint u'
  | Decimal.D8 u' => 56 :: str_of_uint u'
  | Decimal.D9 u' => 57 :: str_of_uint u'
  end.

Definition str_of_int (z : Z) : str :=
  match z with
  | Z0 => lit "0"
  | Zpos p => str_of_uint (Pos.to_uint p)
  | Zneg p => 45 :: str_of_uint (Pos.to_uint p)
  end.

Definition str_of_nat (n : nat) : str := str_of_int (Z.of_nat n).

(** The sign and the magnitude of a float whose value is an integer. *)
Definition float_integer (f : float) : option (bool * Z) :=
  match f with
  | S754_zero s => Some (s, 0%Z)
  | S754_finite s m e =>
      if (0 <=? e)%Z then Some (s, (Zpos m * 2 ^ e)%Z)
      else if (Zpos m mod 2 ^ (- e) =? 0)%Z then Some (s, (Zpos m / 2 ^ (- e))%Z)
      else None
  | _ => None
  end.

(** [str(f)] for a float whose value is an integer below [10 ^ 16] in
    magnitude: the digits of the integer followed by [".0"] (from [1e16] on
    Python writes an exponent; such floats and the floats with a fraction
    are left out, [None]). *)
Definition float_str (f : float) : option str :=
  match float_integer f with
  | Some (s, v) =>
      if (v <? 10 ^ 16)%Z
      then Some ((if s then lit "-" else []) ++ str_of_int v ++ lit ".0")
      else None
  | None => None
  end.

(** ** The Unicode database

    [unicodedata.normalize("NFKD", _)], [unicodedata.combining],
    [str.upper], the alphanumeric test behind [\w] and the decimal digit
    value used by [float] are tables of the Python run time, not code of
    this program: the development is parametric in them. *)

Class Unicode := {
  normalize_NFKD : str → str;
  combining : N → N;
  upper : str → str;
  isalnum : N → bool;
  todecimal : N → option N;
  (** The empty string has nothing to decompose or to upper-case. *)
  normalize_NFKD_empty : normalize_NFKD [] = [];
  upper_empty : upper [] = [];
}.

(** ** Exceptions *)

Inductive exn := IndexError | KeyError.

Inductive res (A : Type) :=
  | Ok (a : A)
  | Raise (e : exn).
Arguments Ok {A} a.
Arguments Raise {A} e.

#[global] Instance res_ret : MRet res := λ A a, Ok a.
#[global] Instance res_bind : MBind res := λ A B f m,
  match m with
  | Ok a => f a
  | Raise e => Raise e
  end.
#[global] Instance res_fmap : FMap res := λ A B f m,
  match m with
  | Ok a => Ok (f a)
  | Raise e => Raise e
  end.

(** [l[i]] for an index that is not negative. *)
Definition getitem {A} (l : list A) (i : nat) : res A :=
  match l !! i with
  | Some a => Ok a
  | None => Raise IndexError
  end.

(** [d[k]] for a dictionary. *)
Definition getkey {A} (d : gmap str A) (k : str) : res A :=
  match d !! k with
  | Some a => Ok a
  | None => Raise KeyError
  end.

(** [range(a, b)]. *)
Definition range (a b : Z) : list Z := seqZ a (b - a).

(** [l[i]] for an integer index: a negative index counts from the end. *)
Definition getitem_int {A} (l : list A) (i : Z) : res A :=
  if (i <? 0)%Z
  then (if (i + Z.of_nat (length l) <? 0)%Z then Raise IndexError
        else getitem l (Z.to_nat (i + Z.of_nat (length l))))
  else getitem l (Z.to_nat i).

(** ** Header names *)

Definition H_ITEM : str := lit "ITEM".
Definition H_COD_BK : str := lit "C" ++ [0xd3] ++ lit "D. BK".
Definition H_COD_CLIENTE : str := lit "C" ++ [0xd3] ++ lit "D. CLIENTE".
Definition H_DESCRICAO : str := lit "DESCRI" ++ [0xc7; 0xc3] ++ lit "O".
Definition H_QUANT : str := lit "QUANT.".
Definition H_UN : str := lit "UN.".

Definition CANON_HEADERS : list str :=
  [H_ITEM; H_COD_BK; H_COD_CLIENTE; H_DESCRICAO; H_QUANT; H_UN].

(** The dictionary [HDR_KEYS], in the order of its items. *)
Definition HDR_KEYS : list (str * gset str) :=
  [ (H_ITEM, {[ lit "ITEM" ]});
    (H_COD_BK, {[ lit "CODBK"; lit "CODIGOBK"; lit "CDBK" ]});
    (H_COD_CLIENTE, {[ lit "CODCLIENTE"; lit "CODIGOCLIENTE"; lit "CDCLIENTE" ]});
    (H_DESCRICAO, {[ lit "DESCRICAO"; lit "DESCR"; lit "DESCRI"; lit "MATERIAL"; lit "NOME" ]});
    (H_QUANT, {[ lit "QUANT"; lit "QUANTIDADE"; lit "QTD"; lit "QTDE" ]});
    (H_UN, {[ lit "UN"; lit "UND"; lit "UNID"; lit "UNIDADE" ]}) ].

Section Core.
Context {U : Unicode}.

Definition strip_accents (s : str) : str :=
  filter (λ ch, combining ch = 0) (normalize_NFKD s).

Definition is_upper_or_digit (c : N) : bool :=
  ((65 <=? c) && (c <=? 90)) || is_digit c.

Definition norm_key (s : str) : str :=
  let s := upper (strip_accents (norm_cell (PyStr s))) in
  let s := replace 46 [] s in
  filter (λ c, Is_true (is_upper_or_digit c)) s.

(** ** Header matcher *)

(** The "contains" fallbacks of one header name for the key [k] of
    column [i]. *)
Definition header_fallback (h k : str) (i : nat) (found : gmap str nat) : gmap str nat :=
  let found :=
    if bool_decide (h = H_DESCRICAO) && contains (lit "DESCR") k
    then <[h := i]> found else found in
  let found :=
    if bool_decide (h = H_QUANT) && (contains (lit "QUANT") k || contains (lit "QTD") k)
    then <[h := i]> found else found in
  let found :=
    if bool_decide (h = H_COD_BK) && (contains (lit "BK") k && contains (lit "COD") k)
    then <[h := i]> found else found in
  let found :=
    if bool_decide (h = H_COD_CLIENTE) && (contains (lit "CLIENTE") k && contains (lit "COD") k)
    then <[h := i]> found else found in
  found.

(** One turn of the loop over [HDR_KEYS.items()]. *)
Definition header_entry (i : nat) (k : str) (found : gmap str nat)
    (hv : str * gset str) : gmap str nat :=
  let '(h, variants) := hv in
  if bool_decide (is_Some (found !! h)) then found
  else if bool_decide (k ∈ variants) then <[h := i]> found
  else header_fallback h k i found.

(** One turn of the loop over [enumerate(keys)]. *)
Definition header_column (found : gmap str nat) (ik : nat * str) : gmap str nat :=
  let '(i, k) := ik in
  if negb (truthy k) then found
  else fold_left (header_entry i k) HDR_KEYS found.

Definition header_scan (keys : list str) : gmap str nat :=
  fold_left header_column (imap pair keys) ∅.

Definition looks_header_row (row : list str) : option (gmap str nat) :=
  let keys := norm_key <$> row in
  let found := header_scan keys in
  if forallb (λ h, bool_decide (is_Some (found !! h))) CANON_HEADERS
  then Some found
  else None.

(** ** Locale numbers *)

(** The text handed to [float]: without spaces and, when there is a
    comma, without periods and with a period for each comma. *)
Definition number_text (s : str) : str :=
  let s := replace 32 [] s in
  if contains (lit ",") s
  then replace 44 (lit ".") (replace 46 [] s) else s.

Definition to_float_br (x : pyval) : float :=
  let s := norm_cell x in
  if negb (truthy s) then float_zero
  else
    match py_float todecimal (number_text s) with
    | Some f => f
    | None => float_zero
    end.

Definition is_blank_row (row : list str) : bool :=
  forallb (λ c, negb (truthy (norm_cell (PyStr c)))) row.

(** ** Title locator *)

(** [[A-Za-zÀ-ÿ]]. *)
Definition is_letter (c : N) : bool :=
  ((65 <=? c) && (c <=? 90)) || ((97 <=? c) && (c <=? 122))
  || ((0xc0 <=? c) && (c <=? 0xff)).

(** [[0-9\W]]: a digit, or a character that is neither alphanumeric nor an
    underscore. *)
Definition is_digit_or_nonword (c : N) : bool :=
  is_digit c || negb (isalnum c || (c =? 95)).

Definition bad_words : list str :=
  [ lit "ITEM"; lit "COD"; lit "C" ++ [0xd3] ++ lit "D"; lit "CLIENTE";
    lit "DESCR"; lit "DESCRI"; lit "QUANT"; lit "UN" ].

Definition is_candidate_title (text : str) : bool :=
  let t := norm_cell (PyStr text) in
  if (length t <? 4)%nat then false
  else if negb (existsb is_letter t) then false
  else
    let u := upper (strip_accents t) in
    if existsb (λ b, contains b u) bad_words then false
    else if truthy t && forallb is_digit_or_nonword t then false
    else true.

(** [candidates.sort(reverse=True, key=lambda x: x[0])]: the sort is stable,
    so candidates of equal length keep their order. *)
Fixpoint insert_desc (x : nat * str) (l : list (nat * str)) : list (nat * str) :=
  match l with
  | [] => [x]
  | y :: l' => if (y.1 <=? x.1)%nat then x :: l else y :: insert_desc x l'
  end.

Definition sort_desc (l : list (nat * str)) : list (nat * str) :=
  foldr insert_desc [] l.

Definition title_candidates (cells : list str) : list (nat * str) :=
  val ← cells;
    let txt := norm_cell (PyStr val) in
    if is_candidate_title txt then [(length txt, txt)] else [].

Definition find_title_near (matrix : list (list str)) (header_row_idx : Z) : res str :=
  let r0 := Z.max 0 (header_row_idx - 3) in
  let r1 := Z.min (Z.of_nat (length matrix) - 1) (header_row_idx + 3) in
  rows ← mapM (getitem_int matrix) (range r0 (r1 + 1));
  let candidates := title_candidates (mjoin rows) in
  match sort_desc candidates with
  | [] => Ok []
  | c :: _ => Ok c.2
  end.

End Core.

(** ** Detail rows *)

Record DetailRow := {
  ARQUIVO_EXCEL : str;
  ABA : str;
  DESENHO : str;
  BLOCO_TABELA : nat;
  ITEM : str;
  COD_BK : str;
  COD_CLIENTE : str;
  DESCRICAO : str;
  QUANT : str;
  UN : str;
}.

(** The raw sheet: [df_raw.values.tolist()] and [df_raw.shape[1]].  In a
    data frame every row has [shape[1]] cells ([rectangular]). *)
Record DataFrame := {
  df_values : list (list pyval);
  df_shape1 : nat;
}.

Definition rectangular (df : DataFrame) : Prop :=
  Forall (λ row, length row = df_shape1 df) (df_values df).

(** A computation that may raise, run with fuel: [None] is fuel that ran
    out before the loop ended. *)
Definition run (A : Type) := option (res A).

Definition run_bind {A B} (m : run A) (f : A → run B) : run B :=
  match m with
  | None => None
  | Some (Raise e) => Some (Raise e)
  | Some (Ok a) => f a
  end.

Definition now {A} (m : res A) : run A := Some m.

Notation "'do' x <- m ; k" := (run_bind m (λ x, k))
  (at level 20, x name, m at level 100, k at level 200, only parsing).

(** ** Block parser *)

(** [found or fallback_title]. *)
Definition title_or (found fallback_title : str) : str :=
  if truthy found then found else fallback_title.

Section Parser.
Context {U : Unicode}.
Variable matrix : list (list str).
Variable max_cols : nat.
Variables fonte_nome sheet_name fallback_title : str.

(** [r[mapping[h]] if mapping[h] < max_cols else ""]. *)
Definition cell_at (r : list str) (mapping : gmap str nat) (h : str) : res str :=
  j ← getkey mapping h;
  if (j <? max_cols)%nat then getitem r j else Ok [].

(** The body of the inner loop for a row that is neither a header nor
    blank: the row is appended when its description is not empty. *)
Definition data_row (mapping : gmap str nat) (title : str) (bloco_n : nat)
    (r : list str) (rows_out : list DetailRow) : res (list DetailRow) :=
  desc ← cell_at r mapping H_DESCRICAO;
  if truthy (norm_cell (PyStr desc)) then
    item ← cell_at r mapping H_ITEM;
    cod_bk ← cell_at r mapping H_COD_BK;
    cod_cliente ← cell_at r mapping H_COD_CLIENTE;
    quant ← cell_at r mapping H_QUANT;
    un ← cell_at r mapping H_UN;
    Ok (rows_out ++ [ {| ARQUIVO_EXCEL := fonte_nome; ABA := sheet_name;
                         DESENHO := title; BLOCO_TABELA := bloco_n;
                         ITEM := item; COD_BK := cod_bk;
                         COD_CLIENTE := cod_cliente; DESCRICAO := desc;
                         QUANT := quant; UN := un |} ])
  else Ok rows_out.

(** Truth value of what [looks_header_row] returns: a dictionary that is
    not empty. *)
Definition is_header (r : list str) : bool :=
  match looks_header_row r with
  | Some mapping => bool_decide (mapping ≠ ∅)
  | None => false
  end.

(** The inner [while] loop, from row [i]; it returns the row index at which
    it stopped and the rows collected. *)
Fixpoint inner_loop (fuel : nat) (mapping : gmap str nat) (title : str)
    (bloco_n : nat) (i blank_streak : nat) (rows_out : list DetailRow)
    : run (nat * list DetailRow) :=
  match fuel with
  | O => None
  | S fuel' =>
      if (i <? length matrix)%nat then
        do r <- now (getitem matrix i);
        if is_header r then now (Ok (i, rows_out))
        else if is_blank_row r then
          let blank_streak := (blank_streak + 1)%nat in
          if (2 <=? blank_streak)%nat then now (Ok (i, rows_out))
          else inner_loop fuel' mapping title bloco_n (i + 1) blank_streak rows_out
        else
          do rows_out <- now (data_row mapping title bloco_n r rows_out);
          inner_loop fuel' mapping title bloco_n (i + 1) 0 rows_out
      else now (Ok (i, rows_out))
  end.

(** The state of the outer loop: [i], [bloco_n], [rows_out]. *)
Definition scan_state : Type := nat * nat * list DetailRow.

(** One turn of the outer [while] loop, at a row [i] inside the sheet. *)
Definition outer_body (fuel : nat) (st : scan_state) : run scan_state :=
  let '(i, bloco_n, rows_out) := st in
  do row <- now (getitem matrix i);
  match looks_header_row row with
  | Some mapping =>
      if bool_decide (mapping ≠ ∅) then
        let bloco_n := (bloco_n + 1)%nat in
        do found <- now (find_title_near matrix (Z.of_nat i));
        let title := title_or found fallback_title in
        let i := (i + 1)%nat in
        do p <- inner_loop fuel mapping title bloco_n i 0 rows_out;
        now (Ok (p.1, bloco_n, p.2))
      else now (Ok ((i + 1)%nat, bloco_n, rows_out))
  | None => now (Ok ((i + 1)%nat, bloco_n, rows_out))
  end.

Fixpoint outer_loop (fuel : nat) (st : scan_state) : run scan_state :=
  match fuel with
  | O => None
  | S fuel' =>
      if (st.1.1 <? length matrix)%nat then
        do st' <- outer_body fuel' st;
        outer_loop fuel' st'
      else now (Ok st)
  end.

End Parser.

Definition parse_blocks `{U : Unicode} (df_raw : DataFrame)
    (fonte_nome sheet_name fallback_title : str) : run (list DetailRow) :=
  let matrix : list (list str) :=
    (λ row : list pyval, norm_cell <$> row) <$> df_values df_raw in
  let max_cols := df_shape1 df_raw in
  do st <- outer_loop matrix max_cols fonte_nome sheet_name fallback_title
             (S (length matrix)) (0, 0, [])%nat;
  now (Ok st.2).

(** ** Consolidator *)

Record Agg := {
  agg_cod_bk : str;
  agg_cod_cliente : str;
  agg_un : str;
  QSUM : float;
  FONTES : gset str;
  DESENHOS : gset str;
}.

Record ConsRow := {
  c_cod_bk : str;
  c_cod_cliente : str;
  c_descricao : str;
  c_quant : float;
  c_un : str;
  c_desenhos : str;
  c_arquivos_origem : str;
}.

(** Order of strings: lexicographic on code points. *)
Fixpoint str_leb (a b : str) : bool :=
  match a, b with
  | [], _ => true
  | _ :: _, [] => false
  | x :: a', y :: b' => (x <? y) || ((x =? y) && str_leb a' b')
  end.

Definition str_le (a b : str) : Prop := str_leb a b = true.

#[global] Instance str_le_dec : RelDecision str_le.
Proof. intros a b. unfold str_le. apply _. Defined.

(** [sep.join(l)]. *)
Fixpoint join (sep : str) (l : list str) : str :=
  match l with
  | [] => []
  | [x] => x
  | x :: l' => x ++ sep ++ join sep l'
  end.

(** ["; ".join(sorted(s))]. *)
Definition render (s : gset str) : str :=
  join (lit "; ") (merge_sort str_le (elements s)).

Section Consolidate.
Context {U : Unicode}.

Definition fonte_of (row : DetailRow) : str :=
  ARQUIVO_EXCEL row ++ lit " | " ++ ABA row ++ lit " | T"
    ++ str_of_nat (BLOCO_TABELA row).

(** One turn of the loop over the rows. *)
Definition consolidate_row (st : gmap str Agg * list str) (row : DetailRow)
    : res (gmap str Agg * list str) :=
  let '(agg, order) := st in
  let desc := strip (DESCRICAO row) in
  if negb (truthy desc) then Ok (agg, order)
  else
    let '(agg, order) :=
      if bool_decide (is_Some (agg !! desc)) then (agg, order)
      else (<[desc := {| agg_cod_bk := COD_BK row;
                         agg_cod_cliente := COD_CLIENTE row;
                         agg_un := UN row;
                         QSUM := float_zero;
                         FONTES := ∅;
                         DESENHOS := ∅ |}]> agg, order ++ [desc]) in
    d ← getkey agg desc;
    let qsum := float_add (QSUM d) (to_float_br (PyStr (QUANT row))) in
    let fontes := FONTES d ∪ {[ fonte_of row ]} in
    let desenhos :=
      if truthy (strip (DESENHO row))
      then DESENHOS d ∪ {[ strip (DESENHO row) ]} else DESENHOS d in
    Ok (<[desc := {| agg_cod_bk := agg_cod_bk d;
                     agg_cod_cliente := agg_cod_cliente d;
                     agg_un := agg_un d;
                     QSUM := qsum; FONTES := fontes; DESENHOS := desenhos |}]> agg,
        order).

Fixpoint consolidate_rows (rows : list DetailRow) (st : gmap str Agg * list str)
    : res (gmap str Agg * list str) :=
  match rows with
  | [] => Ok st
  | row :: rows' => st' ← consolidate_row st row; consolidate_rows rows' st'
  end.

Definition output_row (agg : gmap str Agg) (desc : str) : res ConsRow :=
  d ← getkey agg desc;
  Ok {| c_cod_bk := agg_cod_bk d;
        c_cod_cliente := agg_cod_cliente d;
        c_descricao := desc;
        c_quant := QSUM d;
        c_un := agg_un d;
        c_desenhos := render (DESENHOS d);
        c_arquivos_origem := render (FONTES d) |}.

Definition consolidate (df_detail : list DetailRow) : res (list ConsRow) :=
  match df_detail with
  | [] => Ok []
  | _ =>
      '(agg, order) ← consolidate_rows df_detail (∅, []);
      mapM (output_row agg) order
  end.

End Consolidate.

(** ** The tables on Latin-1

    The Unicode tables restricted to Basic Latin and the Latin-1 Supplement
    (code points below 256) and the combining diacritical marks, to run the
    program on concrete sheets written in that range. *)

Module Latin1.

(** Base letter and combining mark of the letters from U+00C0 to U+00DF. *)
Definition accented : list (option (N * N)) :=
  [ Some (0x41, 0x300); Some (0x41, 0x301); Some (0x41, 0x302); Some (0x41, 0x303);
    Some (0x41, 0x308); Some (0x41, 0x30a); None; Some (0x43, 0x327);
    Some (0x45, 0x300); Some (0x45, 0x301); Some (0x45, 0x302); Some (0x45, 0x308);
    Some (0x49, 0x300); Some (0x49, 0x301); Some (0x49, 0x302); Some (0x49, 0x308);
    None; Some (0x4e, 0x303);
    Some (0x4f, 0x300); Some (0x4f, 0x301); Some (0x4f, 0x302); Some (0x4f, 0x303);
    Some (0x4f, 0x308); None; None;
    Some (0x55, 0x300); Some (0x55, 0x301); Some (0x55, 0x302); Some (0x55, 0x308);
    Some (0x59, 0x301); None; None ].

Definition decompose (c : N) : str :=
  if (0xc0 <=? c) && (c <=? 0xdf) then
    match accented !! N.to_nat (c - 0xc0) with
    | Some (Some (b, m)) => [b; m]
    | _ => [c]
    end
  else if c =? 0xff then [0x79; 0x308]
  else if (0xe0 <=? c) && (c <=? 0xfe) then
    match accented !! N.to_nat (c - 0xe0) with
    | Some (Some (b, m)) => [b + 32; m]
    | _ => [c]
    end
  else if c =? 0xa0 then [0x20]
  else if c =? 0xa8 then [0x20; 0x308]
  else if c =? 0xaa then [0x61]
  else if c =? 0xaf then [0x20; 0x304]
  else if c =? 0xb2 then [0x32]
  else if c =? 0xb3 then [0x33]
  else if c =? 0xb4 then [0x20; 0x301]
  else if c =? 0xb5 then [0x3bc]
  else if c =? 0xb8 then [0x20; 0x327]
  else if c =? 0xb9 then [0x31]
  else if c =? 0xba then [0x6f]
  else if c =? 0xbc then [0x31; 0x2044; 0x34]
  else if c =? 0xbd then [0x31; 0x2044; 0x32]
  else if c =? 0xbe then [0x33; 0x2044; 0x34]
  else [c].

Definition upper_char (c : N) : str :=
  if (97 <=? c) && (c <=? 122) then [c - 32]
  else if c =? 0xdf then [83; 83]
  else if c =? 0xb5 then [0x39c]
  else if c =? 0xff then [0x178]
  else if (0xe0 <=? c) && (c <=? 0xfe) && negb (c =? 0xf7) then [c - 32]
  else [c].

Definition alnum (c : N) : bool :=
  is_digit c || ((65 <=? c) && (c <=? 90)) || ((97 <=? c) && (c <=? 122))
  || (c =? 0xaa) || (c =? 0xb2) || (c =? 0xb3) || (c =? 0xb5) || (c =? 0xb9)
  || (c =? 0xba) || ((0xbc <=? c) && (c <=? 0xbe))
  || ((0xc0 <=? c) && (c <=? 0xff) && negb (c =? 0xd7) && negb (c =? 0xf7)).

Definition nfkd (s : str) : str := s ≫= decompose.

Definition to_upper (s : str) : str := s ≫= upper_char.

#[export] Instance tables : Unicode := {|
  normalize_NFKD := nfkd;
  combining c := if (0x300 <=? c) && (c <=? 0x36f) && negb (c =? 0x34f) then 230 else 0;
  upper := to_upper;
  isalnum := alnum;
  todecimal c := if is_digit c then Some (c - 48) else None;
  normalize_NFKD_empty := eq_refl;
  upper_empty := eq_refl;
|}.

End Latin1.

(** * Notions of the specification *)

(** ** Header matcher *)

(** What the specification calls a column that satisfies a field: its key
    is one of the aliases of the field, or meets the field's "contains"
    rule. *)
Definition fallback_rule (h k : str) : bool :=
  (bool_decide (h = H_DESCRICAO) && contains (lit "DESCR") k)
  || (bool_decide (h = H_QUANT) && (contains (lit "QUANT") k || contains (lit "QTD") k))
  || (bool_decide (h = H_COD_BK) && (contains (lit "BK") k && contains (lit "COD") k))
  || (bool_decide (h = H_COD_CLIENTE) && (contains (lit "CLIENTE") k && contains (lit "COD") k)).

Definition satisfies (hv : str * gset str) (k : str) : bool :=
  bool_decide (k ∈ hv.2) || fallback_rule hv.1 k.

(** The leftmost column whose key satisfies the field. *)
Definition leftmost (hv : str * gset str) (keys : list str) : option nat :=
  fst <$> list_find (λ k, Is_true (satisfies hv k)) keys.

(** ** Normalized texts *)

(** The shape of a normalized text: each whitespace character is a single
    space that follows a character that is not whitespace. *)
Fixpoint normal (in_run : bool) (s : str) : bool :=
  match s with
  | [] => true
  | c :: s' =>
      if isspace c then (c =? 32) && negb in_run && normal true s'
      else normal false s'
  end.

(** ** Title locator *)

(** The rows of the search window of a header row, in scan order. *)
Definition window (matrix : list (list str)) (header_row_idx : Z) : list (list str) :=
  let r0 := Z.max 0 (header_row_idx - 3) in
  let r1 := Z.min (Z.of_nat (length matrix) - 1) (header_row_idx + 3) in
  take (Z.to_nat (r1 + 1 - r0)) (drop (Z.to_nat r0) matrix).

(** The first of the longest candidates. *)
Definition select (candidates : list (nat * str)) : str :=
  match sort_desc candidates with
  | [] => []
  | c :: _ => c.2
  end.

(** ** Block parser *)

Section ParserNotions.
Context {U : Unicode}.
Variable matrix : list (list str).
Variable max_cols : nat.
Variables fonte_nome sheet_name fallback_title : str.

(** The number of header rows among [rows]. *)
Definition count_headers (rows : list (list str)) : nat :=
  length (filter (λ r, Is_true (is_header r)) rows).

(** The title of the block whose header row is row [h]. *)
Definition block_title (h : nat) : str :=
  title_or (select (title_candidates (mjoin (window matrix (Z.of_nat h)))))
    fallback_title.

(** The detail row [d] is the image of the row [r] in a block with the
    given mapping, title and number. *)
Definition materializes (mapping : gmap str nat) (title : str) (bloco_n : nat)
    (r : list str) (d : DetailRow) : Prop :=
  data_row max_cols fonte_nome sheet_name mapping title bloco_n r [] = Ok [d].

(** Where a detail row comes from: a data row [j] below a header row [h],
    with no header row in between. *)
Definition emitted_after (lo : nat) (d : DetailRow) : Prop :=
  ∃ (h j : nat) hr mapping r,
    (lo ≤ h < j)%nat
    ∧ matrix !! h = Some hr ∧ looks_header_row hr = Some mapping
    ∧ matrix !! j = Some r
    ∧ (∀ k r', (h < k ≤ j)%nat → matrix !! k = Some r' → is_header r' = false)
    ∧ is_blank_row r = false
    ∧ materializes mapping (block_title h) (S (count_headers (take h matrix))) r d.

End ParserNotions.

(** ** Consolidator *)

(** The aggregation key of a row, the rows of one key, and the keys in the
    order in which they are first seen. *)
Definition key_of (d : DetailRow) : str := strip (DESCRICAO d).

Definition keyed (k : str) (rows : list DetailRow) : list DetailRow :=
  filter (λ d, key_of d = k) rows.

Definition keys_of (rows : list DetailRow) : list str :=
  filter (λ k, k ≠ []) (key_of <$> rows).

Fixpoint first_seen (ks : list str) : list str :=
  match ks with
  | [] => []
  | k :: ks' => k :: filter (λ k', k' ≠ k) (first_seen ks')
  end.

Section SummaryNotions.
Context {U : Unicode}.

(** The sum of the quantities of [rows], added from left to right. *)
Definition quantity_sum (rows : list DetailRow) : float :=
  fold_left (λ acc d, float_add acc (to_float_br (PyStr (QUANT d)))) rows float_zero.

Definition provenance (rows : list DetailRow) : gset str :=
  list_to_set (fonte_of <$> rows).

Definition titles (rows : list DetailRow) : gset str :=
  list_to_set (filter (λ t, t ≠ []) ((λ d, strip (DESENHO d)) <$> rows)).

(** The record of a key whose rows, in input order, are [rows]. *)
Definition summary (rows : list DetailRow) : option Agg :=
  match rows with
  | [] => None
  | d :: _ =>
      Some {| agg_cod_bk := COD_BK d; agg_cod_cliente := COD_CLIENTE d;
              agg_un := UN d; QSUM := quantity_sum rows;
              FONTES := provenance rows; DESENHOS := titles rows |}
  end.

Definition cons_row (k : str) (a : Agg) : ConsRow :=
  {| c_cod_bk := agg_cod_bk a; c_cod_cliente := agg_cod_cliente a;
     c_descricao := k; c_quant := QSUM a; c_un := agg_un a;
     c_desenhos := render (DESENHOS a);
     c_arquivos_origem := render (FONTES a) |}.

(** The state of the loop after the rows [rows]. *)
Definition consolidated (rows : list DetailRow) (st : gmap str Agg * list str) : Prop :=
  st.2 = first_seen (keys_of rows)
  ∧ ∀ k, st.1 !! k = if decide (k = []) then None else summary (keyed k rows).

End SummaryNotions.

(** ** Numerals *)

(** The texts made of digits, minus signs and points, and the value of a
    run of digits read from the left. *)
Definition plain (s : str) : bool :=
  forallb (λ c, is_digit c || (c =? 45) || (c =? 46)) s.

Definition digit_step (acc : Z) (c : N) : Z := (10 * acc + (Z.of_N c - 48))%Z.

(** * The sheet of the examples

    A title line, a header, a data row, two blank rows, a line of text and
    a second table whose header follows a data row directly. *)

Module Example.
Import Latin1.
#[local] Open Scope string_scope.

Definition header : list pyval :=
  [ PyStr H_ITEM; PyStr H_COD_BK; PyStr H_COD_CLIENTE; PyStr H_DESCRICAO;
    PyStr H_QUANT; PyStr H_UN ].

Definition blank : list pyval := [PyNone; PyNone; PyNone; PyNone; PyNone; PyNone].

Definition cells (l : list string) : list pyval := (λ s, PyStr (lit s)) <$> l.

Definition sheet : DataFrame :=
  {| df_values :=
       [ cells ["QUADRO GERAL"; ""; ""; ""; ""; "QUANT. TOTAL"];
         header;
         cells ["1"; "BK01"; "C01"; "Parafuso M8"; "3,5"; "UN"];
         blank;
         cells ["2"; "BK02"; "C02"; "Arruela lisa"; "2"; "UN"];
         blank;
         blank;
         cells ["texto solto"; ""; ""; ""; ""; ""];
         header;
         cells ["1"; "BK01"; "C01"; "Parafuso M8"; "1,5"; "UN"];
         cells ["2"; "BK09"; "C09"; ""; "7"; "UN"] ];
     df_shape1 := 6 |}.

Definition matrix : list (list str) :=
  (λ row : list pyval, norm_cell <$> row) <$> df_values sheet.

Definition keys : list str := norm_key <$> (norm_cell <$> header).

Definition mapping : gmap str nat := header_scan keys.

Definition quant_entry : str * gset str :=
  (H_QUANT, {[ lit "QUANT"; lit "QUANTIDADE"; lit "QTD"; lit "QTDE" ]}).

Definition detail (title : string) (bloco : nat) (item cod_bk cod_cliente desc quant un : string)
    : DetailRow :=
  {| ARQUIVO_EXCEL := lit "obra.xlsx"; ABA := lit "Plan1"; DESENHO := lit title;
     BLOCO_TABELA := bloco; ITEM := lit item; COD_BK := lit cod_bk;
     COD_CLIENTE := lit cod_cliente; DESCRICAO := lit desc; QUANT := lit quant;
     UN := lit un |}.

Definition rows : list DetailRow :=
  [ detail "QUADRO GERAL" 1 "1" "BK01" "C01" "Parafuso M8" "3,5" "UN";
    detail "QUADRO GERAL" 1 "2" "BK02" "C02" "Arruela lisa" "2" "UN";
    detail "texto solto" 2 "1" "BK01" "C01" "Parafuso M8" "1,5" "UN" ].

End Example.

(** Three rows of one description whose quantities do not add up to the
    same float in every order. *)
Module OrderExample.
Import Latin1.

Definition cabo (quant : string) : DetailRow :=
  Example.detail "QUADRO GERAL" 1 "1" "BK07" "C07" "Cabo 2,5 mm" quant "m".

Definition rows : list DetailRow := [cabo "0,1"; cabo "0,2"; cabo "0,3"].

Definition reordered : list DetailRow := [cabo "0,3"; cabo "0,2"; cabo "0,1"].

End OrderExample.

(** ** Notions of the further properties *)

(** The characters of a text that are not whitespace. *)
Definition solid (s : str) : str := filter (λ c, isspace c = false) s.

(** How often the character [c] occurs in [s]. *)
Definition occurrences (c : N) (s : str) : nat := length (filter (λ a, a = c) s).

(** Neither a period nor a question mark. *)
Definition unmarked (c : N) : Prop := c ≠ 46 ∧ c ≠ 63.


Section RowImages.
Context {U : Unicode}.
Variable matrix : list (list str).
Variable max_cols : nat.
Variables fonte_nome sheet_name : str.

(** The detail row [d] is the image of the sheet row [j], a row that is
    neither a header row nor blank. *)
Definition image_of_row (j : nat) (d : DetailRow) : Prop :=
  ∃ r mapping title,
    matrix !! j = Some r ∧ is_header r = false ∧ is_blank_row r = false
    ∧ materializes max_cols fonte_nome sheet_name mapping title (BLOCO_TABELA d) r d.

End RowImages.

(** The mantissa of 53 bits of a positive integer below [2 ^ 53]. *)
Definition mantissa (n : positive) : positive :=
  Z.to_pos (Zpos n * 2 ^ (53 - Zpos (Pos.size n))).

(** The sum of a list of integers. *)
Definition total (qs : list Z) : Z := foldr Z.add 0%Z qs.

(** Sheets and rows for the further properties: a sheet of notes without a
    table, a header row with a drawing name to its right, and rows of one
    description with a quantity that is not a number and with whole
    quantities. *)
Module Cases.
Import Latin1.
#[local] Open Scope string_scope.

Definition notes : DataFrame :=
  {| df_values :=
       [ Example.cells ["Obra 12"; "rev. B"];
         [PyNone; PyObj (lit "nan")];
         Example.cells ["ITEM"; "QUANT."] ];
     df_shape1 := 2 |}.

Definition header_with_title : list str :=
  (norm_cell <$> Example.header) ++ [lit "ESCADA"].

Definition nan_row : DetailRow := OrderExample.cabo "nan".

Definition with_nan : list DetailRow :=
  [OrderExample.cabo "2"; nan_row; OrderExample.cabo "1"].

Definition whole : list DetailRow :=
  [OrderExample.cabo "3"; OrderExample.cabo "0"; OrderExample.cabo "12"].

End Cases.

(** * Properties *)

(** ** Header matcher *)

Lemma HDR_KEYS_names : HDR_KEYS.*1 = CANON_HEADERS.
Proof. reflexivity. Qed.

Lemma HDR_KEYS_NoDup : NoDup HDR_KEYS.*1.
Proof. refine (bool_decide_unpack _ _). vm_compute. exact I. Qed.

Lemma satisfies_empty_key hv : hv ∈ HDR_KEYS → satisfies hv [] = false.
Proof.
  intros Hin. unfold HDR_KEYS in Hin.
  repeat (apply elem_of_cons in Hin as [-> | Hin]; [vm_compute; reflexivity |]).
  by apply elem_of_nil in Hin.
Qed.

Lemma header_fallback_rule (h k : str) (i : nat) (found : gmap str nat) :
  header_fallback h k i found
  = if fallback_rule h k then <[h := i]> found else found.
Proof.
  unfold header_fallback, fallback_rule.
  repeat match goal with
         | |- context [bool_decide (h = ?x)] => destruct (bool_decide (h = x))
         | |- context [contains ?p k] => destruct (contains p k)
         end; simpl; rewrite ?insert_insert_eq; reflexivity.
Qed.

Lemma header_entry_lookup (i : nat) (k : str) (found : gmap str nat)
    (h : str) (v : gset str) (h' : str) :
  header_entry i k found (h, v) !! h'
  = if decide (h = h') then
      match found !! h with
      | Some j => Some j
      | None => if satisfies (h, v) k then Some i else None
      end
    else found !! h'.
Proof.
  unfold header_entry, satisfies. simpl.
  destruct (found !! h) as [j|] eqn:Hf.
  - rewrite bool_decide_eq_true_2 by eauto.
    destruct (decide (h = h')); congruence.
  - rewrite bool_decide_eq_false_2 by (intros [? ?]; discriminate).
    rewrite header_fallback_rule.
    destruct (bool_decide (k ∈ v)); simpl;
      [| destruct (fallback_rule h k)];
      destruct (decide (h = h')) as [<- | Hne];
      rewrite ?lookup_insert_eq, ?lookup_insert_ne by done; congruence.
Qed.

Lemma header_entries_lookup (i : nat) (k : str) (l : list (str * gset str)) :
  NoDup l.*1 → ∀ (found : gmap str nat) h',
  fold_left (header_entry i k) l found !! h'
  = match found !! h' with
    | Some j => Some j
    | None =>
        match list_find (λ hv, hv.1 = h') l with
        | Some (_, hv) => if satisfies hv k then Some i else None
        | None => None
        end
    end.
Proof.
  induction l as [| [h v] l IH]; intros Hnd found h'.
  - simpl. by destruct (found !! h').
  - rewrite fmap_cons in Hnd. apply NoDup_cons in Hnd as [Hnotin Hnd].
    cbn [fold_left list_find]. rewrite IH by done. rewrite header_entry_lookup.
    simpl in Hnotin. simpl (_.1).
    destruct (decide (h = h')) as [<- | Hne].
    + destruct (found !! h) as [j|]; [done |]. simpl.
      destruct (satisfies (h, v) k); [done |].
      destruct (list_find _ l) as [[n hv]|] eqn:Hfind; [| done].
      apply list_find_Some in Hfind as (Hl & Heq & _).
      exfalso. apply Hnotin. rewrite <- Heq.
      apply list_elem_of_fmap. exists hv. split; [done |].
      by eapply list_elem_of_lookup_2.
    + destruct (found !! h'); [done |].
      by destruct (list_find _ l) as [[n hv]|].
Qed.

Lemma find_header hv :
  hv ∈ HDR_KEYS → ∃ n, list_find (λ hv', hv'.1 = hv.1) HDR_KEYS = Some (n, hv).
Proof.
  intros Hin. unfold HDR_KEYS in Hin.
  repeat (apply elem_of_cons in Hin as [-> | Hin];
          [eexists; vm_compute; reflexivity |]).
  by apply elem_of_nil in Hin.
Qed.

Section HeaderScan.
Context {U : Unicode}.

Lemma header_column_lookup (found : gmap str nat) (i : nat) (k : str) hv :
  hv ∈ HDR_KEYS →
  header_column found (i, k) !! hv.1
  = match found !! hv.1 with
    | Some j => Some j
    | None => if satisfies hv k then Some i else None
    end.
Proof.
  intros Hin. unfold header_column.
  destruct k as [| c k]; cbn [truthy negb].
  - rewrite satisfies_empty_key by done. by destruct (found !! hv.1).
  - rewrite header_entries_lookup by apply HDR_KEYS_NoDup.
    destruct (find_header hv Hin) as [n ->]. done.
Qed.

Lemma header_columns_lookup hv (keys : list str) :
  hv ∈ HDR_KEYS → ∀ (n : nat) (found : gmap str nat),
  fold_left header_column (imap (λ i k, ((n + i)%nat, k)) keys) found !! hv.1
  = match found !! hv.1 with
    | Some j => Some j
    | None => (λ i, (n + i)%nat) <$> leftmost hv keys
    end.
Proof.
  intros Hin. unfold leftmost.
  induction keys as [| k keys IH]; intros n found.
  - simpl. by destruct (found !! hv.1).
  - rewrite imap_cons. cbn [fold_left list_find].
    rewrite (imap_ext _ (λ i k0, ((S n + i)%nat, k0)))
      by (intros; simpl; f_equal; lia).
    rewrite IH, header_column_lookup by done.
    rewrite Nat.add_0_r.
    destruct (found !! hv.1); [done |].
    destruct (decide (Is_true (satisfies hv k))) as [Hs | Hs].
    + apply Is_true_true in Hs. rewrite Hs. simpl. f_equal. lia.
    + apply Is_true_false in Hs. rewrite Hs.
      destruct (list_find _ keys) as [[j x]|]; simpl; [f_equal; lia | done].
Qed.

(** The dictionary built by the two loops gives each header name its
    leftmost satisfying column. *)
Lemma header_scan_lookup hv (keys : list str) :
  hv ∈ HDR_KEYS → header_scan keys !! hv.1 = leftmost hv keys.
Proof.
  intros Hin. unfold header_scan.
  rewrite (imap_ext _ (λ i k0, ((0 + i)%nat, k0))) by done.
  rewrite header_columns_lookup by done.
  rewrite lookup_empty. destruct (leftmost hv keys); done.
Qed.

Lemma looks_header_row_Some row mapping :
  looks_header_row row = Some mapping ↔
  mapping = header_scan (norm_key <$> row)
  ∧ ∀ hv, hv ∈ HDR_KEYS → is_Some (leftmost hv (norm_key <$> row)).
Proof.
  unfold looks_header_row.
  set (found := header_scan (norm_key <$> row)).
  assert (forallb (λ h, bool_decide (is_Some (found !! h))) CANON_HEADERS = true
          ↔ ∀ hv, hv ∈ HDR_KEYS → is_Some (leftmost hv (norm_key <$> row))) as Hall.
  { rewrite forallb_forall, <- HDR_KEYS_names. split.
    - intros H hv Hin. rewrite <- header_scan_lookup by done.
      eapply bool_decide_eq_true_1, H, list_elem_of_In, list_elem_of_fmap_2, Hin.
    - intros H h Hh. apply list_elem_of_In, list_elem_of_fmap in Hh as (hv & -> & Hin).
      apply bool_decide_eq_true_2. unfold found.
      rewrite header_scan_lookup by done. auto. }
  destruct (forallb _ CANON_HEADERS).
  - split; [intros [= <-]; split; [done | by apply Hall] | intros [-> _]; done].
  - split; [done |]. intros [_ H]. apply Hall in H. done.
Qed.

Lemma looks_header_row_None row :
  looks_header_row row = None ↔
  ∃ hv, hv ∈ HDR_KEYS ∧ leftmost hv (norm_key <$> row) = None.
Proof.
  destruct (looks_header_row row) as [m|] eqn:Hl.
  - apply looks_header_row_Some in Hl as [_ Hall]. split; [done |].
    intros (hv & Hin & Hnone). destruct (Hall hv Hin) as [? ?]. congruence.
  - split; [intros _ | done].
    destruct (decide (Forall (λ hv, is_Some (leftmost hv (norm_key <$> row))) HDR_KEYS))
      as [Hall | Hex].
    + rewrite Forall_forall in Hall.
      assert (looks_header_row row = Some (header_scan (norm_key <$> row))) as H
        by (apply looks_header_row_Some; done).
      congruence.
    + apply not_Forall_Exists in Hex; [| apply _].
      apply Exists_exists in Hex as (hv & Hin & Hnot).
      exists hv. split; [done |]. apply eq_None_not_Some. done.
Qed.

Lemma header_scan_other (keys : list str) (h : str) :
  h ∉ CANON_HEADERS → header_scan keys !! h = None.
Proof.
  intros Hh. unfold header_scan.
  assert (∀ (l : list (nat * str)) (found : gmap str nat),
            found !! h = None → fold_left header_column l found !! h = None) as Hfold.
  { induction l as [| [i k] l IH]; intros found Hf; [done |].
    cbn [fold_left]. apply IH. unfold header_column.
    destruct (negb (truthy k)); [done |].
    rewrite header_entries_lookup, Hf by apply HDR_KEYS_NoDup.
    destruct (list_find _ HDR_KEYS) as [[n hv]|] eqn:Hfind; [| done].
    apply list_find_Some in Hfind as (Hl & Heq & _).
    exfalso. apply Hh. rewrite <- HDR_KEYS_names, <- Heq.
    apply list_elem_of_fmap_2. by eapply list_elem_of_lookup_2. }
  apply Hfold, lookup_empty.
Qed.

Lemma leftmost_Some hv (keys : list str) (i : nat) :
  leftmost hv keys = Some i ↔
  (∃ k, keys !! i = Some k ∧ satisfies hv k = true)
  ∧ ∀ (j : nat) k, (j < i)%nat → keys !! j = Some k → satisfies hv k = false.
Proof.
  unfold leftmost. split.
  - destruct (list_find _ keys) as [[i' k]|] eqn:Hf; [| done].
    intros [= <-]. apply list_find_Some in Hf as (Hk & Hs & Hmin).
    split; [exists k; split; [done | by apply Is_true_true] |].
    intros j k' Hj Hk'. apply Is_true_false. eauto.
  - intros [(k & Hk & Hs) Hmin].
    assert (list_find (λ k, Is_true (satisfies hv k)) keys = Some (i, k)) as ->; [| done].
    apply list_find_Some. split_and!; [done | by apply Is_true_true |].
    intros j k' Hk' Hj. apply Is_true_false. eauto.
Qed.

Lemma leftmost_None hv (keys : list str) :
  leftmost hv keys = None ↔ ∀ k, k ∈ keys → satisfies hv k = false.
Proof.
  unfold leftmost. rewrite fmap_None, list_find_None, Forall_forall.
  split; intros H k Hk; [apply Is_true_false | apply Is_true_false]; auto.
Qed.

End HeaderScan.

(** ** Strings and the normalizer *)

Lemma lstrip_split s : ∃ w, s = w ++ lstrip s ∧ forallb isspace w = true.
Proof.
  induction s as [| c s IH]; [by exists [] |]. simpl.
  destruct (isspace c) eqn:Hc; [| by exists []].
  destruct IH as (w & Hs & Hw). exists (c :: w). simpl.
  rewrite Hc, Hw. split; [by f_equal | done].
Qed.

Lemma lstrip_head s : match lstrip s with [] => True | c :: _ => isspace c = false end.
Proof.
  induction s as [| c s IH]; [done |]. simpl.
  destruct (isspace c) eqn:Hc; [done |]. by simpl.
Qed.

Lemma lstrip_nil s : lstrip s = [] ↔ forallb isspace s = true.
Proof.
  induction s as [| c s IH]; [done |]. simpl.
  destruct (isspace c); simpl; [done |]. split; discriminate.
Qed.

Lemma lstrip_id c s : isspace c = false → lstrip (c :: s) = c :: s.
Proof. intros H. simpl. by rewrite H. Qed.

Lemma forallb_reverse {A} (f : A → bool) l : forallb f (reverse l) = forallb f l.
Proof.
  induction l as [| x l IH]; [done |].
  rewrite reverse_cons, forallb_app, IH. simpl. destruct (f x), (forallb f l); done.
Qed.

Lemma rstrip_split s : ∃ w, s = rstrip s ++ w ∧ forallb isspace w = true.
Proof.
  unfold rstrip. destruct (lstrip_split (reverse s)) as (w & Hs & Hw).
  exists (reverse w). rewrite forallb_reverse. split; [| done].
  rewrite <- reverse_app, <- Hs. by rewrite reverse_involutive.
Qed.

Lemma rstrip_last s :
  rstrip s = [] ∨ ∃ s' c, rstrip s = s' ++ [c] ∧ isspace c = false.
Proof.
  unfold rstrip. pose proof (lstrip_head (reverse s)) as H.
  destruct (lstrip (reverse s)) as [| c t]; [by left | right].
  exists (reverse t), c. by rewrite reverse_cons.
Qed.

Lemma rstrip_id s c : isspace c = false → rstrip (s ++ [c]) = s ++ [c].
Proof.
  intros H. unfold rstrip. rewrite reverse_snoc, lstrip_id by done.
  by rewrite reverse_cons, reverse_involutive.
Qed.

Lemma rstrip_nil s : rstrip s = [] ↔ forallb isspace s = true.
Proof.
  unfold rstrip. rewrite <- (forallb_reverse _ s), <- lstrip_nil.
  split; intros H.
  - apply (f_equal reverse) in H. by rewrite reverse_involutive in H.
  - by rewrite H.
Qed.

Lemma strip_nil s : strip s = [] ↔ forallb isspace s = true.
Proof.
  unfold strip. rewrite rstrip_nil.
  destruct (lstrip_split s) as (w & Hs & Hw).
  rewrite Hs at 2. rewrite forallb_app, Hw. done.
Qed.

(** A stripped string is empty, or begins and ends with characters that
    are not whitespace. *)
Lemma strip_shape s :
  strip s = [] ∨
  ∃ a t b, isspace a = false ∧ isspace b = false
           ∧ (strip s = a :: t) ∧ ∃ t', strip s = t' ++ [b].
Proof.
  unfold strip. destruct (rstrip_last (lstrip s)) as [-> | (s' & c & Hr & Hc)];
    [by left | right].
  destruct (rstrip_split (lstrip s)) as (w & Hs & Hw).
  pose proof (lstrip_head s) as Hh. rewrite Hs, Hr in Hh.
  rewrite Hr. destruct s' as [| a s']; simpl in *.
  - exists c, [], c. repeat split; try done. by exists [].
  - exists a, (s' ++ [c]), c. repeat split; try done. by exists (a :: s').
Qed.

Lemma strip_id a t b :
  isspace a = false → isspace b = false → strip (a :: t ++ [b]) = a :: t ++ [b].
Proof.
  intros Ha Hb. unfold strip. rewrite lstrip_id by done.
  exact (rstrip_id (a :: t) b Hb).
Qed.

Lemma strip_id1 a : isspace a = false → strip [a] = [a].
Proof. intros Ha. unfold strip. rewrite lstrip_id by done. exact (rstrip_id [] a Ha). Qed.

Lemma replace_cons old new c s :
  replace old new (c :: s) = (if c =? old then new else [c]) ++ replace old new s.
Proof. reflexivity. Qed.

Lemma replace_nbsp_space s :
  forallb isspace (replace 0xa0 (lit " ") s) = forallb isspace s.
Proof.
  induction s as [| c s IH]; [done |].
  rewrite replace_cons, forallb_app, IH.
  destruct (N.eqb_spec c 0xa0) as [-> | Hne]; simpl; [done |].
  by rewrite andb_true_r.
Qed.

Lemma sub_spaces_nil s : sub_spaces false s = [] ↔ s = [].
Proof. destruct s as [| c s]; [done |]. simpl. by destruct (isspace c). Qed.

(** A cell is empty after normalization exactly when it is empty after
    trimming. *)
Lemma truthy_norm_cell (s : str) : truthy (norm_cell (PyStr s)) = truthy (strip s).
Proof.
  change (norm_cell (PyStr s))
    with (sub_spaces false (strip (replace 0xa0 (lit " ") s))).
  destruct (strip s) as [| c t] eqn:Hs.
  - apply strip_nil in Hs. rewrite <- replace_nbsp_space in Hs.
    apply strip_nil in Hs. by rewrite Hs.
  - destruct (sub_spaces false _) eqn:Hn; [| done].
    apply sub_spaces_nil, strip_nil in Hn. rewrite replace_nbsp_space in Hn.
    apply strip_nil in Hn. congruence.
Qed.

Lemma sub_spaces_normal b s : normal b (sub_spaces b s) = true.
Proof.
  revert b. induction s as [| c s IH]; intros b; [done |]. simpl.
  destruct (isspace c) eqn:Hc.
  - destruct b; [apply IH |]. simpl. apply IH.
  - simpl. rewrite Hc. apply IH.
Qed.

Lemma normal_sub_spaces b s : normal b s = true → sub_spaces b s = s.
Proof.
  revert b. induction s as [| c s IH]; intros b H; [done |]. simpl in *.
  destruct (isspace c).
  - apply andb_true_iff in H as [H Hs]. apply andb_true_iff in H as [Hc Hb].
    apply N.eqb_eq in Hc as ->. destruct b; [done |]. by rewrite IH.
  - by rewrite IH.
Qed.

Lemma normal_replace b s : normal b s = true → replace 0xa0 (lit " ") s = s.
Proof.
  revert b. induction s as [| c s IH]; intros b H; [done |].
  rewrite replace_cons. simpl in H.
  destruct (N.eqb_spec c 0xa0) as [-> | Hne].
  - simpl in H. discriminate.
  - simpl. f_equal. destruct (isspace c).
    + apply andb_true_iff in H as [_ H]. by eapply IH.
    + by eapply IH.
Qed.

Lemma sub_spaces_snoc b s c :
  isspace c = false → sub_spaces b (s ++ [c]) = sub_spaces b s ++ [c].
Proof.
  intros Hc. revert b. induction s as [| a s IH]; intros b; simpl.
  - by rewrite Hc.
  - destruct (isspace a); [destruct b |]; simpl; by rewrite IH.
Qed.

Lemma norm_text_strip s :
  strip (sub_spaces false (strip s)) = sub_spaces false (strip s).
Proof.
  destruct (strip_shape s) as [-> | (a & t & b & Ha & Hb & Hat & t' & Htb)];
    [done |].
  rewrite Htb, sub_spaces_snoc by done.
  destruct t' as [| a' t'']; simpl; [by apply strip_id1 |].
  rewrite Hat in Htb. injection Htb as <- _.
  rewrite Ha. by apply strip_id.
Qed.

Lemma norm_cell_strip x : strip (norm_cell x) = norm_cell x.
Proof. destruct x as [| s | s]; [done | |]; apply norm_text_strip. Qed.

Lemma norm_cell_normal x : normal false (norm_cell x) = true.
Proof. destruct x; [done | |]; apply sub_spaces_normal. Qed.

(** Normalizing a normalized cell changes nothing. *)
Lemma norm_cell_idempotent x : norm_cell (PyStr (norm_cell x)) = norm_cell x.
Proof.
  pose proof (norm_cell_normal x) as Hn.
  change (norm_cell (PyStr (norm_cell x)))
    with (sub_spaces false (strip (replace 0xa0 (lit " ") (norm_cell x)))).
  rewrite (normal_replace false) by done.
  rewrite norm_cell_strip. by apply normal_sub_spaces.
Qed.

(** ** Title locator *)

Lemma mapM_getitem_int {A} (l : list A) (n : nat) : ∀ a : Z,
  (0 ≤ a)%Z → (a + Z.of_nat n ≤ Z.of_nat (length l))%Z →
  mapM (getitem_int l) (seqZ a (Z.of_nat n)) = Ok (take n (drop (Z.to_nat a) l)).
Proof.
  induction n as [| n IH]; intros a Ha Hb.
  - by rewrite seqZ_nil.
  - rewrite seqZ_cons by lia.
    replace (Z.pred (Z.of_nat (S n))) with (Z.of_nat n) by lia.
    cbn [mapM]. rewrite IH by lia.
    unfold getitem_int, getitem. rewrite (proj2 (Z.ltb_ge a 0)) by lia.
    destruct (lookup_lt_is_Some_2 l (Z.to_nat a)) as [x Hx]; [lia |].
    rewrite Hx. cbn.
    rewrite (drop_S l x (Z.to_nat a) Hx).
    replace (Z.to_nat (Z.succ a)) with (S (Z.to_nat a)) by lia. done.
Qed.

Section Title.
Context {U : Unicode}.

Lemma find_title_near_window matrix h :
  find_title_near matrix h = Ok (select (title_candidates (mjoin (window matrix h)))).
Proof.
  unfold find_title_near, window, range, select.
  set (r0 := Z.max 0 (h - 3)).
  set (r1 := Z.min (Z.of_nat (length matrix) - 1) (h + 3)).
  destruct (decide (r1 + 1 - r0 ≤ 0)%Z) as [Hle | Hgt].
  - rewrite seqZ_nil by done.
    replace (Z.to_nat (r1 + 1 - r0)) with 0%nat by lia. simpl.
    done.
  - rewrite <- (Z2Nat.id (r1 + 1 - r0)) at 1 by lia.
    rewrite mapM_getitem_int by lia. cbn.
    by destruct (sort_desc _).
Qed.

Lemma window_lookup matrix h (k : nat) :
  window matrix h !! k
  = if decide (Z.max 0 (h - 3) + Z.of_nat k ≤ h + 3)%Z
    then matrix !! (Z.to_nat (Z.max 0 (h - 3)) + k)%nat
    else None.
Proof.
  unfold window.
  rewrite lookup_take, lookup_drop.
  destruct (decide (Z.max 0 (h - 3) + Z.of_nat k ≤ h + 3)%Z) as [Hle | Hgt].
  - case_decide as Hk; [done |].
    symmetry. apply lookup_ge_None. lia.
  - case_decide as Hk; [lia | done].
Qed.

Lemma insert_desc_head x l :
  head (insert_desc x l)
  = match l with
    | [] => Some x
    | y :: _ => if (y.1 <=? x.1)%nat then Some x else Some y
    end.
Proof. destruct l as [| y l]; [done |]. simpl. by destruct (y.1 <=? x.1)%nat. Qed.

(** The head of the sorted candidates is the first candidate of maximal
    length. *)
Lemma sort_desc_head (l : list (nat * str)) :
  match sort_desc l with
  | [] => l = []
  | c :: _ =>
      ∃ pre post, l = pre ++ c :: post
        ∧ Forall (λ x, (x.1 < c.1)%nat) pre ∧ Forall (λ x, (x.1 ≤ c.1)%nat) post
  end.
Proof.
  induction l as [| x l IH]; [done |].
  change (sort_desc (x :: l)) with (insert_desc x (sort_desc l)).
  pose proof (insert_desc_head x (sort_desc l)) as Hh.
  destruct (sort_desc l) as [| m rest] eqn:Hs.
  - subst l. simpl. exists [], []. split_and!; done.
  - destruct IH as (pre & post & -> & Hpre & Hpost).
    destruct (insert_desc x (m :: rest)) as [| c rest'] eqn:Hi;
      [simpl in Hh; by destruct (m.1 <=? x.1)%nat |].
    simpl in Hh. destruct (Nat.leb_spec m.1 x.1); injection Hh as ->.
    + exists [], (pre ++ m :: post). split_and!; [done | done |].
      apply Forall_app. split; [| apply Forall_cons; split; [done |]].
      * eapply Forall_impl; [done |]. simpl. lia.
      * eapply Forall_impl; [done |]. simpl. lia.
    + exists (x :: pre), post. split_and!; [done | | done].
      by apply Forall_cons.
Qed.

Lemma title_candidates_elem cells n t :
  (n, t) ∈ title_candidates cells →
  n = length t ∧ is_candidate_title t = true
  ∧ ∃ val, val ∈ cells ∧ t = norm_cell (PyStr val).
Proof.
  unfold title_candidates. intros Hin.
  apply list_elem_of_bind in Hin as (val & Hin & Hval).
  destruct (is_candidate_title _) eqn:Hc; [| by apply elem_of_nil in Hin].
  apply list_elem_of_singleton in Hin. injection Hin as -> ->. eauto.
Qed.


End Title.

(** ** Block parser *)

Section HeaderRows.
Context {U : Unicode}.

Lemma looks_header_row_total (row : list str) (mapping : gmap str nat) (h : str) :
  looks_header_row row = Some mapping → h ∈ CANON_HEADERS →
  ∃ j, mapping !! h = Some j ∧ (j < length row)%nat.
Proof.
  intros Hl Hh. apply looks_header_row_Some in Hl as [-> Hall].
  rewrite <- HDR_KEYS_names in Hh.
  apply list_elem_of_fmap in Hh as (hv & -> & Hin).
  rewrite header_scan_lookup by done.
  destruct (Hall hv Hin) as [j Hj]. exists j. split; [done |].
  unfold leftmost in Hj.
  destruct (list_find _ _) as [[j' k]|] eqn:Hf; [| done].
  injection Hj as <-. apply list_find_Some in Hf as (Hk & _).
  apply lookup_lt_Some in Hk. by rewrite length_fmap in Hk.
Qed.

Lemma looks_header_row_nonempty (row : list str) (mapping : gmap str nat) :
  looks_header_row row = Some mapping → mapping ≠ ∅.
Proof.
  intros Hl ->.
  destruct (looks_header_row_total row ∅ H_ITEM Hl) as (j & Hj & _).
  - unfold CANON_HEADERS. apply list_elem_of_here.
  - by rewrite lookup_empty in Hj.
Qed.

Lemma is_header_true r : is_header r = true ↔ is_Some (looks_header_row r).
Proof.
  unfold is_header. destruct (looks_header_row r) as [m|] eqn:Hl.
  - rewrite bool_decide_eq_true_2 by (by eapply looks_header_row_nonempty).
    split; eauto.
  - split; [done | by intros [? ?]].
Qed.

(** A blank row is not a header row: its keys are all empty. *)
Lemma norm_key_blank (c : str) :
  truthy (norm_cell (PyStr c)) = false → norm_cell (PyStr c) = [].
Proof. by destruct (norm_cell (PyStr c)). Qed.

End HeaderRows.

Section ParserProps.
Context {U : Unicode}.
Variable matrix : list (list str).
Variable max_cols : nat.
Variables fonte_nome sheet_name fallback_title : str.

Abbreviation inner_loop' := (inner_loop matrix max_cols fonte_nome sheet_name).
Abbreviation outer_body' := (outer_body matrix max_cols fonte_nome sheet_name fallback_title).
Abbreviation outer_loop' := (outer_loop matrix max_cols fonte_nome sheet_name fallback_title).
Abbreviation data_row' := (data_row max_cols fonte_nome sheet_name).

Lemma data_row_app mapping title bloco_n r rows_out :
  data_row' mapping title bloco_n r rows_out
  = (rows_out ++.) <$> data_row' mapping title bloco_n r [].
Proof.
  unfold data_row.
  destruct (cell_at max_cols r mapping H_DESCRICAO) as [desc|]; [| done]. cbn.
  destruct (truthy _); [| cbn; by rewrite app_nil_r].
  repeat (match goal with
          | |- context [cell_at max_cols r mapping ?h] =>
              destruct (cell_at max_cols r mapping h); [| done]; cbn
          end).
  done.
Qed.

Lemma data_row_inv mapping title bloco_n r rows_out rows_out' :
  data_row' mapping title bloco_n r rows_out = Ok rows_out' →
  rows_out' = rows_out
  ∨ ∃ d, rows_out' = rows_out ++ [d]
         ∧ materializes max_cols fonte_nome sheet_name mapping title bloco_n r d.
Proof.
  rewrite data_row_app. unfold materializes.
  destruct (data_row' mapping title bloco_n r []) as [new|] eqn:Hd; [| done].
  cbn. intros [= <-].
  revert Hd. unfold data_row.
  destruct (cell_at max_cols r mapping H_DESCRICAO) as [desc|]; [| done]. cbn.
  destruct (truthy _); [| intros [= <-]; left; by rewrite app_nil_r].
  repeat (match goal with
          | |- context [cell_at max_cols r mapping ?h] =>
              destruct (cell_at max_cols r mapping h); [| done]; cbn
          end).
  intros [= <-]. right. eauto.
Qed.

Lemma materializes_fields mapping title bloco_n r d :
  materializes max_cols fonte_nome sheet_name mapping title bloco_n r d →
  ARQUIVO_EXCEL d = fonte_nome ∧ ABA d = sheet_name ∧ DESENHO d = title
  ∧ BLOCO_TABELA d = bloco_n
  ∧ cell_at max_cols r mapping H_DESCRICAO = Ok (DESCRICAO d)
  ∧ truthy (norm_cell (PyStr (DESCRICAO d))) = true.
Proof.
  unfold materializes, data_row.
  destruct (cell_at max_cols r mapping H_DESCRICAO) as [desc|]; [| done]. cbn.
  destruct (truthy _) eqn:Ht; [| done].
  repeat (match goal with
          | |- context [cell_at max_cols r mapping ?h] =>
              destruct (cell_at max_cols r mapping h); [| done]; cbn
          end).
  intros [= <-]. simpl. done.
Qed.

(** *** The inner loop *)

Lemma inner_loop_unfold fuel mapping title bloco_n i blank_streak rows_out :
  inner_loop' (S fuel) mapping title bloco_n i blank_streak rows_out
  = if (i <? length matrix)%nat then
      match matrix !! i with
      | Some r =>
          if is_header r then Some (Ok (i, rows_out))
          else if is_blank_row r then
            if (2 <=? blank_streak + 1)%nat then Some (Ok (i, rows_out))
            else inner_loop' fuel mapping title bloco_n (i + 1) (blank_streak + 1) rows_out
          else
            match data_row' mapping title bloco_n r rows_out with
            | Ok rows_out1 => inner_loop' fuel mapping title bloco_n (i + 1) 0 rows_out1
            | Raise e => Some (Raise e)
            end
      | None => Some (Raise IndexError)
      end
    else Some (Ok (i, rows_out)).
Proof.
  cbn [inner_loop]. unfold getitem, now, run_bind.
  destruct (i <? length matrix)%nat; [| done].
  destruct (matrix !! i) as [r|]; [| done].
  destruct (is_header r); [done |].
  destruct (is_blank_row r); [done |].
  by destruct (data_row' _ _ _ _ _).
Qed.

Lemma inner_loop_spec fuel mapping title bloco_n :
  ∀ i blank_streak rows_out i' rows_out',
  inner_loop' fuel mapping title bloco_n i blank_streak rows_out
    = Some (Ok (i', rows_out')) →
  (i ≤ i')%nat
  ∧ (∀ k r, (i ≤ k < i')%nat → matrix !! k = Some r → is_header r = false)
  ∧ ∃ new, rows_out' = rows_out ++ new
      ∧ Forall (λ d, ∃ j r, (i ≤ j < i')%nat ∧ matrix !! j = Some r
                  ∧ is_blank_row r = false
                  ∧ materializes max_cols fonte_nome sheet_name mapping title bloco_n r d) new.
Proof.
  induction fuel as [| fuel IH]; intros i bs out i' out' H; [done |].
  rewrite inner_loop_unfold in H.
  assert (∀ i out, (i ≤ i)%nat
    ∧ (∀ k r, (i ≤ k < i)%nat → matrix !! k = Some r → is_header r = false)
    ∧ ∃ new, out = out ++ new
        ∧ Forall (λ d, ∃ j r, (i ≤ j < i)%nat ∧ matrix !! j = Some r
                    ∧ is_blank_row r = false
                    ∧ materializes max_cols fonte_nome sheet_name mapping title bloco_n r d)
             new) as Hstop.
  { intros j o. split_and!; [lia | intros; lia |].
    exists []. by rewrite app_nil_r. }
  destruct (i <? length matrix)%nat eqn:Hi; [| simplify_eq; apply Hstop].
  destruct (matrix !! i) as [r|] eqn:Hr; [| done].
  destruct (is_header r) eqn:Hh; [simplify_eq; apply Hstop |].
  assert (∀ k r', (i ≤ k < i')%nat →
            (∀ k r, (i + 1 ≤ k < i')%nat → matrix !! k = Some r → is_header r = false) →
            matrix !! k = Some r' → is_header r' = false) as Hext.
  { intros k r' Hk Hrest Hk'. destruct (decide (k = i)) as [-> | Hne].
    - congruence.
    - apply (Hrest k); [lia | done]. }
  destruct (is_blank_row r) eqn:Hb.
  - destruct (2 <=? bs + 1)%nat; [simplify_eq; apply Hstop |].
    apply IH in H as (Hle & Hnh & new & -> & Hnew).
    split_and!; [lia | by eauto |].
    exists new. split; [done |].
    eapply Forall_impl; [done |]. intros d (j & r' & ? & ?).
    exists j, r'. split; [lia | done].
  - destruct (data_row' mapping title bloco_n r out) as [out1|] eqn:Hd; [| done].
    apply IH in H as (Hle & Hnh & new & -> & Hnew).
    split_and!; [lia | by eauto |].
    apply data_row_inv in Hd as [-> | (d & -> & Hd)].
    + exists new. split; [done |].
      eapply Forall_impl; [done |]. intros d (j & r' & ? & ?).
      exists j, r'. split; [lia | done].
    + exists (d :: new). split; [by rewrite <- app_assoc |].
      apply Forall_cons. split.
      * exists i, r. apply Nat.ltb_lt in Hi. split; [lia | done].
      * eapply Forall_impl; [done |]. intros d' (j & r' & ? & ?).
        exists j, r'. split; [lia | done].
Qed.

(** With fuel above the number of rows left, the inner loop ends. *)
Lemma inner_loop_ends fuel mapping title bloco_n :
  ∀ i blank_streak rows_out,
  (length matrix - i < fuel)%nat →
  is_Some (inner_loop' fuel mapping title bloco_n i blank_streak rows_out).
Proof.
  induction fuel as [| fuel IH]; intros i bs out Hf; [lia |].
  rewrite inner_loop_unfold.
  destruct (i <? length matrix)%nat eqn:Hi; [| by eexists].
  apply Nat.ltb_lt in Hi.
  destruct (matrix !! i) as [r|]; [| by eexists].
  destruct (is_header r); [by eexists |].
  destruct (is_blank_row r).
  - destruct (2 <=? bs + 1)%nat; [by eexists |]. apply IH. lia.
  - destruct (data_row' _ _ _ _ _); [| by eexists]. apply IH. lia.
Qed.

(** More fuel does not change the result of a loop that ended. *)
Lemma inner_loop_more_fuel fuel mapping title bloco_n :
  ∀ i blank_streak rows_out result fuel',
  inner_loop' fuel mapping title bloco_n i blank_streak rows_out = Some result →
  (fuel ≤ fuel')%nat →
  inner_loop' fuel' mapping title bloco_n i blank_streak rows_out = Some result.
Proof.
  induction fuel as [| fuel IH]; intros i bs out result fuel' H Hle; [done |].
  destruct fuel' as [| fuel']; [lia |].
  rewrite inner_loop_unfold in *.
  destruct (i <? length matrix)%nat; [| done].
  destruct (matrix !! i) as [r|]; [| done].
  destruct (is_header r); [done |].
  destruct (is_blank_row r).
  - destruct (2 <=? bs + 1)%nat; [done |]. eapply IH; [done | lia].
  - destruct (data_row' _ _ _ _ _); [| done]. eapply IH; [done | lia].
Qed.

(** *** Header rows above a row *)

Lemma count_headers_app l1 l2 :
  count_headers (l1 ++ l2) = (count_headers l1 + count_headers l2)%nat.
Proof. unfold count_headers. by rewrite filter_app, length_app. Qed.

Lemma count_headers_take_S (i : nat) :
  count_headers (take (S i) matrix)
  = (count_headers (take i matrix)
     + match matrix !! i with
       | Some r => if is_header r then 1 else 0
       | None => 0
       end)%nat.
Proof.
  destruct (matrix !! i) as [r|] eqn:Hr.
  - rewrite (take_S_r _ _ r) by done. rewrite count_headers_app. f_equal.
    unfold count_headers. rewrite filter_cons.
    destruct (decide _) as [Ht | Hf]; destruct (is_header r); simpl in *;
      done || tauto.
  - apply lookup_ge_None in Hr. rewrite !take_ge by lia. lia.
Qed.

Lemma count_headers_mono (i i' : nat) :
  (i ≤ i')%nat →
  (count_headers (take i matrix) ≤ count_headers (take i' matrix))%nat.
Proof.
  induction 1 as [| i' _ IH]; [done |]. rewrite count_headers_take_S. lia.
Qed.

Lemma count_headers_no_header (i i' : nat) :
  (i ≤ i')%nat →
  (∀ k r, (i ≤ k < i')%nat → matrix !! k = Some r → is_header r = false) →
  count_headers (take i' matrix) = count_headers (take i matrix).
Proof.
  induction 1 as [| i' Hle IH]; intros Hnh; [done |].
  rewrite count_headers_take_S, IH
    by (intros k r Hk Hkr; apply (Hnh k r); [lia | done]).
  destruct (matrix !! i') as [r|] eqn:Hr; [| lia].
  rewrite (Hnh i' r) by (done || lia). lia.
Qed.


(** *** The outer loop *)

Lemma outer_body_header fuel (i bloco_n : nat) rows_out row mapping :
  matrix !! i = Some row → looks_header_row row = Some mapping →
  outer_body' fuel (i, bloco_n, rows_out)
  = match inner_loop' fuel mapping (block_title matrix fallback_title i)
            (bloco_n + 1) (i + 1) 0 rows_out with
    | None => None
    | Some (Raise e) => Some (Raise e)
    | Some (Ok p) => Some (Ok (p.1, (bloco_n + 1)%nat, p.2))
    end.
Proof.
  intros Hr Hl. unfold outer_body, getitem, now, run_bind.
  rewrite Hr, Hl.
  rewrite bool_decide_eq_true_2 by (by eapply looks_header_row_nonempty).
  rewrite find_title_near_window. done.
Qed.

Lemma outer_body_skip fuel (i bloco_n : nat) rows_out row :
  matrix !! i = Some row → is_header row = false →
  outer_body' fuel (i, bloco_n, rows_out) = Some (Ok ((i + 1)%nat, bloco_n, rows_out)).
Proof.
  intros Hr Hh. unfold outer_body, getitem, now, run_bind.
  rewrite Hr. unfold is_header in Hh.
  destruct (looks_header_row row); [| done]. by rewrite Hh.
Qed.

Lemma outer_loop_unfold fuel (st : scan_state) :
  outer_loop' (S fuel) st
  = if (st.1.1 <? length matrix)%nat then
      match outer_body' fuel st with
      | None => None
      | Some (Raise e) => Some (Raise e)
      | Some (Ok st') => outer_loop' fuel st'
      end
    else Some (Ok st).
Proof. reflexivity. Qed.

(** Every turn of the outer loop moves the row index forward. *)
Lemma outer_body_progress fuel (i bloco_n : nat) rows_out i' bloco_n' rows_out' :
  outer_body' fuel (i, bloco_n, rows_out) = Some (Ok (i', bloco_n', rows_out')) →
  (i < i')%nat.
Proof.
  intros H.
  destruct (matrix !! i) as [row|] eqn:Hr.
  2:{ unfold outer_body, getitem, now, run_bind in H. by rewrite Hr in H. }
  destruct (is_header row) eqn:Hh.
  - apply is_header_true in Hh as [mapping Hl].
    rewrite (outer_body_header _ _ _ _ _ _ Hr Hl) in H.
    destruct (inner_loop' _ _ _ _ _ _ _) as [[[i1 out1]|]|] eqn:Hin; [| done | done].
    apply inner_loop_spec in Hin as [Hle _]. simplify_eq/=. lia.
  - rewrite (outer_body_skip _ _ _ _ _ Hr Hh) in H. simplify_eq. lia.
Qed.

Lemma emitted_after_weaken lo lo' d :
  (lo ≤ lo')%nat →
  emitted_after matrix max_cols fonte_nome sheet_name fallback_title lo' d →
  emitted_after matrix max_cols fonte_nome sheet_name fallback_title lo d.
Proof.
  intros Hle (h & j & hr & mapping & r & Hhj & H).
  exists h, j, hr, mapping, r. split; [lia | done].
Qed.

Lemma block_sorted_same (n : nat) (l : list DetailRow) :
  Forall (λ d, BLOCO_TABELA d = n) l →
  StronglySorted (λ d1 d2, (BLOCO_TABELA d1 ≤ BLOCO_TABELA d2)%nat) l.
Proof.
  induction 1 as [| d l Hd Hl IH]; constructor; [done |].
  eapply Forall_impl; [done |]. simpl. lia.
Qed.

Lemma outer_loop_spec fuel :
  ∀ (i bloco_n : nat) rows_out i' bloco_n' rows_out',
  outer_loop' fuel (i, bloco_n, rows_out) = Some (Ok (i', bloco_n', rows_out')) →
  bloco_n = count_headers (take i matrix) →
  (i ≤ i')%nat ∧ (length matrix ≤ i')%nat
  ∧ bloco_n' = count_headers (take i' matrix)
  ∧ ∃ new, rows_out' = rows_out ++ new
      ∧ Forall (emitted_after matrix max_cols fonte_nome sheet_name fallback_title i) new
      ∧ Forall (λ d, (bloco_n < BLOCO_TABELA d ≤ bloco_n')%nat) new
      ∧ StronglySorted (λ d1 d2, (BLOCO_TABELA d1 ≤ BLOCO_TABELA d2)%nat) new.
Proof.
  induction fuel as [| fuel IH]; intros i b out i' b' out' H Hb; [done |].
  rewrite outer_loop_unfold in H. cbn [fst snd] in H.
  destruct (i <? length matrix)%nat eqn:Hi.
  2:{ apply Nat.ltb_ge in Hi. simplify_eq. split_and!; [lia | lia | done |].
      exists []. rewrite app_nil_r. split_and!; try done. constructor. }
  apply Nat.ltb_lt in Hi.
  destruct (lookup_lt_is_Some_2 matrix i Hi) as [row Hr].
  destruct (is_header row) eqn:Hh.
  - pose proof Hh as Hh'. apply is_header_true in Hh' as [mapping Hl].
    rewrite (outer_body_header _ _ _ _ _ _ Hr Hl) in H.
    destruct (inner_loop' _ _ _ _ _ _ _) as [[[i1 out1]|]|] eqn:Hin; [| done | done].
    simpl in H.
    apply inner_loop_spec in Hin as (Hle1 & Hnh1 & new1 & -> & Hnew1).
    assert (count_headers (take (i + 1) matrix) = (b + 1)%nat) as Hc1.
    { rewrite Nat.add_1_r, count_headers_take_S, Hr, Hh. lia. }
    apply IH in H as (Hle2 & Hlen & -> & new2 & -> & Hnew2 & Hb2 & Hs2).
    2:{ rewrite (count_headers_no_header (i + 1) i1) by done. done. }
    split_and!; [lia | done | done |].
    exists (new1 ++ new2). rewrite app_assoc. split; [done |].
    assert (Forall (λ d, BLOCO_TABELA d = (b + 1)%nat) new1) as Hbn1.
    { eapply Forall_impl; [exact Hnew1 |]. intros d (j & r & _ & _ & _ & Hm).
      apply materializes_fields in Hm. tauto. }
    pose proof (count_headers_mono (i + 1) i' ltac:(lia)) as Hmono.
    split_and!.
    + apply Forall_app. split.
      * eapply Forall_impl; [exact Hnew1 |]. intros d (j & r & Hj & Hjr & Hbl & Hm).
        exists i, j, row, mapping, r. split_and!; try done; try lia.
        -- intros k r' Hk. apply Hnh1. lia.
        -- subst b. by rewrite Nat.add_1_r in Hm.
      * eapply Forall_impl; [exact Hnew2 |]. intros d. apply emitted_after_weaken. lia.
    + apply Forall_app. split.
      * eapply Forall_impl; [exact Hbn1 |]. simpl. intros d ->. lia.
      * eapply Forall_impl; [exact Hb2 |]. simpl. lia.
    + apply StronglySorted_app_2; [| by eapply block_sorted_same | done].
      intros d1 d2 Hd1 Hd2.
      rewrite Forall_forall in Hbn1, Hb2.
      rewrite (Hbn1 d1 Hd1). specialize (Hb2 d2 Hd2). simpl in Hb2. lia.
  - rewrite (outer_body_skip _ _ _ _ _ Hr Hh) in H.
    apply IH in H as (Hle2 & Hlen & -> & new2 & -> & Hnew2 & Hb2 & Hs2).
    2:{ rewrite Nat.add_1_r, count_headers_take_S, Hr, Hh. lia. }
    split_and!; [lia | done | done |].
    exists new2. split_and!; try done.
    eapply Forall_impl; [exact Hnew2 |]. intros d. apply emitted_after_weaken. lia.
Qed.

(** With fuel above the number of rows left, the outer loop ends. *)
Lemma outer_loop_ends fuel :
  ∀ (i bloco_n : nat) rows_out,
  (length matrix - i < fuel)%nat →
  is_Some (outer_loop' fuel (i, bloco_n, rows_out)).
Proof.
  induction fuel as [| fuel IH]; intros i b out Hf; [lia |].
  rewrite outer_loop_unfold. cbn [fst snd].
  destruct (i <? length matrix)%nat eqn:Hi; [| by eexists].
  apply Nat.ltb_lt in Hi.
  destruct (outer_body' fuel (i, b, out)) as [[[[i1 b1] out1]|]|] eqn:Hbody.
  - apply outer_body_progress in Hbody. apply IH. lia.
  - by eexists.
  - exfalso.
    destruct (lookup_lt_is_Some_2 matrix i Hi) as [row Hr].
    destruct (is_header row) eqn:Hh.
    + apply is_header_true in Hh as [mapping Hl].
      rewrite (outer_body_header _ _ _ _ _ _ Hr Hl) in Hbody.
      destruct (inner_loop_ends fuel mapping (block_title matrix fallback_title i)
                  (b + 1) (i + 1) 0 out)
        as [res Hres]; [lia |].
      rewrite Hres in Hbody. by destruct res.
    + by rewrite (outer_body_skip _ _ _ _ _ Hr Hh) in Hbody.
Qed.

Lemma outer_body_more_fuel fuel fuel' (st : scan_state) result :
  outer_body' fuel st = Some result → (fuel ≤ fuel')%nat →
  outer_body' fuel' st = Some result.
Proof.
  destruct st as [[i b] out]. intros H Hle.
  destruct (matrix !! i) as [row|] eqn:Hr.
  2:{ unfold outer_body, getitem, now, run_bind in *. by rewrite Hr in *. }
  destruct (is_header row) eqn:Hh.
  - apply is_header_true in Hh as [mapping Hl].
    rewrite (outer_body_header fuel i b out row mapping Hr Hl) in H.
    rewrite (outer_body_header fuel' i b out row mapping Hr Hl).
    destruct (inner_loop' fuel _ _ _ _ _ _) as [r|] eqn:Hin; [| done].
    by rewrite (inner_loop_more_fuel _ _ _ _ _ _ _ _ _ Hin Hle).
  - rewrite (outer_body_skip fuel i b out row Hr Hh) in H.
    by rewrite (outer_body_skip fuel' i b out row Hr Hh).
Qed.

Lemma outer_loop_more_fuel fuel :
  ∀ (st : scan_state) result fuel',
  outer_loop' fuel st = Some result → (fuel ≤ fuel')%nat →
  outer_loop' fuel' st = Some result.
Proof.
  induction fuel as [| fuel IH]; intros st result fuel' H Hle; [done |].
  destruct fuel' as [| fuel']; [lia |].
  rewrite outer_loop_unfold in *.
  destruct (st.1.1 <? length matrix)%nat; [| done].
  destruct (outer_body' fuel st) as [r|] eqn:Hbody; [| done].
  rewrite (outer_body_more_fuel _ fuel' _ _ Hbody) by lia.
  destruct r as [st'|e]; [| done]. eapply IH; [done | lia].
Qed.

(** *** Sheets that are rectangular *)

Lemma cell_at_ok r mapping h :
  length r = max_cols → is_Some (mapping !! h) →
  ∃ v, cell_at max_cols r mapping h = Ok v.
Proof.
  intros Hlen [j Hj]. unfold cell_at, getkey, getitem, mbind, res_bind.
  rewrite Hj.
  destruct (j <? max_cols)%nat eqn:Hlt; [| by eexists].
  apply Nat.ltb_lt in Hlt.
  destruct (lookup_lt_is_Some_2 r j) as [v Hv]; [lia |]. rewrite Hv. by eexists.
Qed.

Lemma data_row_ok mapping title bloco_n r rows_out :
  length r = max_cols →
  (∀ h, h ∈ CANON_HEADERS → is_Some (mapping !! h)) →
  ∃ rows_out', data_row' mapping title bloco_n r rows_out = Ok rows_out'.
Proof.
  intros Hlen Hm. unfold data_row.
  assert (∀ h, h ∈ CANON_HEADERS → ∃ v, cell_at max_cols r mapping h = Ok v) as Hc
    by (intros; apply cell_at_ok; auto).
  destruct (Hc H_DESCRICAO) as [desc ->]; [apply list_elem_of_In; simpl; tauto |]. cbn [mbind res_bind].
  destruct (truthy _); [| by eexists].
  destruct (Hc H_ITEM) as [v0 ->]; [apply list_elem_of_In; simpl; tauto |]. cbn [mbind res_bind].
  destruct (Hc H_COD_BK) as [v1 ->]; [apply list_elem_of_In; simpl; tauto |]. cbn [mbind res_bind].
  destruct (Hc H_COD_CLIENTE) as [v2 ->]; [apply list_elem_of_In; simpl; tauto |]. cbn [mbind res_bind].
  destruct (Hc H_QUANT) as [v3 ->]; [apply list_elem_of_In; simpl; tauto |]. cbn [mbind res_bind].
  destruct (Hc H_UN) as [v4 ->]; [apply list_elem_of_In; simpl; tauto |]. cbn [mbind res_bind].
  by eexists.
Qed.

Lemma inner_loop_no_raise fuel mapping title bloco_n :
  Forall (λ r, length r = max_cols) matrix →
  (∀ h, h ∈ CANON_HEADERS → is_Some (mapping !! h)) →
  ∀ i blank_streak rows_out e,
  inner_loop' fuel mapping title bloco_n i blank_streak rows_out ≠ Some (Raise e).
Proof.
  intros Hrect Hm.
  induction fuel as [| fuel IH]; intros i bs out e; [done |].
  rewrite inner_loop_unfold.
  destruct (i <? length matrix)%nat eqn:Hi; [| done].
  apply Nat.ltb_lt in Hi.
  destruct (lookup_lt_is_Some_2 matrix i Hi) as [r Hr]. rewrite Hr.
  destruct (is_header r); [done |].
  destruct (is_blank_row r).
  - destruct (2 <=? bs + 1)%nat; [done | apply IH].
  - destruct (data_row_ok mapping title bloco_n r out) as [out1 ->]; [| done | apply IH].
    rewrite Forall_forall in Hrect. apply Hrect. by eapply list_elem_of_lookup_2.
Qed.

Lemma outer_loop_no_raise fuel :
  Forall (λ r, length r = max_cols) matrix →
  ∀ (i bloco_n : nat) rows_out e,
  outer_loop' fuel (i, bloco_n, rows_out) ≠ Some (Raise e).
Proof.
  intros Hrect.
  induction fuel as [| fuel IH]; intros i b out e; [done |].
  rewrite outer_loop_unfold. cbn [fst snd].
  destruct (i <? length matrix)%nat eqn:Hi; [| done].
  apply Nat.ltb_lt in Hi.
  destruct (lookup_lt_is_Some_2 matrix i Hi) as [row Hr].
  destruct (is_header row) eqn:Hh.
  - apply is_header_true in Hh as [mapping Hl].
    rewrite (outer_body_header _ _ _ _ _ _ Hr Hl).
    destruct (inner_loop' _ _ _ _ _ _ _) as [[[i1 out1]|e']|] eqn:Hin; [apply IH | | done].
    exfalso. eapply inner_loop_no_raise; [done | | exact Hin].
    intros h Hh. destruct (looks_header_row_total row mapping h Hl Hh) as (j & -> & _).
    by eexists.
  - rewrite (outer_body_skip _ _ _ _ _ Hr Hh). destruct fuel; [done | apply IH].
Qed.

End ParserProps.

(** ** Consolidator *)

Section Summary.
Context {U : Unicode}.

Lemma truthy_false (s : str) : truthy s = false ↔ s = [].
Proof. by destruct s. Qed.

Lemma truthy_true (s : str) : truthy s = true ↔ s ≠ [].
Proof. by destruct s. Qed.

Lemma first_seen_elem k ks : k ∈ first_seen ks ↔ k ∈ ks.
Proof.
  induction ks as [| k0 ks IH]; [done |]. simpl.
  rewrite !elem_of_cons, list_elem_of_filter, IH.
  destruct (decide (k = k0)); naive_solver.
Qed.

Lemma first_seen_NoDup ks : NoDup (first_seen ks).
Proof.
  induction ks as [| k0 ks IH]; [constructor |]. simpl.
  apply NoDup_cons. split; [| by apply NoDup_filter].
  rewrite list_elem_of_filter. naive_solver.
Qed.

Lemma first_seen_snoc ks k :
  first_seen (ks ++ [k])
  = if decide (k ∈ ks) then first_seen ks else first_seen ks ++ [k].
Proof.
  induction ks as [| k0 ks IH]; [done |]. simpl. rewrite IH.
  destruct (decide (k ∈ ks)) as [Hin | Hnin].
  - rewrite decide_True by (by right). done.
  - destruct (decide (k = k0)) as [-> | Hne].
    + rewrite decide_True by (by left).
      rewrite filter_app, filter_cons_False by naive_solver.
      by rewrite filter_nil, app_nil_r.
    + rewrite decide_False by (rewrite elem_of_cons; naive_solver).
      rewrite filter_app, filter_cons_True by done.
      by rewrite filter_nil.
Qed.

Lemma keys_of_snoc rows d :
  keys_of (rows ++ [d])
  = keys_of rows ++ (if decide (key_of d = []) then [] else [key_of d]).
Proof.
  unfold keys_of. rewrite fmap_app, filter_app. f_equal.
  change (key_of <$> [d]) with [key_of d].
  destruct (decide (key_of d = [])) as [He | Hne].
  - by rewrite filter_cons_False by naive_solver.
  - by rewrite filter_cons_True by done.
Qed.

Lemma keys_of_elem k rows :
  k ∈ keys_of rows ↔ k ≠ [] ∧ keyed k rows ≠ [].
Proof.
  unfold keys_of, keyed. rewrite list_elem_of_filter, list_elem_of_fmap.
  split.
  - intros (Hk & d & -> & Hd). split; [done |].
    intros Hnil. assert (d ∈ filter (λ d', key_of d' = key_of d) rows) as Hin
      by (by apply list_elem_of_filter).
    rewrite Hnil in Hin. by apply elem_of_nil in Hin.
  - intros (Hk & Hne). split; [done |].
    destruct (filter _ rows) as [| d l] eqn:Hf; [done |].
    assert (d ∈ filter (λ d', key_of d' = k) rows) as Hin by (rewrite Hf; left).
    apply list_elem_of_filter in Hin as [<- Hin]. eauto.
Qed.

Lemma keyed_snoc k rows d :
  keyed k (rows ++ [d])
  = keyed k rows ++ (if decide (key_of d = k) then [d] else []).
Proof.
  unfold keyed. by rewrite filter_app.
Qed.

Lemma quantity_sum_snoc rows d :
  quantity_sum (rows ++ [d])
  = float_add (quantity_sum rows) (to_float_br (PyStr (QUANT d))).
Proof. unfold quantity_sum. by rewrite fold_left_app. Qed.

Lemma provenance_snoc rows d :
  provenance (rows ++ [d]) = provenance rows ∪ {[ fonte_of d ]}.
Proof.
  unfold provenance. rewrite fmap_app.
  change (fonte_of <$> [d]) with [fonte_of d]. by rewrite list_to_set_snoc_L.
Qed.

Lemma titles_snoc rows d :
  titles (rows ++ [d])
  = if truthy (strip (DESENHO d)) then titles rows ∪ {[ strip (DESENHO d) ]}
    else titles rows.
Proof.
  unfold titles. rewrite fmap_app, filter_app.
  change ((λ d0, strip (DESENHO d0)) <$> [d]) with [strip (DESENHO d)].
  destruct (strip (DESENHO d)) as [| c t] eqn:Hs; cbn [truthy].
  - rewrite filter_cons_False by naive_solver. by rewrite filter_nil, app_nil_r.
  - rewrite filter_cons_True by done. by rewrite filter_nil, list_to_set_snoc_L.
Qed.

Lemma consolidate_rows_snoc rows d st :
  consolidate_rows (rows ++ [d]) st
  = consolidate_rows rows st ≫= λ st', consolidate_row st' d.
Proof.
  revert st. induction rows as [| d0 rows IH]; intros st; simpl.
  - by destruct (consolidate_row st d).
  - destruct (consolidate_row st d0) as [st1|]; [| done]. cbn. apply IH.
Qed.

Lemma consolidate_row_spec rows d st :
  consolidated rows st →
  ∃ st', consolidate_row st d = Ok st' ∧ consolidated (rows ++ [d]) st'.
Proof.
  destruct st as [agg order]. intros [Ho Ha]. simpl in Ho, Ha.
  unfold consolidate_row. fold (key_of d).
  destruct (truthy (key_of d)) eqn:Ht; cbn [negb].
  2:{ apply truthy_false in Ht. eexists. split; [done |]. split; simpl.
      - by rewrite keys_of_snoc, decide_True, app_nil_r.
      - intros k. rewrite Ha, keyed_snoc. destruct (decide (k = [])); [done |].
        rewrite decide_False by congruence. by rewrite app_nil_r. }
  apply truthy_true in Ht.
  assert (is_Some (agg !! key_of d) ↔ key_of d ∈ keys_of rows) as Hin.
  { rewrite Ha, decide_False by done. rewrite keys_of_elem.
    unfold summary. destruct (keyed (key_of d) rows); split.
    - by intros [? ?].
    - naive_solver.
    - done.
    - by eexists. }
  destruct (agg !! key_of d) as [a|] eqn:Hlook.
  - (* the key is known *)
    rewrite bool_decide_eq_true_2 by eauto.
    unfold getkey, mbind, res_bind. rewrite Hlook.
    eexists. split; [done |]. split; cbn [fst snd].
    + rewrite keys_of_snoc, decide_False, first_seen_snoc by done.
      rewrite decide_True; [done |]. apply Hin. eauto.
    + intros k. rewrite keyed_snoc.
      destruct (decide (key_of d = k)) as [<- | Hne].
      * rewrite lookup_insert_eq, decide_False by done.
        pose proof (Ha (key_of d)) as Hk.
        rewrite Hlook, decide_False in Hk by done.
        unfold summary in *.
        destruct (keyed (key_of d) rows) as [| d0 l] eqn:Hkd; [done |].
        simplify_eq/=. f_equal.
        rewrite !app_comm_cons, quantity_sum_snoc, provenance_snoc, titles_snoc.
        done.
      * rewrite lookup_insert_ne, app_nil_r by done. apply Ha.
  - (* a new key *)
    rewrite bool_decide_eq_false_2 by (intros [? ?]; congruence).
    unfold getkey, mbind, res_bind. rewrite lookup_insert_eq.
    eexists. split; [done |]. split; cbn [fst snd].
    + rewrite keys_of_snoc, decide_False, first_seen_snoc by done.
      rewrite decide_False; [by rewrite Ho |].
      intros Hk. apply Hin in Hk as [? ?]. congruence.
    + intros k. rewrite keyed_snoc.
      destruct (decide (key_of d = k)) as [<- | Hne].
      * rewrite lookup_insert_eq, decide_False by done.
        assert (keyed (key_of d) rows = []) as ->.
        { destruct (keyed (key_of d) rows) eqn:Hkd; [done |].
          assert (key_of d ∈ keys_of rows) as Hk
            by (apply keys_of_elem; split; [done | by rewrite Hkd]).
          apply Hin in Hk as [? ?]. congruence. }
        simpl. f_equal.
        change [d] with ([] ++ [d]).
        rewrite quantity_sum_snoc, provenance_snoc, titles_snoc. done.
      * rewrite !lookup_insert_ne, app_nil_r by done. apply Ha.
Qed.

Lemma consolidate_rows_spec rows :
  ∃ st, consolidate_rows rows (∅, []) = Ok st ∧ consolidated rows st.
Proof.
  induction rows as [| d rows IH] using rev_ind.
  - exists (∅, []). split; [done |]. split; [done |].
    intros k. simpl. rewrite lookup_empty. by destruct (decide (k = [])).
  - destruct IH as (st & Hst & Hc).
    destruct (consolidate_row_spec rows d st Hc) as (st' & Hst' & Hc').
    exists st'. split; [| done].
    rewrite consolidate_rows_snoc, Hst. done.
Qed.

(** What [consolidate] returns: one record for each key, in first-seen
    order, computed from the rows of the key in input order. *)
Lemma consolidate_spec rows :
  ∃ out, consolidate rows = Ok out
    ∧ Forall2 (λ k c, ∃ a, summary (keyed k rows) = Some a ∧ c = cons_row k a)
        (first_seen (keys_of rows)) out.
Proof.
  destruct (consolidate_rows_spec rows) as ([agg order] & Hst & Ho & Ha).
  simpl in Ho, Ha.
  assert (∀ l, Forall (λ k, k ∈ keys_of rows) l →
    ∃ out, mapM (output_row agg) l = Ok out
      ∧ Forall2 (λ k c, ∃ a, summary (keyed k rows) = Some a ∧ c = cons_row k a) l out)
    as Hmap.
  { induction 1 as [| k l Hk Hl (out & Hout & Hf)].
    - exists []. split; [done | constructor].
    - apply keys_of_elem in Hk as [Hk Hne].
      pose proof (Ha k) as Hak. rewrite decide_False in Hak by done.
      destruct (summary (keyed k rows)) as [a|] eqn:Hs.
      2:{ unfold summary in Hs. by destruct (keyed k rows). }
      exists (cons_row k a :: out). split.
      + cbn [mapM]. rewrite Hout. unfold output_row, getkey. rewrite Hak. done.
      + constructor; [eauto | done]. }
  destruct (Hmap (first_seen (keys_of rows))) as (out & Hout & Hf).
  { apply Forall_forall. intros k. by rewrite first_seen_elem. }
  exists out. split; [| done].
  unfold consolidate. destruct rows as [| d rows].
  - simpl in *. by simplify_eq.
  - rewrite Hst. cbn. by rewrite Ho.
Qed.

End Summary.

(** ** Locale numbers *)

#[local] Open Scope Z_scope.

Lemma digits2_pos_size p : digits2_pos p = Pos.size p.
Proof. induction p; simpl; by rewrite ?IHp. Qed.

Lemma digits2_pos_bound p : Zpos p < 2 ^ 53 → Zpos (digits2_pos p) ≤ 53.
Proof.
  intros Hp. rewrite digits2_pos_size.
  pose proof (Pos.size_le p) as Hle.
  destruct (Z.le_gt_cases (Zpos (Pos.size p)) 53) as [| Hgt]; [done |].
  exfalso.
  assert (2 ^ 54 ≤ 2 ^ Zpos (Pos.size p)) by (apply Z.pow_le_mono_r; lia).
  assert (Zpos (2 ^ Pos.size p) ≤ Zpos p~0) as Hz by (apply Pos2Z.pos_le_pos, Hle).
  rewrite Pos2Z.inj_pow in Hz. lia.
Qed.

Lemma shiftl_pos p k : Z.shiftl (Zpos p) (Zpos k) = Zpos (Pos.iter xO p k).
Proof.
  unfold Z.shiftl. symmetry.
  apply (Pos.iter_swap_gen _ _ Zpos xO (Z.mul 2)). done.
Qed.

Lemma digits2_pos_iter p k :
  Zpos (digits2_pos (Pos.iter xO p k)) = Zpos (digits2_pos p) + Zpos k.
Proof.
  induction k as [| k IH] using Pos.peano_ind.
  - simpl. lia.
  - rewrite Pos.iter_succ. simpl. lia.
Qed.

Lemma iter_xO_value p k : Zpos (Pos.iter xO p k) = Zpos p * 2 ^ Zpos k.
Proof. rewrite <- shiftl_pos. apply Z.shiftl_mul_pow2. lia. Qed.

Lemma iter_xO_even p k :
  ∃ q, Pos.iter xO p k = xO q
       ∧ Zpos (digits2_pos q) = Zpos (digits2_pos p) + Zpos k - 1
       ∧ Zpos q = Zpos p * 2 ^ (Zpos k - 1).
Proof.
  destruct k as [| k'] using Pos.peano_case.
  - exists p. simpl. split_and!; [done | lia | lia].
  - rewrite Pos.iter_succ. exists (Pos.iter xO p k'). split_and!; [done | |].
    + rewrite digits2_pos_iter. lia.
    + rewrite iter_xO_value. f_equal. f_equal. lia.
Qed.

Lemma div_eucl_1 a : Z.div_eucl a 1 = (a, 0).
Proof.
  pose proof (Z.div_1_r a) as Hd. pose proof (Z.mod_1_r a) as Hm.
  unfold Z.div, Z.modulo in *. destruct (Z.div_eucl a 1). simpl in *. congruence.
Qed.

Lemma float_of_int_exact neg p :
  Zpos p < 2 ^ 53 →
  ∃ m e, float_of_ratio neg (Zpos p) 1 = S754_finite neg m e
         ∧ e ≤ 0 ∧ Zpos m = Zpos p * 2 ^ (- e).
Proof.
  intros Hp. pose proof (digits2_pos_bound p Hp) as Hd.
  set (d := digits2_pos p) in *.
  unfold float_of_ratio.
  rewrite Z.gcd_1_r, !Z.div_1_r.
  unfold SFdiv_core_binary. cbn [Zdigits2 digits2_pos]. fold d.
  unfold fexp, emin.
  replace (Z.min (Z.max (Z.pos d + 0 - (1 + 0) - 53) (3 - 1024 - 53)) (0 - 0))
    with (Zpos d - 54) by lia.
  destruct (0 - 0 - (Zpos d - 54)) as [| k | k] eqn:Hk; [lia | | lia].
  rewrite shiftl_pos, div_eucl_1.
  change (new_location 1 0) with loc_Exact.
  destruct (iter_xO_even p k) as (q & -> & Hdq & Hq).
  fold d in Hdq.
  unfold binary_round_aux, shr_fexp.
  cbn [Zdigits2 digits2_pos shr_record_of_loc].
  rewrite Pos2Z.inj_succ, Hdq. unfold fexp, emin.
  replace (Z.max (Z.succ (Z.pos d + Z.pos k - 1) + (Z.pos d - 54) - 53) (3 - 1024 - 53)
           - (Z.pos d - 54)) with 1 by lia.
  cbn [shr SpecFloat.iter_pos shr_1 shr_m loc_of_shr_record round_nearest_even
       shr_record_of_loc Zdigits2 orb].
  rewrite Hdq.
  replace (Z.max (Z.pos d + Z.pos k - 1 + (Z.pos d - 54 + 1) - 53) (3 - 1024 - 53)
           - (Z.pos d - 54 + 1)) with 0 by lia.
  cbn [shr shr_m].
  rewrite (proj2 (Z.leb_le _ _)) by lia.
  exists q, (Z.pos d - 54 + 1). split_and!; [done | lia |].
  rewrite Hq. f_equal. f_equal. lia.
Qed.

#[local] Close Scope Z_scope.

Lemma plain_char c :
  is_digit c || (c =? 45) || (c =? 46) = true →
  (c <? 127) = true ∧ isspace c = false ∧ is_ascii_space c = false
  ∧ (c =? 32) = false ∧ (c =? 44) = false ∧ (c =? 95) = false ∧ (c =? 0xa0) = false.
Proof.
  intros H.
  assert (45 ≤ c ≤ 57) as Hc.
  { unfold is_digit in H.
    destruct (N.leb_spec 48 c), (N.leb_spec c 57), (N.eqb_spec c 45),
      (N.eqb_spec c 46); simpl in H; try done; lia. }
  assert (c = 45 ∨ c = 46 ∨ c = 47 ∨ c = 48 ∨ c = 49 ∨ c = 50 ∨ c = 51 ∨ c = 52
          ∨ c = 53 ∨ c = 54 ∨ c = 55 ∨ c = 56 ∨ c = 57) as Hv by lia.
  repeat (destruct Hv as [-> | Hv]; [by vm_compute |]).
  subst c. by vm_compute.
Qed.

Lemma plain_Forall s :
  plain s = true →
  Forall (λ c, (c <? 127) = true ∧ isspace c = false ∧ is_ascii_space c = false
               ∧ (c =? 32) = false ∧ (c =? 44) = false ∧ (c =? 95) = false
               ∧ (c =? 0xa0) = false) s.
Proof.
  unfold plain. rewrite forallb_forall, Forall_forall.
  intros H c Hc. apply plain_char, H. by apply list_elem_of_In.
Qed.

Lemma plain_reverse s : plain (reverse s) = plain s.
Proof. apply forallb_reverse. Qed.

Lemma plain_normal s b : plain s = true → normal b s = true.
Proof.
  intros H. apply plain_Forall in H. revert b.
  induction H as [| c s (_ & Hc & _) _ IH]; intros b; [done |].
  simpl. rewrite Hc. apply IH.
Qed.

Lemma plain_lstrip s : plain s = true → lstrip s = s.
Proof.
  intros H. apply plain_Forall in H.
  destruct H as [| c s (_ & Hc & _) _]; [done |]. simpl. by rewrite Hc.
Qed.

Lemma plain_strip s : plain s = true → strip s = s.
Proof.
  intros H. unfold strip, rstrip. rewrite (plain_lstrip s H).
  rewrite plain_lstrip by (by rewrite plain_reverse).
  apply reverse_involutive.
Qed.

Lemma plain_norm_cell s : plain s = true → norm_cell (PyStr s) = s.
Proof.
  intros H.
  change (norm_cell (PyStr s))
    with (sub_spaces false (strip (replace 0xa0 (lit " ") s))).
  rewrite (normal_replace false) by (by apply plain_normal).
  rewrite plain_strip by done. apply normal_sub_spaces. by apply plain_normal.
Qed.

Lemma plain_number_text s : plain s = true → number_text s = s.
Proof.
  intros H. apply plain_Forall in H. unfold number_text.
  assert (replace 32 [] s = s) as ->.
  { induction H as [| c s (_ & _ & _ & Hc & _) _ IH]; [done |].
    rewrite replace_cons, Hc, IH. done. }
  change (lit ",") with [44].
  assert (contains [44] s = false) as ->; [| done].
  induction H as [| c s (_ & _ & _ & _ & Hc & _) _ IH]; [done |].
  cbn [contains startswith]. rewrite IH, N.eqb_sym, Hc. done.
Qed.

Lemma plain_lstrip_ascii s : plain s = true → lstrip_ascii s = s.
Proof.
  intros H. apply plain_Forall in H.
  destruct H as [| c s (_ & _ & Hc & _) _]; [done |]. simpl. by rewrite Hc.
Qed.

Lemma plain_transform td s :
  plain s = true → transform_decimal_and_space td s = s.
Proof.
  intros H. apply plain_Forall in H.
  induction H as [| c s (Hc & _) _ IH]; [done |].
  cbn [transform_decimal_and_space]. by rewrite Hc, IH.
Qed.

Lemma plain_py_float td s : plain s = true → py_float td s = string_to_double s.
Proof.
  intros H. unfold py_float. rewrite plain_transform by done.
  rewrite bool_decide_eq_false_2.
  2:{ intros Hin. pose proof (plain_Forall s H) as HF.
      rewrite Forall_forall in HF. destruct (HF _ Hin) as (_ & _ & _ & _ & _ & Hc & _).
      discriminate Hc. }
  cbn [mbind option_bind].
  rewrite (plain_lstrip_ascii s) by done.
  rewrite plain_lstrip_ascii by (by rewrite plain_reverse).
  by rewrite reverse_involutive.
Qed.

(** The text of a number that is plain goes to [float] as it is. *)
Lemma to_float_br_plain `{U : Unicode} s :
  plain s = true → s ≠ [] →
  to_float_br (PyStr s) = default float_zero (string_to_double s).
Proof.
  intros H Hne. unfold to_float_br. rewrite plain_norm_cell by done.
  destruct s; [done |]. cbn [truthy negb].
  rewrite plain_number_text, plain_py_float by done.
  by destruct (string_to_double _).
Qed.

#[local] Open Scope Z_scope.

Lemma digits_value_acc u acc :
  fold_left digit_step (str_of_uint u) (Zpos acc) = Zpos (Pos.of_uint_acc u acc).
Proof.
  revert acc. induction u as [| u IH | u IH | u IH | u IH | u IH | u IH | u IH
                                | u IH | u IH | u IH]; intros acc;
    [done | ..]; cbn [str_of_uint fold_left Pos.of_uint_acc];
    rewrite <- IH; f_equal; unfold digit_step; lia.
Qed.

Lemma digits_value_uint u : digits_value (str_of_uint u) = Z.of_N (Pos.of_uint u).
Proof.
  unfold digits_value. fold digit_step.
  induction u as [| u IH | u IH | u IH | u IH | u IH | u IH | u IH
                    | u IH | u IH | u IH];
    [done | exact IH | ..]; cbn [str_of_uint fold_left Pos.of_uint N2Z.inj Z.of_N];
    rewrite <- digits_value_acc; f_equal.
Qed.

Lemma digits_value_pos p : digits_value (str_of_uint (Pos.to_uint p)) = Zpos p.
Proof. by rewrite digits_value_uint, DecimalPos.Unsigned.of_to. Qed.

Lemma str_of_uint_digits u : forallb is_digit (str_of_uint u) = true.
Proof. induction u; simpl; by rewrite ?IHu. Qed.

Lemma str_of_pos_nonempty p : str_of_uint (Pos.to_uint p) ≠ [].
Proof.
  intros H. pose proof (digits_value_pos p) as Hv. by rewrite H in Hv.
Qed.

Lemma digits_plain ds : forallb is_digit ds = true → plain ds = true.
Proof.
  unfold plain. rewrite !forallb_forall. intros H c Hc. by rewrite (H c Hc).
Qed.

Lemma span_digits_app ds rest :
  forallb is_digit ds = true →
  match rest with [] => True | c :: _ => is_digit c = false end →
  span_digits (ds ++ rest) = (ds, rest).
Proof.
  intros Hd Hr. induction ds as [| c ds IH]; simpl in *.
  - destruct rest as [| c rest]; [done |]. simpl. by rewrite Hr.
  - apply andb_true_iff in Hd as [Hc Hd]. by rewrite Hc, IH.
Qed.

Lemma digits_value_snoc ds c :
  digits_value (ds ++ [c]) = 10 * digits_value ds + (Z.of_N c - 48).
Proof. unfold digits_value. by rewrite fold_left_app. Qed.

Lemma parse_sign_digit c s : is_digit c = true → parse_sign (c :: s) = (false, c :: s).
Proof.
  intros Hc. unfold parse_sign, is_digit in *.
  destruct (N.eqb_spec c 45) as [-> | _]; [done |].
  destruct (N.eqb_spec c 43) as [-> | _]; done.
Qed.

Lemma span_digits_all ds : forallb is_digit ds = true → span_digits ds = (ds, []).
Proof.
  intros Hd. rewrite <- (app_nil_r ds) at 1. by apply span_digits_app.
Qed.

Lemma span_digits_point ds :
  forallb is_digit ds = true → span_digits (ds ++ lit ".0") = (ds, lit ".0").
Proof. intros Hd. by apply span_digits_app. Qed.

Lemma unsigned_digits neg ds whole :
  forallb is_digit ds = true → ds ≠ [] →
  (let '(ip, s2) := span_digits ds in
   let '(fp, s3) :=
     match s2 with
     | c :: t => if (c =? 46)%N then span_digits t else ([], s2)
     | [] => ([], s2)
     end in
   match ip ++ fp with
   | [] => parse_inf_or_nan whole
   | ds' =>
       let m := digits_value ds' in
       let nf := Z.of_nat (length fp) in
       match s3 with
       | [] => Some (float_of_decimal neg m (- nf))
       | c :: t =>
           if (c =? 101)%N || (c =? 69)%N then
             let '(eneg, t1) := parse_sign t in
             match span_digits t1 with
             | ((_ :: _) as ed, []) =>
                 let e := digits_value ed in
                 Some (float_of_decimal neg m ((if eneg then - e else e) - nf))
             | _ => None
             end
           else None
       end
   end) = Some (float_of_decimal neg (digits_value ds) 0).
Proof.
  intros Hd Hne. rewrite span_digits_all by done.
  rewrite app_nil_r. destruct ds; [done |]. done.
Qed.

Lemma unsigned_digits_point neg ds whole :
  forallb is_digit ds = true → ds ≠ [] →
  (let '(ip, s2) := span_digits (ds ++ lit ".0") in
   let '(fp, s3) :=
     match s2 with
     | c :: t => if (c =? 46)%N then span_digits t else ([], s2)
     | [] => ([], s2)
     end in
   match ip ++ fp with
   | [] => parse_inf_or_nan whole
   | ds' =>
       let m := digits_value ds' in
       let nf := Z.of_nat (length fp) in
       match s3 with
       | [] => Some (float_of_decimal neg m (- nf))
       | c :: t =>
           if (c =? 101)%N || (c =? 69)%N then
             let '(eneg, t1) := parse_sign t in
             match span_digits t1 with
             | ((_ :: _) as ed, []) =>
                 let e := digits_value ed in
                 Some (float_of_decimal neg m ((if eneg then - e else e) - nf))
             | _ => None
             end
           else None
       end
   end) = Some (float_of_decimal neg (10 * digits_value ds) (-1)).
Proof.
  intros Hd Hne. rewrite span_digits_point by done.
  change (lit ".0") with [46%N; 48%N]. cbn [N.eqb Pos.eqb span_digits is_digit N.leb].
  change (is_digit 48) with true. cbv iota beta.
  destruct ds as [| c ds']; [done |].
  cbn [app length Z.of_nat Pos.of_succ_nat Z.opp].
  change (c :: ds' ++ [48%N]) with ((c :: ds') ++ [48%N]).
  rewrite digits_value_snoc. do 2 f_equal. lia.
Qed.

(** The number written by digits, with or without [".0"] and a sign. *)
Lemma string_to_double_digits ds :
  forallb is_digit ds = true → ds ≠ [] →
  string_to_double ds = Some (float_of_decimal false (digits_value ds) 0)
  ∧ string_to_double (ds ++ lit ".0")
    = Some (float_of_decimal false (10 * digits_value ds) (-1))
  ∧ string_to_double (45%N :: ds) = Some (float_of_decimal true (digits_value ds) 0)
  ∧ string_to_double (45%N :: ds ++ lit ".0")
    = Some (float_of_decimal true (10 * digits_value ds) (-1)).
Proof.
  intros Hd Hne. split_and!.
  - unfold string_to_double. destruct ds as [| c ds'] eqn:Hds; [done |].
    rewrite parse_sign_digit by (simpl in Hd; by apply andb_true_iff in Hd as [? _]).
    rewrite <- Hds in *. by apply unsigned_digits.
  - unfold string_to_double. destruct ds as [| c ds'] eqn:Hds; [done |].
    change ((c :: ds') ++ lit ".0") with (c :: (ds' ++ lit ".0")).
    rewrite parse_sign_digit by (simpl in Hd; by apply andb_true_iff in Hd as [? _]).
    change (c :: (ds' ++ lit ".0")) with ((c :: ds') ++ lit ".0").
    rewrite <- Hds in *. by apply unsigned_digits_point.
  - unfold string_to_double. cbn [parse_sign N.eqb Pos.eqb].
    by apply unsigned_digits.
  - unfold string_to_double. cbn [parse_sign N.eqb Pos.eqb].
    by apply unsigned_digits_point.
Qed.


Lemma float_of_pos_exact neg p :
  Zpos p < 2 ^ 53 →
  ∃ m e, float_of_decimal neg (Zpos p) 0 = S754_finite neg m e
         ∧ e ≤ 0 ∧ Zpos m = Zpos p * 2 ^ (- e).
Proof.
  intros Hp. unfold float_of_decimal. cbn [Z.eqb Z.leb Z.compare].
  change (10 ^ 0) with 1. rewrite Z.mul_1_r. by apply float_of_int_exact.
Qed.

Lemma float_str_exact neg p m e :
  Zpos p < 2 ^ 53 → e ≤ 0 → Zpos m = Zpos p * 2 ^ (- e) →
  float_str (S754_finite neg m e)
  = Some ((if neg then lit "-" else []) ++ str_of_int (Zpos p) ++ lit ".0").
Proof.
  intros Hp He Hm. unfold float_str, float_integer.
  assert (0 < 2 ^ (- e)) by (apply Z.pow_pos_nonneg; lia).
  destruct (Z.leb_spec 0 e).
  - assert (e = 0) as -> by lia. rewrite Hm. change (2 ^ (- 0)) with 1.
    change (2 ^ 0) with 1. rewrite !Z.mul_1_r.
    rewrite (proj2 (Z.ltb_lt _ _)) by lia. done.
  - rewrite Hm, Z.mod_mul, Z.div_mul by lia. cbn [Z.eqb].
    rewrite (proj2 (Z.ltb_lt _ _)) by lia. done.
Qed.



#[local] Close Scope Z_scope.

(** * The claims *)

(** ** Header matcher *)

(** C2: [looks_header_row] returns a mapping only when each of the six
    canonical fields resolves to a column, by an exact alias or by the
    "contains" fallback; the mapping then covers the six fields and nothing
    else.  When some field has no satisfying column the result is [None],
    never a partial mapping. *)
Theorem matchHeader_all_or_nothing `{U : Unicode} (row : list str) :
  match looks_header_row row with
  | Some mapping =>
      (∀ h, is_Some (mapping !! h) ↔ h ∈ CANON_HEADERS)
      ∧ ∀ hv, hv ∈ HDR_KEYS →
          ∃ (i : nat) k, mapping !! hv.1 = Some i
            ∧ (norm_key <$> row) !! i = Some k ∧ satisfies hv k = true
  | None =>
      ∃ hv, hv ∈ HDR_KEYS ∧ ∀ k, k ∈ norm_key <$> row → satisfies hv k = false
  end.
Proof.
  destruct (looks_header_row row) as [mapping|] eqn:Hl.
  - apply looks_header_row_Some in Hl as [-> Hall]. split.
    + intros h. split.
      * intros Hs. destruct (decide (h ∈ CANON_HEADERS)) as [| Hn]; [done |].
        rewrite header_scan_other in Hs by done. by destruct Hs.
      * intros Hh. rewrite <- HDR_KEYS_names in Hh.
        apply list_elem_of_fmap in Hh as (hv & -> & Hin).
        rewrite header_scan_lookup by done. auto.
    + intros hv Hin. destruct (Hall hv Hin) as [i Hi].
      pose proof Hi as Hi'. apply leftmost_Some in Hi' as [(k & Hk & Hs) _].
      exists i, k. by rewrite header_scan_lookup.
  - apply looks_header_row_None in Hl as (hv & Hin & Hnone).
    exists hv. split; [done |]. by apply leftmost_None.
Qed.

(** C8: each canonical field is assigned the leftmost column whose key
    satisfies it; columns further right that satisfy a field already
    assigned are ignored. *)
Theorem matchHeader_leftmost `{U : Unicode} (row : list str)
    (mapping : gmap str nat) (hv : str * gset str) (i : nat) :
  looks_header_row row = Some mapping → hv ∈ HDR_KEYS →
  mapping !! hv.1 = Some i ↔
    (∃ k, (norm_key <$> row) !! i = Some k ∧ satisfies hv k = true)
    ∧ ∀ (j : nat) k, (j < i)%nat →
        (norm_key <$> row) !! j = Some k → satisfies hv k = false.
Proof.
  intros Hl Hin. apply looks_header_row_Some in Hl as [-> _].
  rewrite header_scan_lookup by done. apply leftmost_Some.
Qed.

Lemma matchHeader_leftmost_witness :
  Example.mapping !! H_QUANT = Some 4%nat ↔
    (∃ k, Example.keys !! 4%nat = Some k ∧ satisfies Example.quant_entry k = true)
    ∧ ∀ (j : nat) k, (j < 4)%nat →
        Example.keys !! j = Some k → satisfies Example.quant_entry k = false.
Proof.
  apply (matchHeader_leftmost (U := Latin1.tables)
           (norm_cell <$> Example.header) Example.mapping Example.quant_entry 4).
  - vm_compute. reflexivity.
  - apply (list_elem_of_lookup_2 HDR_KEYS 4). reflexivity.
Defined.

(** ** Title locator *)


(** ** Block parser *)

Section BlockClaims.
Context {U : Unicode}.

Lemma norm_key_empty (c : str) : norm_cell (PyStr c) = [] → norm_key c = [].
Proof.
  intros Hc. unfold norm_key, strip_accents.
  by rewrite Hc, normalize_NFKD_empty, upper_empty.
Qed.

(** A blank row is not a header row. *)
Lemma blank_not_header (r : list str) : is_blank_row r = true → is_header r = false.
Proof.
  intros Hb. unfold is_header.
  assert (looks_header_row r = None) as ->; [| done].
  apply looks_header_row_None.
  exists (H_ITEM, {[ lit "ITEM" ]}). split; [left |].
  apply leftmost_None. intros k Hk.
  apply list_elem_of_fmap in Hk as (c & -> & Hc).
  unfold is_blank_row in Hb. rewrite forallb_forall in Hb.
  specialize (Hb c (proj1 (list_elem_of_In _ _) Hc)).
  apply negb_true_iff, truthy_false in Hb.
  rewrite norm_key_empty by done. reflexivity.
Qed.

Lemma parse_blocks_spec (df : DataFrame) (fonte_nome sheet_name fallback_title : str)
    (rows : list DetailRow) :
  parse_blocks df fonte_nome sheet_name fallback_title = Some (Ok rows) →
  let matrix := (λ row : list pyval, norm_cell <$> row) <$> df_values df in
  Forall (emitted_after matrix (df_shape1 df) fonte_nome sheet_name fallback_title 0) rows
  ∧ Forall (λ d, (1 ≤ BLOCO_TABELA d ≤ count_headers matrix)%nat) rows
  ∧ StronglySorted (λ d1 d2, (BLOCO_TABELA d1 ≤ BLOCO_TABELA d2)%nat) rows.
Proof.
  intros H matrix. unfold parse_blocks, run_bind, now in H. fold matrix in H.
  destruct (outer_loop matrix _ _ _ _ _ _) as [[[[i' b'] out']|]|] eqn:Hloop;
    [| done | done].
  simpl in H. simplify_eq.
  apply outer_loop_spec in Hloop as (_ & Hlen & -> & new & -> & Hnew & Hb & Hs);
    [| done].
  rewrite take_ge in Hb by done. simpl. split_and!; [done | | done].
  eapply Forall_impl; [exact Hb |]. simpl. lia.
Qed.

End BlockClaims.



(** C4: a header row met inside a block ends the block without being read
    as a data row: the inner loop stops at the header row and adds nothing;
    the next turn of the outer loop opens a new block there, numbered one
    more, titled by the title locator, whose body starts at the following
    row with the blank counter at 0.  Every detail row of a sheet is the
    image of a row that is not a header row. *)
Theorem header_inside_block `{U : Unicode} (matrix : list (list str))
    (max_cols : nat) (fonte_nome sheet_name fallback_title : str)
    (mapping : gmap str nat) (title : str) (bloco_n i blank_streak fuel : nat)
    (rows_out : list DetailRow) (r : list str) (mapping' : gmap str nat) :
  matrix !! i = Some r → looks_header_row r = Some mapping' →
  inner_loop matrix max_cols fonte_nome sheet_name (S fuel) mapping title bloco_n
      i blank_streak rows_out
    = Some (Ok (i, rows_out))
  ∧ outer_body matrix max_cols fonte_nome sheet_name fallback_title fuel
        (i, bloco_n, rows_out)
    = match inner_loop matrix max_cols fonte_nome sheet_name fuel mapping'
              (block_title matrix fallback_title i) (bloco_n + 1) (i + 1) 0 rows_out with
      | None => None
      | Some (Raise e) => Some (Raise e)
      | Some (Ok p) => Some (Ok (p.1, (bloco_n + 1)%nat, p.2))
      end
  ∧ ∀ fuel' st,
      outer_loop matrix max_cols fonte_nome sheet_name fallback_title fuel' (0%nat, 0%nat, [])
        = Some (Ok st) →
      Forall (λ d, ∃ (j : nat) r' m t b,
                matrix !! j = Some r' ∧ is_header r' = false
                ∧ materializes max_cols fonte_nome sheet_name m t b r' d) st.2.
Proof.
  intros Hr Hl. split_and!.
  - rewrite inner_loop_unfold, (proj2 (Nat.ltb_lt _ _) (lookup_lt_Some _ _ _ Hr)), Hr.
    by rewrite (proj2 (is_header_true r)) by eauto.
  - by apply outer_body_header with r.
  - intros fuel' [[i' b'] out'] Hloop.
    apply outer_loop_spec in Hloop as (_ & _ & _ & new & -> & Hnew & _); [| done].
    simpl. eapply Forall_impl; [exact Hnew |].
    intros d (h & j & hr & m & r' & Hhj & _ & _ & Hj & Hnh & _ & Hm).
    exists j, r', m. do 2 eexists. split_and!; [done | | exact Hm].
    apply (Hnh j); [lia | done].
Qed.

Lemma header_inside_block_witness :
  inner_loop (U := Latin1.tables) Example.matrix 6 (lit "obra.xlsx") (lit "Plan1") 1
      Example.mapping (lit "QUADRO GERAL") 1 8 0 []
    = Some (Ok (8%nat, [])).
Proof.
  apply (header_inside_block (U := Latin1.tables) Example.matrix 6
           (lit "obra.xlsx") (lit "Plan1") (lit "SEM TITULO") Example.mapping
           (lit "QUADRO GERAL") 1 8 0 0 [] (norm_cell <$> Example.header)
           Example.mapping);
    vm_compute; reflexivity.
Defined.

(** C5: a row whose description is empty after trimming is not made a
    detail row by the block parser, so every detail row of a sheet has a
    description that is not empty, also after trimming; and the
    consolidator skips such a row: it leaves the sums, the sets and the key
    order as they are, and the result is that of the rows without it. *)
Theorem empty_description_dropped `{U : Unicode} :
  (∀ max_cols fonte_nome sheet_name mapping title bloco_n r rows_out desc,
     cell_at max_cols r mapping H_DESCRICAO = Ok desc → strip desc = [] →
     data_row max_cols fonte_nome sheet_name mapping title bloco_n r rows_out
       = Ok rows_out)
  ∧ (∀ df fonte_nome sheet_name fallback_title rows,
       parse_blocks df fonte_nome sheet_name fallback_title = Some (Ok rows) →
       Forall (λ d, strip (DESCRICAO d) ≠ [] ∧ DESCRICAO d ≠ []) rows)
  ∧ (∀ st d, strip (DESCRICAO d) = [] → consolidate_row st d = Ok st)
  ∧ (∀ rows,
       consolidate rows
       = consolidate (filter (λ d, strip (DESCRICAO d) ≠ []) rows)).
Proof.
  split_and!.
  - intros max_cols fonte sheet mapping title b r out desc Hd Hs.
    unfold data_row. rewrite Hd. cbn [mbind res_bind].
    by rewrite truthy_norm_cell, Hs.
  - intros df fonte sheet fallback rows H.
    apply parse_blocks_spec in H as (Hem & _).
    eapply Forall_impl; [exact Hem |].
    intros d (h & j & hr & m & r & _ & _ & _ & _ & _ & _ & Hm).
    apply materializes_fields in Hm as (_ & _ & _ & _ & _ & Ht).
    rewrite truthy_norm_cell in Ht. apply truthy_true in Ht.
    split; [done |]. intros Hd. by rewrite Hd in Ht.
  - intros [agg order] d Hd. unfold consolidate_row. by rewrite Hd.
  - intros rows.
    assert (∀ st, consolidate_rows rows st
                  = consolidate_rows (filter (λ d, strip (DESCRICAO d) ≠ []) rows) st)
      as Hrows.
    { induction rows as [| d rows IH]; intros st; [done |].
      destruct (decide (strip (DESCRICAO d) = [])) as [He | Hne].
      - rewrite filter_cons_False by naive_solver. simpl.
        destruct st as [agg order]. unfold consolidate_row. rewrite He.
        cbn. apply IH.
      - rewrite filter_cons_True by done. simpl.
        destruct (consolidate_row st d); [cbn; apply IH | done]. }
    unfold consolidate.
    destruct rows as [| d rows]; [done |].
    rewrite Hrows.
    destruct (filter _ (d :: rows)); [done | done].
Qed.

(** C9: [parse_blocks] ends on every sheet.  The fuel it gives the outer
    loop, one more than the number of rows, is never used up; every turn of
    the outer loop moves the row index forward, whether the row is skipped
    or opens a block, and the inner loop never moves it back; more fuel
    gives the same result.  On a rectangular sheet, as every data frame is,
    the result is a list of detail rows and no exception. *)
Theorem parse_blocks_terminates `{U : Unicode} (df : DataFrame)
    (fonte_nome sheet_name fallback_title : str) :
  let matrix := (λ row : list pyval, norm_cell <$> row) <$> df_values df in
  let run_outer := outer_loop matrix (df_shape1 df) fonte_nome sheet_name fallback_title in
  is_Some (parse_blocks df fonte_nome sheet_name fallback_title)
  ∧ (∀ fuel i bloco_n rows_out i' bloco_n' rows_out',
       outer_body matrix (df_shape1 df) fonte_nome sheet_name fallback_title fuel
           (i, bloco_n, rows_out)
         = Some (Ok (i', bloco_n', rows_out')) →
       (i < i')%nat)
  ∧ (∀ fuel mapping title bloco_n i blank_streak rows_out i' rows_out',
       inner_loop matrix (df_shape1 df) fonte_nome sheet_name fuel mapping title
           bloco_n i blank_streak rows_out
         = Some (Ok (i', rows_out')) →
       (i ≤ i')%nat)
  ∧ (∀ fuel, (length matrix < fuel)%nat →
       run_outer fuel (0%nat, 0%nat, []) = run_outer (S (length matrix)) (0%nat, 0%nat, []))
  ∧ (rectangular df →
     ∃ rows, parse_blocks df fonte_nome sheet_name fallback_title = Some (Ok rows)).
Proof.
  intros matrix run_outer.
  assert (is_Some (run_outer (S (length matrix)) (0%nat, 0%nat, []))) as Hend
    by (apply outer_loop_ends; lia).
  split_and!.
  - unfold parse_blocks, run_bind, now. fold matrix. fold run_outer.
    destruct Hend as [[st|e] ->]; by eexists.
  - intros *. apply outer_body_progress.
  - intros * H. by apply inner_loop_spec in H as [? _].
  - intros fuel Hf. destruct Hend as [res Hres]. rewrite Hres.
    eapply outer_loop_more_fuel; [exact Hres | lia].
  - intros Hrect. unfold parse_blocks, run_bind, now. fold matrix. fold run_outer.
    destruct Hend as [[st|e] Hres]; rewrite Hres; [by eexists |].
    exfalso. eapply outer_loop_no_raise; [| exact Hres].
    unfold rectangular in Hrect. unfold matrix.
    apply Forall_fmap. eapply Forall_impl; [exact Hrect |].
    intros row Hrow. simpl. by rewrite length_fmap.
Qed.



(** ** Consolidator *)

Section ConsolidatorClaims.
Context {U : Unicode}.

Lemma consolidate_out (rows : list DetailRow) (out : list ConsRow) :
  consolidate rows = Ok out →
  c_descricao <$> out = first_seen (keys_of rows)
  ∧ ∀ c, c ∈ out →
      ∃ d rest, keyed (c_descricao c) rows = d :: rest
        ∧ c_cod_bk c = COD_BK d ∧ c_cod_cliente c = COD_CLIENTE d ∧ c_un c = UN d
        ∧ c_quant c = quantity_sum (d :: rest)
        ∧ c_desenhos c = render (titles (d :: rest))
        ∧ c_arquivos_origem c = render (provenance (d :: rest)).
Proof.
  intros H. destruct (consolidate_spec rows) as (out' & Hout & Hf).
  rewrite H in Hout. injection Hout as <-. clear H.
  revert Hf. generalize (first_seen (keys_of rows)). intros ks Hf.
  induction Hf as [| k c ks out (a & Ha & ->) Hf [IH1 IH2]].
  - split; [done |]. intros c Hc. by apply elem_of_nil in Hc.
  - split; [rewrite fmap_cons, IH1; done |].
    intros c [-> | Hc]%elem_of_cons; [| by apply IH2].
    simpl. unfold summary in Ha.
    destruct (keyed k rows) as [| d rest]; [done |].
    injection Ha as <-. exists d, rest. by split_and!.
Qed.

Lemma keyed_Permutation k (rows rows' : list DetailRow) :
  rows ≡ₚ rows' → keyed k rows ≡ₚ keyed k rows'.
Proof. intros Hp. unfold keyed. by rewrite Hp. Qed.

Lemma titles_Permutation (rows rows' : list DetailRow) :
  rows ≡ₚ rows' → titles rows = titles rows'.
Proof. intros Hp. unfold titles. by rewrite Hp. Qed.

Lemma provenance_Permutation (rows rows' : list DetailRow) :
  rows ≡ₚ rows' → provenance rows = provenance rows'.
Proof. intros Hp. unfold provenance. by rewrite Hp. Qed.

Lemma keys_Permutation (rows rows' : list DetailRow) :
  rows ≡ₚ rows' → first_seen (keys_of rows) ≡ₚ first_seen (keys_of rows').
Proof.
  intros Hp. apply NoDup_Permutation; [apply first_seen_NoDup .. |].
  intros k. rewrite !first_seen_elem. unfold keys_of. by rewrite Hp.
Qed.

End ConsolidatorClaims.

(** C1, as the code has it: [consolidate] returns one record for each
    distinct key, in the order in which the keys are first seen; the codes
    and the unit of a record are those of the first row of its key; its
    quantity is the floating-point sum of the quantities of the rows of the
    key, added from left to right in input order to 0.0.  Reordering the
    rows keeps the set of keys and, for each key, the members of the title
    set and of the provenance set; it keeps the quantity of a key when the
    rows of that key stay in the same relative order. *)
Theorem consolidate_reordering `{U : Unicode} (rows rows' : list DetailRow) :
  rows ≡ₚ rows' →
  ∃ out out',
    consolidate rows = Ok out ∧ consolidate rows' = Ok out'
    ∧ c_descricao <$> out = first_seen (keys_of rows)
    ∧ c_descricao <$> out ≡ₚ c_descricao <$> out'
    ∧ (∀ c, c ∈ out →
         ∃ d rest, keyed (c_descricao c) rows = d :: rest
           ∧ c_cod_bk c = COD_BK d ∧ c_cod_cliente c = COD_CLIENTE d
           ∧ c_un c = UN d
           ∧ c_quant c = quantity_sum (d :: rest)
           ∧ c_desenhos c = render (titles (d :: rest))
           ∧ c_arquivos_origem c = render (provenance (d :: rest)))
    ∧ (∀ k, titles (keyed k rows) = titles (keyed k rows')
            ∧ provenance (keyed k rows) = provenance (keyed k rows'))
    ∧ ∀ c c', c ∈ out → c' ∈ out' → c_descricao c = c_descricao c' →
        c_desenhos c = c_desenhos c'
        ∧ c_arquivos_origem c = c_arquivos_origem c'
        ∧ (keyed (c_descricao c) rows = keyed (c_descricao c) rows' →
           c_quant c = c_quant c').
Proof.
  intros Hp.
  destruct (consolidate_spec rows) as (out & Hout & _).
  destruct (consolidate_spec rows') as (out' & Hout' & _).
  destruct (consolidate_out rows out Hout) as [Hk Hrec].
  destruct (consolidate_out rows' out' Hout') as [Hk' Hrec'].
  exists out, out'. split_and!; try done.
  - rewrite Hk, Hk'. by apply keys_Permutation.
  - intros k. split;
      [apply titles_Permutation | apply provenance_Permutation];
      by apply keyed_Permutation.
  - intros c c' Hc Hc' Heq.
    destruct (Hrec c Hc) as (d & rest & Hkd & _ & _ & _ & Hq & Ht & Hf).
    destruct (Hrec' c' Hc') as (d' & rest' & Hkd' & _ & _ & _ & Hq' & Ht' & Hf').
    rewrite <- Heq in Hkd'.
    pose proof (keyed_Permutation (c_descricao c) rows rows' Hp) as Hkp.
    rewrite Hkd, Hkd' in Hkp.
    rewrite Ht, Ht', Hf, Hf', Hq, Hq'.
    rewrite (titles_Permutation _ _ Hkp), (provenance_Permutation _ _ Hkp).
    split_and!; [done | done |].
    intros Hsame. rewrite Hkd, Hkd' in Hsame. by rewrite Hsame.
Qed.

Lemma consolidate_reordering_witness :
  ∃ out out',
    consolidate (U := Latin1.tables) Example.rows = Ok out
    ∧ consolidate (U := Latin1.tables) (reverse Example.rows) = Ok out'
    ∧ c_descricao <$> out = [lit "Parafuso M8"; lit "Arruela lisa"]
    ∧ c_descricao <$> out ≡ₚ c_descricao <$> out'.
Proof.
  destruct (consolidate_reordering (U := Latin1.tables) Example.rows
              (reverse Example.rows)) as (out & out' & H1 & H2 & H3 & H4 & _).
  - apply Permutation_sym, reverse_Permutation.
  - exists out, out'. split_and!; [done | done | | done].
    rewrite H3. vm_compute. reflexivity.
Defined.

(** The rows of one description in two orders: the sums differ in the last
    bit (0.6000000000000001 and 0.6). *)
Lemma consolidate_sum_depends_on_order :
  OrderExample.rows ≡ₚ OrderExample.reordered
  ∧ (fmap (M := list) c_quant <$> consolidate (U := Latin1.tables) OrderExample.rows)
    = Ok [S754_finite false 5404319552844596 (-53)]
  ∧ (fmap (M := list) c_quant <$> consolidate (U := Latin1.tables) OrderExample.reordered)
    = Ok [S754_finite false 5404319552844595 (-53)].
Proof.
  split_and!.
  - change OrderExample.reordered with (reverse OrderExample.rows).
    apply Permutation_sym, reverse_Permutation.
  - vm_compute. reflexivity.
  - vm_compute. reflexivity.
Qed.

(** ** Locale numbers *)

#[local] Set Warnings "-inexact-float".


(** The spec's example of a title, ["ESCADA PARA DISJUNTOR"], is not a
    candidate for the code: ["DISJUNTOR"] contains the deny-list word
    ["UN"]; ["QUANT. TOTAL"] is refused as well. *)
Example title_examples :
  is_candidate_title (U := Latin1.tables) (lit "ESCADA PARA DISJUNTOR") = false
  ∧ is_candidate_title (U := Latin1.tables) (lit "QUANT. TOTAL") = false
  ∧ is_candidate_title (U := Latin1.tables) (lit "QUADRO GERAL") = true.
Proof. by vm_compute. Qed.

(** The sheet of the examples and its consolidation. *)
Example sheet_parsed :
  parse_blocks (U := Latin1.tables) Example.sheet (lit "obra.xlsx") (lit "Plan1")
    (lit "SEM TITULO") = Some (Ok Example.rows).
Proof. vm_compute. reflexivity. Qed.

Example sheet_consolidated :
  (fmap (M := list) (λ c, (c_descricao c, c_quant c))
     <$> consolidate (U := Latin1.tables) Example.rows)
  = Ok [ (lit "Parafuso M8", Prim2SF 5%float); (lit "Arruela lisa", Prim2SF 2%float) ].
Proof. vm_compute. reflexivity. Qed.

(** * Further properties *)

(** ** Text normalizer *)

Lemma solid_cons c s :
  solid (c :: s) = if isspace c then solid s else c :: solid s.
Proof.
  unfold solid. rewrite filter_cons. destruct (isspace c) eqn:E.
  - rewrite decide_False; [done | congruence].
  - by rewrite decide_True.
Qed.

Lemma solid_app s1 s2 : solid (s1 ++ s2) = solid s1 ++ solid s2.
Proof. apply filter_app. Qed.

Lemma solid_spaces w : forallb isspace w = true → solid w = [].
Proof.
  induction w as [| c w IH]; [done |]. cbn [forallb]. intros [Hc Hw]%andb_prop.
  rewrite solid_cons, Hc. auto.
Qed.

Lemma solid_nil s : solid s = [] ↔ forallb isspace s = true.
Proof.
  split; [| apply solid_spaces].
  induction s as [| c s IH]; [done |]. rewrite solid_cons. cbn [forallb].
  destruct (isspace c); [auto | done].
Qed.

Lemma solid_lstrip s : solid (lstrip s) = solid s.
Proof.
  destruct (lstrip_split s) as (w & Hs & Hw).
  rewrite Hs at 2. by rewrite solid_app, (solid_spaces w), app_nil_l.
Qed.

Lemma solid_rstrip s : solid (rstrip s) = solid s.
Proof.
  destruct (rstrip_split s) as (w & Hs & Hw).
  rewrite Hs at 2. by rewrite solid_app, (solid_spaces w), app_nil_r.
Qed.

Lemma solid_strip s : solid (strip s) = solid s.
Proof. unfold strip. by rewrite solid_rstrip, solid_lstrip. Qed.

Lemma solid_replace_nbsp s : solid (replace 0xa0 (lit " ") s) = solid s.
Proof.
  induction s as [| c s IH]; [done |]. rewrite replace_cons.
  destruct (c =? 0xa0) eqn:E.
  - apply N.eqb_eq in E as ->. rewrite solid_app, IH, solid_cons. done.
  - rewrite solid_app, IH, (solid_cons c s), solid_cons.
    by destruct (isspace c).
Qed.

Lemma solid_sub_spaces b s : solid (sub_spaces b s) = solid s.
Proof.
  revert b. induction s as [| c s IH]; intros b; [done |]. cbn [sub_spaces].
  rewrite (solid_cons c s). destruct (isspace c) eqn:E.
  - destruct b; [apply IH |]. rewrite solid_cons. cbn. apply IH.
  - by rewrite solid_cons, E, IH.
Qed.

Lemma solid_norm_cell s : solid (norm_cell (PyStr s)) = solid s.
Proof.
  change (norm_cell (PyStr s))
    with (sub_spaces false (strip (replace 0xa0 (lit " ") s))).
  by rewrite solid_sub_spaces, solid_strip, solid_replace_nbsp.
Qed.

(** In a normalized text the whitespace characters are the spaces. *)
Lemma normal_space b s :
  normal b s = true → Forall (λ c, isspace c = (c =? 32)) s.
Proof.
  revert b. induction s as [| c s IH]; intros b; [constructor |].
  cbn [normal]. destruct (isspace c) eqn:E.
  - intros [[Hc _]%andb_prop Hs]%andb_prop. constructor; [congruence | eauto].
  - intros Hs. constructor; [| eauto].
    destruct (c =? 32) eqn:E'; [| done]. apply N.eqb_eq in E' as ->. done.
Qed.

Lemma replace_space_solid s :
  Forall (λ c, isspace c = (c =? 32)) s → replace 32 [] s = solid s.
Proof.
  induction 1 as [| c s Hc _ IH]; [done |].
  rewrite replace_cons, solid_cons, Hc, IH. by destruct (c =? 32).
Qed.

(** The spaces that [to_float_br] removes from a normalized cell are all of
    its whitespace. *)
Lemma replace_space_norm_cell s :
  replace 32 [] (norm_cell (PyStr s)) = solid s.
Proof.
  rewrite replace_space_solid by apply (normal_space false), norm_cell_normal.
  apply solid_norm_cell.
Qed.

Lemma truthy_solid s : truthy (norm_cell (PyStr s)) = truthy (solid s).
Proof.
  rewrite <- (solid_norm_cell s).
  pose proof (norm_cell_strip (PyStr s)) as Hs.
  destruct (norm_cell (PyStr s)) as [| c t] eqn:E; [done |].
  destruct (strip_shape (c :: t)) as [Hn | (a & t' & b & Ha & _ & Hh & _)].
  - rewrite Hs in Hn. done.
  - rewrite Hs in Hh. simplify_eq. by rewrite solid_cons, Ha.
Qed.

Lemma normal_lookup s : ∀ b (i : nat) c,
  normal b s = true → s !! i = Some c → isspace c = true →
  c = 32
  ∧ match i with
    | O => b = false
    | S j => ∃ a, s !! j = Some a ∧ isspace a = false
    end
  ∧ ∀ d, s !! S i = Some d → isspace d = false.
Proof.
  induction s as [| a s IH]; intros b i c Hn Hi Hc; [done |].
  cbn [normal] in Hn. destruct i as [| i].
  - injection Hi as ->. rewrite Hc in Hn.
    apply andb_prop in Hn as [[->%N.eqb_eq Hb%negb_true_iff]%andb_prop Hs].
    split_and!; [done | done |]. intros d Hd. cbn in Hd.
    destruct s as [| d' s']; [done |]. injection Hd as ->.
    cbn [normal] in Hs. destruct (isspace d); [| done].
    by rewrite andb_false_r in Hs.
  - cbn in Hi. destruct (isspace a) eqn:Ha.
    + apply andb_prop in Hn as [_ Hs].
      destruct (IH true i c Hs Hi Hc) as (-> & Hp & Hnext).
      destruct i as [| j]; [done |]. split_and!; [done | | done].
      destruct Hp as (a' & ? & ?). by exists a'.
    + destruct (IH false i c Hn Hi Hc) as (-> & Hp & Hnext).
      split_and!; [done | | done].
      destruct i as [| j]; [by exists a |].
      destruct Hp as (a' & ? & ?). by exists a'.
Qed.

Lemma norm_cell_obj r : norm_cell (PyObj r) = norm_cell (PyStr r).
Proof. done. Qed.

Lemma forallb_isspace_replace s :
  forallb isspace (replace 0xa0 (lit " ") s) = forallb isspace s.
Proof.
  induction s as [| c s IH]; [done |]. rewrite replace_cons, forallb_app, IH.
  cbn [forallb]. destruct (N.eqb_spec c 0xa0) as [-> |]; [done |].
  cbn [forallb]. by rewrite andb_true_r.
Qed.

Lemma norm_cell_nil s : norm_cell (PyStr s) = [] ↔ forallb isspace s = true.
Proof.
  change (norm_cell (PyStr s))
    with (sub_spaces false (strip (replace 0xa0 (lit " ") s))).
  by rewrite sub_spaces_nil, strip_nil, forallb_isspace_replace.
Qed.

(** X1: normalizing twice is normalizing once. *)
Theorem norm_cell_twice (x : pyval) : norm_cell (PyStr (norm_cell x)) = norm_cell x.
Proof. apply norm_cell_idempotent. Qed.

(** X2: in a normalized cell every whitespace character is an ASCII space
    that stands between two characters that are not whitespace: no leading
    or trailing whitespace, no run of spaces, no tab, line break or
    no-break space. *)
Theorem norm_cell_spaces (x : pyval) (i : nat) (c : N) :
  norm_cell x !! i = Some c → isspace c = true →
  c = 32
  ∧ ∃ (j : nat) a b, i = S j
      ∧ norm_cell x !! j = Some a ∧ isspace a = false
      ∧ norm_cell x !! S i = Some b ∧ isspace b = false.
Proof.
  intros Hi Hc.
  destruct (normal_lookup _ false i c (norm_cell_normal x) Hi Hc) as (-> & Hp & Hn).
  split; [done |].
  pose proof (norm_cell_strip x) as Hs.
  destruct (strip_shape (norm_cell x)) as [H0 | (a0 & t & b0 & Ha0 & Hb0 & Hh & t' & Hl)];
    rewrite Hs in *; [by rewrite H0 in Hi |].
  destruct i as [| j].
  { rewrite Hh in Hi. injection Hi as ->. done. }
  destruct Hp as (a & Hj & Ha). exists j, a.
  destruct (norm_cell x !! S (S j)) as [b |] eqn:Hb.
  { exists b. split_and!; [done .. |]. by apply Hn. }
  exfalso. apply lookup_ge_None in Hb.
  assert (length (norm_cell x) = S (S j)) as Hlen
    by (apply lookup_lt_Some in Hi; lia).
  rewrite Hl in Hi, Hlen. rewrite length_app in Hlen. cbn in Hlen.
  rewrite lookup_app_r in Hi by lia.
  replace (S j - length t')%nat with 0%nat in Hi by lia.
  injection Hi as ->. done.
Qed.

Lemma norm_cell_spaces_witness :
  32 = 32
  ∧ ∃ (j : nat) a b, 2%nat = S j
      ∧ norm_cell (PyStr (lit "  ab   c ")) !! j = Some a ∧ isspace a = false
      ∧ norm_cell (PyStr (lit "  ab   c ")) !! 3%nat = Some b ∧ isspace b = false.
Proof. apply (norm_cell_spaces (PyStr (lit "  ab   c ")) 2 32); reflexivity. Defined.

(** X3: normalization keeps every character that is not whitespace, in
    order; it only removes or replaces whitespace. *)
Theorem norm_cell_keeps_text (x : pyval) :
  x ≠ PyNone → solid (norm_cell x) = solid (py_str x).
Proof. destruct x as [| s | r]; [done | |]; intros _; apply solid_norm_cell. Qed.

Lemma norm_cell_keeps_text_witness :
  solid (norm_cell (PyStr (lit "  ab   c "))) = lit "abc".
Proof. apply (norm_cell_keeps_text (PyStr (lit "  ab   c "))). discriminate. Defined.

(** X4: a cell normalizes to the empty text exactly when it is [None] or
    its text has whitespace only; any other object, such as the float NaN of
    an empty spreadsheet cell, whose text is ["nan"], gives a text that is
    not empty. *)
Theorem norm_cell_empty (x : pyval) :
  norm_cell x = [] ↔ x = PyNone ∨ forallb isspace (py_str x) = true.
Proof.
  destruct x as [| s | r].
  - split; [by left | done].
  - rewrite norm_cell_nil. naive_solver.
  - rewrite norm_cell_obj, norm_cell_nil. naive_solver.
Qed.

Section KeyFacts.
Context {U : Unicode}.

(** X22: a key has capital ASCII letters and digits only; it is the key
    of the normalized cell; and a cell with whitespace only has the empty
    key, which the header matcher skips. *)
Theorem norm_key_alphabet (s : str) :
  Forall (λ c, is_upper_or_digit c = true) (norm_key s)
  ∧ norm_key (norm_cell (PyStr s)) = norm_key s
  ∧ (forallb isspace s = true → norm_key s = []).
Proof.
  split_and!.
  - unfold norm_key. apply Forall_forall. intros c [Hc _]%list_elem_of_filter.
    by apply Is_true_eq_true.
  - unfold norm_key. by rewrite norm_cell_idempotent.
  - intros Hs. by apply norm_key_empty, norm_cell_nil.
Qed.
End KeyFacts.

(** ** Header matcher *)

Lemma fallback_rule_item k : fallback_rule H_ITEM k = false.
Proof. done. Qed.

Lemma fallback_rule_un k : fallback_rule H_UN k = false.
Proof. done. Qed.

Lemma satisfies_item hv k :
  hv ∈ HDR_KEYS → hv.1 = H_ITEM → satisfies hv k = true → k = lit "ITEM".
Proof.
  intros Hin Hh. unfold HDR_KEYS in Hin.
  repeat (apply elem_of_cons in Hin as [-> | Hin]; [try done |]);
    [| by apply elem_of_nil in Hin].
  unfold satisfies. rewrite fallback_rule_item, orb_false_r.
  intros H%bool_decide_eq_true. cbn [snd] in H. set_solver.
Qed.

Lemma satisfies_un hv k :
  hv ∈ HDR_KEYS → hv.1 = H_UN → satisfies hv k = true →
  k ∈ [lit "UN"; lit "UND"; lit "UNID"; lit "UNIDADE"].
Proof.
  intros Hin Hh. unfold HDR_KEYS in Hin.
  repeat (apply elem_of_cons in Hin as [-> | Hin]; [try done |]);
    [| by apply elem_of_nil in Hin].
  unfold satisfies. rewrite fallback_rule_un, orb_false_r.
  intros H%bool_decide_eq_true. cbn [snd] in H. set_solver.
Qed.

(** The keys of the ITEM column and of the UN. column satisfy no other
    field. *)
Lemma satisfies_apart hv k :
  hv ∈ HDR_KEYS →
  (k = lit "ITEM" ∧ hv.1 ≠ H_ITEM)
  ∨ (k ∈ [lit "UN"; lit "UND"; lit "UNID"; lit "UNIDADE"] ∧ hv.1 ≠ H_UN) →
  satisfies hv k = false.
Proof.
  intros Hin. unfold HDR_KEYS in Hin.
  repeat (apply elem_of_cons in Hin as [-> | Hin]);
    [.. | by apply elem_of_nil in Hin];
    (intros [[-> Hne] | [Hk Hne]]; [try done; by vm_compute |]);
    try done;
    repeat (apply elem_of_cons in Hk as [-> | Hk]; [by vm_compute |]);
    by apply elem_of_nil in Hk.
Qed.

Lemma HDR_KEYS_canon h : h ∈ CANON_HEADERS ↔ ∃ hv, hv ∈ HDR_KEYS ∧ hv.1 = h.
Proof.
  rewrite <- HDR_KEYS_names, list_elem_of_fmap. naive_solver.
Qed.

Lemma leftmost_app hv (keys more : list str) :
  is_Some (leftmost hv keys) → leftmost hv (keys ++ more) = leftmost hv keys.
Proof.
  unfold leftmost. intros [i Hi].
  destruct (list_find _ keys) as [[j k] |] eqn:E; [| done].
  by rewrite (list_find_app_l _ _ _ _ _ E).
Qed.

Section HeaderFacts.
Context {U : Unicode}.

Lemma mapping_lookup row mapping hv :
  looks_header_row row = Some mapping → hv ∈ HDR_KEYS →
  ∃ (i : nat) k, mapping !! hv.1 = Some i
    ∧ (norm_key <$> row) !! i = Some k ∧ satisfies hv k = true.
Proof.
  intros [-> Hall]%looks_header_row_Some Hin.
  destruct (Hall hv Hin) as [i Hi]. rewrite header_scan_lookup by done.
  pose proof Hi as [(k & Hk & Hs) _]%leftmost_Some. by exists i, k.
Qed.

(** X6: in a header row the column of ITEM holds the key ["ITEM"] and the
    column of UN. holds one of the four unit keys; neither column is
    assigned to another field, so a header row has at least three cells
    (description, quantity and the two codes can share columns). *)
Theorem header_item_and_unit_columns (row : list str) (mapping : gmap str nat) :
  looks_header_row row = Some mapping →
  ∃ (i u : nat) ku,
    mapping !! H_ITEM = Some i ∧ mapping !! H_UN = Some u
    ∧ (norm_key <$> row) !! i = Some (lit "ITEM")
    ∧ (norm_key <$> row) !! u = Some ku
    ∧ ku ∈ [lit "UN"; lit "UND"; lit "UNID"; lit "UNIDADE"]
    ∧ (∀ h, h ∈ CANON_HEADERS → h ≠ H_ITEM → mapping !! h ≠ Some i)
    ∧ (∀ h, h ∈ CANON_HEADERS → h ≠ H_UN → mapping !! h ≠ Some u)
    ∧ (3 ≤ length row)%nat.
Proof.
  intros Hrow.
  assert ((H_ITEM, {[ lit "ITEM" ]} : gset str) ∈ HDR_KEYS) as HinI
    by apply (list_elem_of_lookup_2 HDR_KEYS 0), eq_refl.
  assert ((H_DESCRICAO, {[ lit "DESCRICAO"; lit "DESCR"; lit "DESCRI";
                           lit "MATERIAL"; lit "NOME" ]} : gset str) ∈ HDR_KEYS)
    as HinD by apply (list_elem_of_lookup_2 HDR_KEYS 3), eq_refl.
  assert ((H_UN, {[ lit "UN"; lit "UND"; lit "UNID"; lit "UNIDADE" ]} : gset str)
          ∈ HDR_KEYS) as HinU
    by apply (list_elem_of_lookup_2 HDR_KEYS 5), eq_refl.
  destruct (mapping_lookup _ _ _ Hrow HinI) as (i & ki & Hi & Hki & Hsi).
  destruct (mapping_lookup _ _ _ Hrow HinD) as (d & kd & Hd & Hkd & Hsd).
  destruct (mapping_lookup _ _ _ Hrow HinU) as (u & ku & Hu & Hku & Hsu).
  cbn [fst] in Hi, Hd, Hu.
  apply satisfies_item in Hsi as ->; [| done ..].
  apply satisfies_un in Hsu; [| done ..].
  assert (∀ h, h ∈ CANON_HEADERS → h ≠ H_ITEM → mapping !! h ≠ Some i) as HI.
  { intros h (hv & Hin & <-)%HDR_KEYS_canon Hne Hh.
    destruct (mapping_lookup _ _ _ Hrow Hin) as (i' & k & Hi' & Hk & Hs).
    rewrite Hh in Hi'. injection Hi' as <-. rewrite Hki in Hk. injection Hk as <-.
    rewrite satisfies_apart in Hs by auto. done. }
  assert (∀ h, h ∈ CANON_HEADERS → h ≠ H_UN → mapping !! h ≠ Some u) as HU.
  { intros h (hv & Hin & <-)%HDR_KEYS_canon Hne Hh.
    destruct (mapping_lookup _ _ _ Hrow Hin) as (u' & k & Hu' & Hk & Hs).
    rewrite Hh in Hu'. injection Hu' as <-. rewrite Hku in Hk. injection Hk as <-.
    rewrite satisfies_apart in Hs by auto. done. }
  exists i, u, ku. split_and!; [done .. |].
  assert (i ≠ u) by (intros ->; by apply (HI H_UN); [apply HDR_KEYS_canon; eauto | |]).
  assert (d ≠ i) by (intros ->; by apply (HI H_DESCRICAO); [apply HDR_KEYS_canon; eauto | |]).
  assert (d ≠ u) by (intros ->; by apply (HU H_DESCRICAO); [apply HDR_KEYS_canon; eauto | |]).
  apply lookup_lt_Some in Hki, Hkd, Hku. rewrite length_fmap in Hki, Hkd, Hku. lia.
Qed.

(** X7: cells to the right of a header row do not disturb it: the longer row
    is a header row with the same mapping. *)
Theorem header_ignores_cells_on_the_right (row more : list str)
    (mapping : gmap str nat) :
  looks_header_row row = Some mapping →
  looks_header_row (row ++ more) = Some mapping.
Proof.
  intros [-> Hall]%looks_header_row_Some. apply looks_header_row_Some.
  rewrite fmap_app. split.
  - apply map_eq. intros h. destruct (decide (h ∈ CANON_HEADERS)) as [Hh | Hh].
    + apply HDR_KEYS_canon in Hh as (hv & Hin & <-).
      rewrite !header_scan_lookup by done. symmetry. by apply leftmost_app, Hall.
    + by rewrite !header_scan_other.
  - intros hv Hin. rewrite leftmost_app by auto. auto.
Qed.

(** X5: a row is blank exactly when each of its cells has whitespace only (so
    the row without cells is blank), and a blank row is never a header
    row. *)
Theorem blank_row_is_no_header (row : list str) :
  (is_blank_row row = true ↔ Forall (λ c, forallb isspace c = true) row)
  ∧ (is_blank_row row = true → looks_header_row row = None).
Proof.
  split.
  - unfold is_blank_row. rewrite forallb_forall, Forall_forall.
    split; intros H c Hc.
    + apply list_elem_of_In, H in Hc. apply negb_true_iff, truthy_false in Hc.
      by apply norm_cell_nil.
    + apply list_elem_of_In, H, norm_cell_nil in Hc. by rewrite Hc.
  - intros Hb%blank_not_header. unfold is_header in Hb.
    destruct (looks_header_row row) as [mapping |] eqn:E; [| done].
    apply looks_header_row_nonempty in E. by apply bool_decide_eq_false in Hb.
Qed.
End HeaderFacts.

Lemma header_item_and_unit_columns_witness :
  ∃ (i u : nat) ku,
    Example.mapping !! H_ITEM = Some i ∧ Example.mapping !! H_UN = Some u
    ∧ Example.keys !! i = Some (lit "ITEM")
    ∧ Example.keys !! u = Some ku
    ∧ ku ∈ [lit "UN"; lit "UND"; lit "UNID"; lit "UNIDADE"]
    ∧ (∀ h, h ∈ CANON_HEADERS → h ≠ H_ITEM → Example.mapping !! h ≠ Some i)
    ∧ (∀ h, h ∈ CANON_HEADERS → h ≠ H_UN → Example.mapping !! h ≠ Some u)
    ∧ (3 ≤ length (norm_cell <$> Example.header))%nat.
Proof.
  apply (header_item_and_unit_columns (U := Latin1.tables)
           (norm_cell <$> Example.header) Example.mapping).
  vm_compute. reflexivity.
Defined.

Lemma header_ignores_cells_on_the_right_witness :
  looks_header_row (U := Latin1.tables) Cases.header_with_title = Some Example.mapping.
Proof.
  apply (header_ignores_cells_on_the_right (U := Latin1.tables)
           (norm_cell <$> Example.header) [lit "ESCADA"] Example.mapping).
  vm_compute. reflexivity.
Defined.

(** ** Locale numbers *)

Lemma number_text_norm_cell s :
  number_text (norm_cell (PyStr s))
  = if contains (lit ",") (solid s)
    then replace 44 (lit ".") (replace 46 [] (solid s)) else solid s.
Proof. unfold number_text. by rewrite replace_space_norm_cell. Qed.

(** What [to_float_br] reads depends on the characters other than
    whitespace only. *)
Lemma to_float_br_solid `{U : Unicode} s :
  to_float_br (PyStr s)
  = if truthy (solid s) then
      default float_zero
        (py_float todecimal
           (if contains (lit ",") (solid s)
            then replace 44 (lit ".") (replace 46 [] (solid s)) else solid s))
    else float_zero.
Proof.
  unfold to_float_br. rewrite truthy_solid, number_text_norm_cell.
  destruct (truthy (solid s)); [| done]. cbn [negb]. by destruct (py_float _ _).
Qed.

Lemma contains_cons p c s :
  contains p (c :: s) = startswith p (c :: s) || contains p s.
Proof. done. Qed.

Lemma contains_char c s : contains [c] s = true ↔ c ∈ s.
Proof.
  induction s as [| a s IH].
  - cbn. split; [done | by intros ?%elem_of_nil].
  - rewrite contains_cons, orb_true_iff, IH, elem_of_cons.
    cbn [startswith]. rewrite andb_true_r.
    destruct s; rewrite N.eqb_eq; naive_solver.
Qed.

Lemma replace_filter c s : replace c [] s = filter (λ a, a ≠ c) s.
Proof.
  induction s as [| a s IH]; [done |]. rewrite replace_cons, filter_cons, IH.
  destruct (N.eqb_spec a c) as [-> | Hne].
  - by rewrite decide_False by auto.
  - by rewrite decide_True.
Qed.

Lemma solid_replace_point s : solid (replace 46 [] s) = replace 46 [] (solid s).
Proof.
  rewrite !replace_filter. unfold solid.
  rewrite !list_filter_filter. apply list_filter_iff. tauto.
Qed.

Lemma replace_point_twice s : replace 46 [] (replace 46 [] s) = replace 46 [] s.
Proof.
  rewrite !replace_filter, list_filter_filter. apply list_filter_iff. tauto.
Qed.

Lemma contains_replace_point c s :
  c ≠ 46 → contains [c] (replace 46 [] s) = contains [c] s.
Proof.
  intros Hc. apply eq_true_iff_eq. rewrite !contains_char, replace_filter.
  rewrite list_elem_of_filter. naive_solver.
Qed.

Lemma solid_comma s : 44 ∈ s ↔ 44 ∈ solid s.
Proof. unfold solid. rewrite list_elem_of_filter. naive_solver. Qed.

Section NumberTexts.
Context {U : Unicode}.

(** X8: [to_float_br] looks at the characters that are not whitespace
    only: texts that differ in whitespace, anywhere, are read as the same
    number. *)
Theorem to_float_br_ignores_whitespace (s s' : str) :
  solid s = solid s' → to_float_br (PyStr s) = to_float_br (PyStr s').
Proof. intros H. by rewrite !to_float_br_solid, H. Qed.

(** X9: in a text with a comma the periods count for nothing: the text is
    read as it is read without them. *)
Theorem to_float_br_thousands_periods (s : str) :
  44 ∈ s → to_float_br (PyStr (replace 46 [] s)) = to_float_br (PyStr s).
Proof.
  intros Hc. rewrite !to_float_br_solid, solid_replace_point.
  change (lit ",") with [44].
  assert (contains [44] (solid s) = true) as Hs
    by by apply contains_char, (proj1 (solid_comma s)).
  rewrite contains_replace_point, Hs, replace_point_twice by done.
  assert (truthy (replace 46 [] (solid s)) = true) as ->.
  { apply contains_char in Hs. rewrite replace_filter.
    assert (44 ∈ filter (λ a, a ≠ 46) (solid s)) as Hin
      by (apply list_elem_of_filter; split; [lia | done]).
    by destruct (filter _ _); [apply elem_of_nil in Hin |]. }
  assert (truthy (solid s) = true) as ->; [| done].
  apply contains_char in Hs. by destruct (solid s); [apply elem_of_nil in Hs |].
Qed.
End NumberTexts.

Lemma to_float_br_ignores_whitespace_witness :
  to_float_br (U := Latin1.tables) (PyStr (lit " 1 234,5 "))
  = to_float_br (U := Latin1.tables) (PyStr (lit "1234,5")).
Proof. apply to_float_br_ignores_whitespace. reflexivity. Defined.

Lemma to_float_br_thousands_periods_witness :
  to_float_br (U := Latin1.tables) (PyStr (lit "1234,56"))
  = to_float_br (U := Latin1.tables) (PyStr (lit "1.234,56")).
Proof.
  apply (to_float_br_thousands_periods (U := Latin1.tables) (lit "1.234,56")).
  apply (list_elem_of_lookup_2 _ 5). reflexivity.
Defined.

Lemma occurrences_cons c a s :
  occurrences c (a :: s) = ((if decide (a = c) then 1 else 0) + occurrences c s)%nat.
Proof. unfold occurrences. rewrite filter_cons. by destruct (decide (a = c)). Qed.

Lemma occurrences_app c s1 s2 :
  occurrences c (s1 ++ s2) = (occurrences c s1 + occurrences c s2)%nat.
Proof. unfold occurrences. by rewrite filter_app, length_app. Qed.

Lemma occurrences_reverse c s : occurrences c (reverse s) = occurrences c s.
Proof. unfold occurrences. by rewrite filter_reverse, length_reverse. Qed.

Lemma occurrences_none c s : Forall (λ a, a ≠ c) s → occurrences c s = 0%nat.
Proof.
  induction 1 as [| a s Ha _ IH]; [done |].
  by rewrite occurrences_cons, decide_False, IH.
Qed.

Lemma occurrences_solid c s : isspace c = false → occurrences c (solid s) = occurrences c s.
Proof.
  intros Hc. unfold occurrences, solid. rewrite list_filter_filter.
  f_equal. apply list_filter_iff. intros a. naive_solver.
Qed.

Lemma unmarked_occurrences s :
  Forall unmarked s → occurrences 46 s = 0%nat ∧ 63 ∉ s.
Proof.
  intros H. split.
  - apply occurrences_none. eapply Forall_impl; [done |]. by intros ? [].
  - intros Hin. rewrite Forall_forall in H. by destruct (H _ Hin).
Qed.

Lemma digits_unmarked ds : forallb is_digit ds = true → Forall unmarked ds.
Proof.
  induction ds as [| c ds IH]; [constructor |]. cbn [forallb].
  intros [Hc Hds]%andb_prop. constructor; [| auto].
  unfold is_digit in Hc. apply andb_prop in Hc as [?%N.leb_le ?%N.leb_le].
  split; lia.
Qed.

Lemma span_digits_spec s ds rest :
  span_digits s = (ds, rest) → s = ds ++ rest ∧ forallb is_digit ds = true.
Proof.
  revert ds rest. induction s as [| c s IH]; intros ds rest; cbn [span_digits].
  - by intros [= <- <-].
  - destruct (is_digit c) eqn:Hc.
    + destruct (span_digits s) as [ds' rest'].
      intros [= <- <-]. destruct (IH _ _ eq_refl) as [-> Hd].
      split; [done |]. cbn [forallb]. by rewrite Hc.
    + by intros [= <- <-].
Qed.

Lemma parse_sign_spec s neg s1 :
  parse_sign s = (neg, s1) → ∃ sg, s = sg ++ s1 ∧ Forall unmarked sg.
Proof.
  unfold parse_sign. destruct s as [| c s']; [intros [= <- <-]; by exists [] |].
  destruct (N.eqb_spec c 45) as [-> |]; [intros [= <- <-]; exists [45]; split; [done |]|].
  { repeat constructor; done. }
  destruct (N.eqb_spec c 43) as [-> |]; [intros [= <- <-]; exists [43]; split; [done |]|].
  { repeat constructor; done. }
  intros [= <- <-]. by exists [].
Qed.

Lemma parse_inf_or_nan_unmarked s f :
  parse_inf_or_nan s = Some f → Forall unmarked s.
Proof.
  unfold parse_inf_or_nan. destruct (parse_sign s) as [neg s1] eqn:Hs.
  apply parse_sign_spec in Hs as (sg & -> & Hsg). intros H.
  apply Forall_app. split; [done |].
  assert (Forall unmarked (ascii_lower <$> s1)) as Hl.
  { destruct (bool_decide (ascii_lower <$> s1 = lit "inf")
              || bool_decide (ascii_lower <$> s1 = lit "infinity")) eqn:E.
    - apply orb_prop in E as [->%bool_decide_eq_true | ->%bool_decide_eq_true];
        repeat constructor; done.
    - destruct (bool_decide (ascii_lower <$> s1 = lit "nan")) eqn:E'; [| done].
      apply bool_decide_eq_true in E' as ->. repeat constructor; done. }
  rewrite Forall_fmap in Hl. eapply Forall_impl; [exact Hl |].
  intros c [H1 H2]. cbn in H1, H2. unfold ascii_lower in H1, H2.
  destruct ((65 <=? c) && (c <=? 90)) eqn:E; [| done].
  apply andb_prop in E as [?%N.leb_le ?%N.leb_le]. split; lia.
Qed.

(** A string that [float] accepts has at most one period and no question
    mark. *)
Lemma string_to_double_marks s f :
  string_to_double s = Some f → (occurrences 46 s ≤ 1)%nat ∧ 63 ∉ s.
Proof.
  unfold string_to_double.
  destruct (parse_sign s) as [neg s1] eqn:Hs.
  destruct (span_digits s1) as [ip s2] eqn:Hip.
  pose proof Hs as (sg & Hsg & Usg)%parse_sign_spec.
  pose proof Hip as [Hs1 Dip%digits_unmarked]%span_digits_spec.
  set (P := match s2 with
            | c :: t => if c =? 46 then span_digits t else ([], s2)
            | [] => ([], s2)
            end).
  destruct P as [fp s3] eqn:HP. subst P.
  assert (∃ pt, s2 = pt ++ fp ++ s3 ∧ (pt = [] ∨ pt = [46]) ∧ Forall unmarked fp)
    as (pt & Hs2 & Hpt & Dfp).
  { destruct s2 as [| c t].
    { injection HP as <- <-. exists []. split_and!; [done | by left | constructor]. }
    destruct (c =? 46) eqn:E.
    - apply N.eqb_eq in E as ->.
      apply span_digits_spec in HP as [-> ?%digits_unmarked].
      exists [46]. split_and!; [done | by right | done].
    - injection HP as <- <-. exists []. split_and!; [done | by left | constructor]. }
  destruct (ip ++ fp) as [| d ds] eqn:Hds.
  { intros H%parse_inf_or_nan_unmarked.
    destruct (unmarked_occurrences _ H). split; [lia | done]. }
  intros H.
  assert (Forall unmarked s3) as Ds3.
  { destruct s3 as [| c t]; [constructor |].
    destruct ((c =? 101) || (c =? 69)) eqn:E; [| done].
    destruct (parse_sign t) as [eneg t1] eqn:Ht.
    apply parse_sign_spec in Ht as (sg' & -> & Usg').
    destruct (span_digits t1) as [ed rest] eqn:Hed.
    apply span_digits_spec in Hed as [-> ?%digits_unmarked].
    destruct ed as [| ? ?]; [done |]. destruct rest; [| done].
    constructor.
    - apply orb_prop in E as [->%N.eqb_eq | ->%N.eqb_eq]; done.
    - rewrite app_nil_r. by apply Forall_app. }
  subst s s1 s2.
  destruct (unmarked_occurrences _ Usg), (unmarked_occurrences _ Dip),
    (unmarked_occurrences _ Dfp), (unmarked_occurrences _ Ds3).
  split.
  - rewrite !occurrences_app.
    destruct Hpt as [-> | ->]; [change (occurrences 46 []) with 0%nat
                               | change (occurrences 46 [46]) with 1%nat]; lia.
  - rewrite !elem_of_app. destruct Hpt as [-> | ->]; set_solver.
Qed.

Lemma transform_marks td s :
  63 ∈ transform_decimal_and_space td s
  ∨ occurrences 46 (transform_decimal_and_space td s) = occurrences 46 s.
Proof.
  induction s as [| c s IH]; [by right |]. cbn [transform_decimal_and_space].
  destruct (N.ltb_spec c 127) as [Hc | Hc].
  { destruct IH as [IH | IH]; [left; by apply elem_of_cons; right |].
    right. by rewrite !occurrences_cons, IH. }
  rewrite (occurrences_cons 46 c s), decide_False by lia.
  destruct (isspace c).
  { destruct IH as [IH | IH]; [left; by apply elem_of_cons; right |].
    right. by rewrite occurrences_cons, decide_False, IH. }
  destruct (td c) as [d |].
  - destruct IH as [IH | IH]; [left; by apply elem_of_cons; right |].
    right. by rewrite occurrences_cons, decide_False, IH by lia.
  - left. by apply list_elem_of_singleton.
Qed.

Lemma drop_underscores_marks s : ∀ prev u,
  drop_underscores prev s = Some u →
  occurrences 46 u = occurrences 46 s ∧ (63 ∈ s → 63 ∈ u).
Proof.
  induction s as [| c s IH]; intros prev u; cbn [drop_underscores].
  - destruct (prev =? 95); [done |]. by intros [= <-].
  - destruct (N.eqb_spec c 95) as [-> | Hc].
    + destruct (is_digit prev); [| done]. intros [H1 H2]%IH.
      rewrite occurrences_cons, decide_False by done. split; [done |].
      intros [? | ?]%elem_of_cons; [done | auto].
    + destruct ((prev =? 95) && negb (is_digit c)); [done |].
      destruct (drop_underscores c s) as [u' |] eqn:E; [| done].
      intros [= <-]. destruct (IH _ _ E) as [H1 H2].
      rewrite !occurrences_cons, H1. split; [done |].
      rewrite !elem_of_cons. naive_solver.
Qed.

Lemma lstrip_ascii_marks s :
  occurrences 46 (lstrip_ascii s) = occurrences 46 s
  ∧ (63 ∈ s → 63 ∈ lstrip_ascii s).
Proof.
  induction s as [| c s IH]; [done |]. cbn [lstrip_ascii].
  destruct (is_ascii_space c) eqn:E; [| done].
  assert (c ≠ 46 ∧ c ≠ 63) as [? ?].
  { unfold is_ascii_space in E.
    apply orb_prop in E as [?%N.eqb_eq | [?%N.leb_le ?%N.leb_le]%andb_prop]; lia. }
  rewrite occurrences_cons, decide_False by done. destruct IH as [-> IH].
  split; [done |]. intros [? | ?]%elem_of_cons; [done | auto].
Qed.

(** [float] refuses a text with more than one period. *)
Lemma py_float_periods td s f :
  py_float td s = Some f → (occurrences 46 s ≤ 1)%nat.
Proof.
  unfold py_float. set (a := transform_decimal_and_space td s).
  destruct (if bool_decide (95 ∈ a) then drop_underscores 0 a else Some a)
    as [u |] eqn:Hu; [| done].
  cbn. intros [Hn Hq]%string_to_double_marks.
  rewrite occurrences_reverse in Hn. rewrite elem_of_reverse in Hq.
  destruct (lstrip_ascii_marks (reverse (lstrip_ascii u))) as [Hn1 Hq1].
  rewrite Hn1, occurrences_reverse in Hn. rewrite elem_of_reverse in Hq1.
  destruct (lstrip_ascii_marks u) as [Hn2 Hq2]. rewrite Hn2 in Hn.
  assert (occurrences 46 u = occurrences 46 a ∧ (63 ∈ a → 63 ∈ u)) as [Hn3 Hq3].
  { destruct (bool_decide (95 ∈ a)); [by eapply drop_underscores_marks |].
    by injection Hu as <-. }
  destruct (transform_marks td s) as [Hq4 | Hn4]; [tauto |].
  fold a in Hn4. lia.
Qed.

Lemma occurrences_replace_comma s :
  occurrences 46 (replace 44 (lit ".") (replace 46 [] s)) = occurrences 44 s.
Proof.
  induction s as [| c s IH]; [done |].
  rewrite (replace_cons 46), (occurrences_cons 44).
  destruct (N.eqb_spec c 46) as [-> | Hc]; [by rewrite decide_False |].
  change ([c] ++ replace 46 [] s) with (c :: replace 46 [] s).
  rewrite replace_cons, occurrences_app, IH. f_equal.
  destruct (N.eqb_spec c 44) as [-> | Hc']; [done |].
  by rewrite decide_False, occurrences_cons, decide_False.
Qed.

Lemma occurrences_elem c s : c ∈ s ↔ (0 < occurrences c s)%nat.
Proof.
  unfold occurrences. split.
  - intros Hin. assert (c ∈ filter (λ a, a = c) s) as H
      by by apply list_elem_of_filter.
    destruct (filter _ s); [by apply elem_of_nil in H | cbn; lia].
  - intros H. destruct (filter (λ a, a = c) s) as [| a l] eqn:E; [cbn in H; lia |].
    assert (a ∈ filter (λ a, a = c) s) as [-> ?]%list_elem_of_filter
      by (rewrite E; left). done.
Qed.

Section NumberMarks.
Context {U : Unicode}.

(** X10: a text with two commas or more, or with no comma and two periods
    or more, is read as 0.0, whatever else it holds. *)
Theorem to_float_br_two_decimal_marks (s : str) :
  (2 ≤ occurrences 44 s)%nat
  ∨ (occurrences 44 s = 0%nat ∧ (2 ≤ occurrences 46 s)%nat) →
  to_float_br (PyStr s) = float_zero.
Proof.
  intros H. rewrite to_float_br_solid. destruct (truthy (solid s)); [| done].
  change (lit ",") with [44].
  destruct (py_float todecimal _) as [f |] eqn:E; [| done].
  apply py_float_periods in E. exfalso.
  destruct (contains [44] (solid s)) eqn:Hc.
  - rewrite occurrences_replace_comma, occurrences_solid in E by done.
    apply contains_char, occurrences_elem in Hc.
    rewrite occurrences_solid in Hc by done. lia.
  - rewrite occurrences_solid in E by done.
    destruct H as [H | [_ H]]; [| lia].
    assert (44 ∈ solid s) as Hin.
    { apply occurrences_elem. rewrite occurrences_solid by done. lia. }
    apply contains_char in Hin. congruence.
Qed.
End NumberMarks.

Lemma to_float_br_two_decimal_marks_witness :
  to_float_br (U := Latin1.tables) (PyStr (lit "1.234.567")) = float_zero
  ∧ to_float_br (U := Latin1.tables) (PyStr (lit "1,234,567")) = float_zero.
Proof.
  split; apply to_float_br_two_decimal_marks.
  - right. split; [reflexivity | exact (le_n 2)].
  - left. exact (le_n 2).
Defined.

(** ** Title locator *)

Section TitleFacts.
Context {U : Unicode}.

(** X11: the title found for a header row depends on the rows from three
    above to three below it only: two sheets that agree on these rows,
    where they have them, give the same title. *)
Theorem find_title_near_local (matrix matrix' : list (list str)) (h : Z) :
  (∀ k : nat, (h - 3 ≤ Z.of_nat k ≤ h + 3)%Z → matrix !! k = matrix' !! k) →
  find_title_near matrix h = find_title_near matrix' h.
Proof.
  intros H. rewrite !find_title_near_window.
  assert (window matrix h = window matrix' h) as ->; [| done].
  apply list_eq. intros k. rewrite !window_lookup.
  case_decide; [| done]. apply H. lia.
Qed.
End TitleFacts.

Lemma find_title_near_local_witness :
  find_title_near (U := Latin1.tables) Example.matrix 1
  = find_title_near (U := Latin1.tables) (take 5 Example.matrix) 1.
Proof.
  apply find_title_near_local. intros k Hk.
  rewrite lookup_take. case_decide; [reflexivity | lia].
Defined.

(** ** Block parser *)

Section LoopOrder.
Context {U : Unicode}.
Variable matrix : list (list str).
Variable max_cols : nat.
Variables fonte_nome sheet_name fallback_title : str.

Abbreviation inner_loop' := (inner_loop matrix max_cols fonte_nome sheet_name).
Abbreviation outer_body' := (outer_body matrix max_cols fonte_nome sheet_name fallback_title).
Abbreviation outer_loop' := (outer_loop matrix max_cols fonte_nome sheet_name fallback_title).
Abbreviation data_row' := (data_row max_cols fonte_nome sheet_name).
Abbreviation image' := (image_of_row matrix max_cols fonte_nome sheet_name).

Lemma materializes_cells mapping title bloco_n r d :
  materializes max_cols fonte_nome sheet_name mapping title bloco_n r d →
  cell_at max_cols r mapping H_ITEM = Ok (ITEM d)
  ∧ cell_at max_cols r mapping H_COD_BK = Ok (COD_BK d)
  ∧ cell_at max_cols r mapping H_COD_CLIENTE = Ok (COD_CLIENTE d)
  ∧ cell_at max_cols r mapping H_DESCRICAO = Ok (DESCRICAO d)
  ∧ cell_at max_cols r mapping H_QUANT = Ok (QUANT d)
  ∧ cell_at max_cols r mapping H_UN = Ok (UN d).
Proof.
  unfold materializes, data_row.
  destruct (cell_at max_cols r mapping H_DESCRICAO) as [desc|]; [| done].
  cbn [mbind res_bind].
  destruct (truthy _); [| done].
  destruct (cell_at max_cols r mapping H_ITEM) as [v1|]; [| done].
  destruct (cell_at max_cols r mapping H_COD_BK) as [v2|]; [| done].
  destruct (cell_at max_cols r mapping H_COD_CLIENTE) as [v3|]; [| done].
  destruct (cell_at max_cols r mapping H_QUANT) as [v4|]; [| done].
  destruct (cell_at max_cols r mapping H_UN) as [v5|]; [| done].
  cbn [mbind res_bind]. intros [= <-]. done.
Qed.

Lemma cell_at_cases r mapping h v :
  cell_at max_cols r mapping h = Ok v →
  ∃ c, mapping !! h = Some c
    ∧ ((c < max_cols)%nat ∧ r !! c = Some v ∨ (max_cols ≤ c)%nat ∧ v = []).
Proof.
  unfold cell_at, getkey, getitem, mbind, res_bind.
  destruct (mapping !! h) as [c |]; [| done]. exists c. split; [done |].
  destruct (Nat.ltb_spec c max_cols).
  - destruct (r !! c); [| done]. left. naive_solver.
  - right. naive_solver.
Qed.

Lemma inner_loop_order fuel mapping title bloco_n :
  ∀ i blank_streak rows_out i' rows_out',
  inner_loop' fuel mapping title bloco_n i blank_streak rows_out
    = Some (Ok (i', rows_out')) →
  (i ≤ i')%nat
  ∧ ∃ js new, rows_out' = rows_out ++ new
    ∧ Forall2 (λ j d, image' j d ∧ BLOCO_TABELA d = bloco_n) js new
    ∧ StronglySorted lt js
    ∧ Forall (λ j, i ≤ j < i')%nat js.
Proof.
  induction fuel as [| fuel IH]; intros i bs out i' out' H; [done |].
  rewrite inner_loop_unfold in H.
  assert (∀ (i : nat) (out : list DetailRow), (i ≤ i)%nat
          ∧ ∃ js new, out = out ++ new
            ∧ Forall2 (λ j d, image' j d ∧ BLOCO_TABELA d = bloco_n) js new
            ∧ StronglySorted lt js
            ∧ Forall (λ j, i ≤ j < i)%nat js) as Hstop.
  { intros k o. split; [done |]. exists [], []. rewrite app_nil_r.
    split_and!; by constructor. }
  destruct (i <? length matrix)%nat eqn:Hi; [| simplify_eq; apply Hstop].
  destruct (matrix !! i) as [r|] eqn:Hr; [| done].
  destruct (is_header r) eqn:Hh; [simplify_eq; apply Hstop |].
  destruct (is_blank_row r) eqn:Hb.
  - destruct (2 <=? bs + 1)%nat; [simplify_eq; apply Hstop |].
    apply IH in H as (Hle & js & new & -> & Him & Hs & Hjs).
    split; [lia |]. exists js, new. split_and!; [done .. |].
    eapply Forall_impl; [done |]. simpl. lia.
  - destruct (data_row' mapping title bloco_n r out) as [out1|] eqn:Hd; [| done].
    apply IH in H as (Hle & js & new & -> & Him & Hs & Hjs).
    split; [lia |].
    assert (Forall (λ j, i ≤ j < i')%nat js) as Hjs'
      by (eapply Forall_impl; [done |]; simpl; lia).
    apply data_row_inv in Hd as [-> | (d & -> & Hd)]; [by exists js, new |].
    exists (i :: js), (d :: new). split_and!.
    + by rewrite <- app_assoc.
    + constructor; [| done].
      destruct (materializes_fields _ _ _ _ _ _ _ _ Hd) as (_ & _ & _ & Hbn & _).
      split; [| done]. exists r, mapping, title. by rewrite Hbn.
    + constructor; [done |]. eapply Forall_impl; [exact Hjs |]. simpl. lia.
    + constructor; [lia | done].
Qed.

Lemma outer_loop_order fuel :
  ∀ (i bloco_n : nat) rows_out i' bloco_n' rows_out',
  outer_loop' fuel (i, bloco_n, rows_out) = Some (Ok (i', bloco_n', rows_out')) →
  ∃ js new, rows_out' = rows_out ++ new
    ∧ Forall2 image' js new
    ∧ StronglySorted lt js
    ∧ Forall (λ j, i ≤ j)%nat js.
Proof.
  induction fuel as [| fuel IH]; intros i b out i' b' out' H; [done |].
  rewrite outer_loop_unfold in H. cbn [fst snd] in H.
  destruct (i <? length matrix)%nat eqn:Hi.
  2: { simplify_eq. exists [], []. rewrite app_nil_r. split_and!; by constructor. }
  apply Nat.ltb_lt in Hi.
  destruct (lookup_lt_is_Some_2 matrix i Hi) as [row Hrow].
  destruct (looks_header_row row) as [mapping |] eqn:Hl.
  - rewrite (outer_body_header matrix max_cols fonte_nome sheet_name fallback_title
               fuel i b out row mapping Hrow Hl) in H.
    destruct (inner_loop' fuel mapping _ (b + 1) (i + 1) 0 out)
      as [[[i1 out1] |] |] eqn:Hin; [| done | done].
    cbn [fst snd] in H.
    apply inner_loop_order in Hin as (Hle & js1 & new1 & -> & Him1 & Hs1 & Hjs1).
    apply IH in H as (js2 & new2 & -> & Him2 & Hs2 & Hjs2).
    exists (js1 ++ js2), (new1 ++ new2). split_and!.
    + by rewrite app_assoc.
    + apply Forall2_app; [| done].
      eapply Forall2_impl; [done |]. by intros j d [? _].
    + apply StronglySorted_app_2; [| done | done].
      intros j1 j2 H1 H2. rewrite Forall_forall in Hjs1, Hjs2.
      specialize (Hjs1 _ H1). specialize (Hjs2 _ H2). lia.
    + apply Forall_app. split; (eapply Forall_impl; [done |]; simpl; lia).
  - rewrite (outer_body_skip matrix max_cols fonte_nome sheet_name fallback_title
               fuel i b out row Hrow) in H
      by (unfold is_header; by rewrite Hl).
    apply IH in H as (js & new & -> & Him & Hs & Hjs).
    exists js, new. split_and!; [done .. |].
    eapply Forall_impl; [done |]. simpl. lia.
Qed.

Lemma outer_loop_no_header fuel :
  (∀ row, row ∈ matrix → is_header row = false) →
  ∀ (i bloco_n : nat) rows_out,
  (length matrix - i < fuel)%nat →
  ∃ i', outer_loop' fuel (i, bloco_n, rows_out) = Some (Ok (i', bloco_n, rows_out)).
Proof.
  intros Hno. induction fuel as [| fuel IH]; intros i b out Hfuel; [lia |].
  rewrite outer_loop_unfold. cbn [fst snd].
  destruct (Nat.ltb_spec i (length matrix)) as [Hi | Hi]; [| by exists i].
  destruct (lookup_lt_is_Some_2 matrix i Hi) as [row Hrow].
  rewrite (outer_body_skip matrix max_cols fonte_nome sheet_name fallback_title
             fuel i b out row Hrow)
    by (by apply Hno, list_elem_of_lookup_2 with i).
  apply IH. lia.
Qed.

Lemma select_cases (candidates : list (nat * str)) :
  select candidates = []
  ∨ ∃ n, (n, select candidates) ∈ candidates.
Proof.
  unfold select. pose proof (sort_desc_head candidates) as H.
  destruct (sort_desc candidates) as [| [n t] rest]; [by left |].
  destruct H as (pre & post & -> & _). right. exists n.
  apply elem_of_app. right. left.
Qed.

Lemma block_title_cases h :
  block_title matrix fallback_title h = fallback_title
  ∨ is_candidate_title (block_title matrix fallback_title h) = true
    ∧ block_title matrix fallback_title h ≠ [].
Proof.
  unfold block_title, title_or.
  destruct (select_cases (title_candidates (mjoin (window matrix (Z.of_nat h)))))
    as [-> | [n Hin]]; [by left |].
  destruct (truthy (select _)) eqn:Ht; [| by left]. right.
  apply title_candidates_elem in Hin as (_ & Hc & _). split; [done |].
  intros Hnil. by rewrite Hnil in Ht.
Qed.
End LoopOrder.

Section SheetFacts.
Context {U : Unicode}.
Implicit Types (df : DataFrame) (rows : list DetailRow).

Lemma parse_blocks_outer df fonte_nome sheet_name fallback_title rows :
  parse_blocks df fonte_nome sheet_name fallback_title = Some (Ok rows) →
  ∃ i' b',
    outer_loop ((λ row : list pyval, norm_cell <$> row) <$> df_values df)
      (df_shape1 df) fonte_nome sheet_name fallback_title
      (S (length ((λ row : list pyval, norm_cell <$> row) <$> df_values df)))
      (0%nat, 0%nat, []) = Some (Ok (i', b', rows)).
Proof.
  unfold parse_blocks, run_bind, now.
  destruct (outer_loop _ _ _ _ _ _ _) as [[[[i' b'] out'] |] |]; [| done | done].
  cbn [snd]. intros [= <-]. by exists i', b'.
Qed.

(** X13: the detail rows of a sheet come in the order of the sheet, each one
    from a row of its own: they are the images of sheet rows, none of them a
    header row or a blank row, at strictly increasing row indices. *)
Theorem parse_blocks_sheet_order df (fonte_nome sheet_name fallback_title : str) rows :
  parse_blocks df fonte_nome sheet_name fallback_title = Some (Ok rows) →
  let matrix := (λ row : list pyval, norm_cell <$> row) <$> df_values df in
  ∃ js, StronglySorted lt js
    ∧ Forall2 (image_of_row matrix (df_shape1 df) fonte_nome sheet_name) js rows.
Proof.
  intros (i' & b' & H)%parse_blocks_outer matrix. fold matrix in H.
  apply outer_loop_order in H as (js & new & -> & Him & Hs & _).
  by exists js.
Qed.

(** X12: a sheet without a header row gives no detail row, and no
    exception; so does the empty sheet. *)
Theorem parse_blocks_without_header df (fonte_nome sheet_name fallback_title : str) :
  Forall (λ row : list pyval, looks_header_row (norm_cell <$> row) = None)
    (df_values df) →
  parse_blocks df fonte_nome sheet_name fallback_title = Some (Ok []).
Proof.
  intros Hno. unfold parse_blocks.
  set (matrix := (λ row : list pyval, norm_cell <$> row) <$> df_values df).
  destruct (outer_loop_no_header matrix (df_shape1 df) fonte_nome sheet_name
              fallback_title (S (length matrix))) with (i := 0%nat) (bloco_n := 0%nat)
              (rows_out := @nil DetailRow) as [i' ->]; [| lia | done].
  intros row (raw & -> & Hraw)%list_elem_of_fmap.
  rewrite Forall_forall in Hno. unfold is_header. by rewrite (Hno raw Hraw).
Qed.

Lemma matrix_cell_normal df (r : list str) (v : str) :
  r ∈ (λ row : list pyval, norm_cell <$> row) <$> df_values df → v ∈ r →
  norm_cell (PyStr v) = v.
Proof.
  intros (raw & -> & _)%list_elem_of_fmap (x & -> & _)%list_elem_of_fmap.
  apply norm_cell_idempotent.
Qed.

(** X15: the text fields of a detail row are normalized cells: normalizing
    or trimming them changes nothing, so the consolidator's key of a parsed
    row is its description as it stands. *)
Theorem parse_blocks_normalized_fields df (fonte_nome sheet_name fallback_title : str)
    rows :
  parse_blocks df fonte_nome sheet_name fallback_title = Some (Ok rows) →
  Forall (λ d, Forall (λ v, norm_cell (PyStr v) = v ∧ strip v = v)
                 [ITEM d; COD_BK d; COD_CLIENTE d; DESCRICAO d; QUANT d; UN d]) rows.
Proof.
  intros [Hem _]%parse_blocks_spec. cbn zeta in Hem.
  eapply Forall_impl; [exact Hem |]. intros d (h & j & hr & mapping & r & _ & _ & _ & Hr & _ & _ & Hd).
  apply materializes_cells in Hd as (H1 & H2 & H3 & H4 & H5 & H6).
  assert (∀ hn v, cell_at (df_shape1 df) r mapping hn = Ok v →
            norm_cell (PyStr v) = v ∧ strip v = v) as Hcell.
  { intros hn v (c & _ & [[_ Hc] | [_ ->]])%cell_at_cases; [| done].
    assert (norm_cell (PyStr v) = v) as Hn.
    { eapply matrix_cell_normal; [by eapply list_elem_of_lookup_2 |].
      by eapply list_elem_of_lookup_2. }
    split; [done |]. rewrite <- Hn. apply norm_cell_strip. }
  repeat (constructor; [by eapply Hcell |]). constructor.
Qed.


(** X16: the drawing name of a detail row is the default title or a text
    that the title test accepts; with a default title that is not empty no
    detail row is left without a drawing name. *)
Theorem parse_blocks_drawing_names df (fonte_nome sheet_name fallback_title : str) rows :
  parse_blocks df fonte_nome sheet_name fallback_title = Some (Ok rows) →
  Forall (λ d, DESENHO d = fallback_title ∨ is_candidate_title (DESENHO d) = true) rows
  ∧ (fallback_title ≠ [] → Forall (λ d, DESENHO d ≠ []) rows).
Proof.
  intros [Hem _]%parse_blocks_spec. cbn zeta in Hem.
  assert (Forall (λ d, ∃ h, DESENHO d
            = block_title ((λ row : list pyval, norm_cell <$> row) <$> df_values df)
                fallback_title h) rows) as Ht.
  { eapply Forall_impl; [exact Hem |].
    intros d (h & j & hr & mapping & r & _ & _ & _ & _ & _ & _ & Hd).
    destruct (materializes_fields _ _ _ _ _ _ _ _ Hd) as (_ & _ & Hd' & _). eauto. }
  set (matrix := (λ row : list pyval, norm_cell <$> row) <$> df_values df) in *.
  split; [| intros Hfb]; (eapply Forall_impl; [exact Ht |]); intros d [h ->].
  - destruct (block_title_cases matrix fallback_title h) as [-> | [? _]]; auto.
  - destruct (block_title_cases matrix fallback_title h) as [-> | [_ ?]]; auto.
Qed.
End SheetFacts.

Lemma parse_blocks_sheet_order_witness :
  ∃ js, StronglySorted lt js
    ∧ Forall2 (image_of_row (U := Latin1.tables) Example.matrix 6
                 (lit "obra.xlsx") (lit "Plan1")) js Example.rows.
Proof.
  apply (parse_blocks_sheet_order (U := Latin1.tables) Example.sheet
           (lit "obra.xlsx") (lit "Plan1") (lit "SEM TITULO") Example.rows).
  vm_compute. reflexivity.
Defined.

Lemma parse_blocks_without_header_witness :
  parse_blocks (U := Latin1.tables) Cases.notes (lit "obra.xlsx") (lit "Plan1")
    (lit "SEM TITULO") = Some (Ok []).
Proof.
  apply parse_blocks_without_header.
  repeat (apply List.Forall_cons; [vm_compute; reflexivity |]). apply List.Forall_nil.
Defined.

Lemma parse_blocks_normalized_fields_witness :
  Forall (λ d, Forall (λ v, norm_cell (PyStr v) = v ∧ strip v = v)
                 [ITEM d; COD_BK d; COD_CLIENTE d; DESCRICAO d; QUANT d; UN d])
    Example.rows.
Proof.
  apply (parse_blocks_normalized_fields (U := Latin1.tables) Example.sheet
           (lit "obra.xlsx") (lit "Plan1") (lit "SEM TITULO") Example.rows).
  vm_compute. reflexivity.
Defined.


Lemma parse_blocks_drawing_names_witness :
  Forall (λ d, DESENHO d = lit "SEM TITULO"
               ∨ is_candidate_title (U := Latin1.tables) (DESENHO d) = true)
    Example.rows
  ∧ (lit "SEM TITULO" ≠ [] → Forall (λ d, DESENHO d ≠ []) Example.rows).
Proof.
  apply (parse_blocks_drawing_names (U := Latin1.tables) Example.sheet
           (lit "obra.xlsx") (lit "Plan1") (lit "SEM TITULO") Example.rows).
  vm_compute. reflexivity.
Defined.

(** ** Consolidator *)

Lemma strip_strip s : strip (strip s) = strip s.
Proof.
  destruct (strip_shape s) as [-> | (a & t & b & Ha & Hb & Hh & t' & Hl)]; [done |].
  destruct t' as [| a' t'].
  - rewrite Hl. cbn. by apply strip_id1.
  - rewrite Hl in Hh. injection Hh as -> _. rewrite Hl. by apply strip_id.
Qed.

Lemma first_seen_length ks : (length (first_seen ks) ≤ length ks)%nat.
Proof.
  induction ks as [| k ks IH]; [done |]. cbn.
  pose proof (length_filter (λ k', k' ≠ k) (first_seen ks)). lia.
Qed.

Lemma first_seen_app ks ks' : first_seen ks `prefix_of` first_seen (ks ++ ks').
Proof.
  induction ks' as [| k ks' IH] using rev_ind; [by rewrite app_nil_r |].
  rewrite app_assoc, first_seen_snoc. destruct (decide _); [done |].
  by apply prefix_app_r.
Qed.

Lemma keys_of_app rows more : keys_of (rows ++ more) = keys_of rows ++ keys_of more.
Proof. unfold keys_of. by rewrite fmap_app, filter_app. Qed.

Lemma keys_of_length rows : (length (keys_of rows) ≤ length rows)%nat.
Proof.
  unfold keys_of. pose proof (length_filter (λ k : str, k ≠ []) (key_of <$> rows)) as H.
  by rewrite length_fmap in H.
Qed.

Lemma keyed_app k rows more : keyed k (rows ++ more) = keyed k rows ++ keyed k more.
Proof. apply filter_app. Qed.

Lemma keyed_elem k rows d : d ∈ keyed k rows ↔ strip (DESCRICAO d) = k ∧ d ∈ rows.
Proof. unfold keyed. by rewrite list_elem_of_filter. Qed.

Lemma float_add_nan_r x : float_add x S754_nan = S754_nan.
Proof. by destruct x. Qed.

Lemma float_add_nan_l y : float_add S754_nan y = S754_nan.
Proof. done. Qed.

Lemma str_leb_total a : ∀ b, str_leb a b = true ∨ str_leb b a = true.
Proof.
  induction a as [| x a IH]; intros [| y b]; cbn; auto.
  destruct (N.ltb_spec x y); [by left |]. destruct (N.ltb_spec y x); [by right |].
  assert (x = y) as -> by lia. rewrite N.eqb_refl. cbn. apply IH.
Qed.

#[local] Instance str_le_total : Total str_le.
Proof. intros a b. apply str_leb_total. Qed.

Lemma render_spec (s : gset str) :
  ∃ l, render s = join (lit "; ") l ∧ Sorted str_le l ∧ NoDup l ∧ ∀ t, t ∈ l ↔ t ∈ s.
Proof.
  exists (merge_sort str_le (elements s)). split_and!; [done | | |].
  - apply Sorted_merge_sort, _.
  - rewrite merge_sort_Permutation. apply NoDup_elements.
  - intros t. rewrite merge_sort_Permutation. apply elem_of_elements.
Qed.

Section ConsolidatorFacts.
Context {U : Unicode}.

Lemma quantity_sum_nan rows d :
  d ∈ rows → to_float_br (PyStr (QUANT d)) = S754_nan → quantity_sum rows = S754_nan.
Proof.
  intros Hd Hn. induction rows as [| d' rows IH] using rev_ind.
  - by apply elem_of_nil in Hd.
  - rewrite quantity_sum_snoc. apply elem_of_app in Hd as [Hd | Hd].
    + by rewrite IH.
    + apply list_elem_of_singleton in Hd as <-. rewrite Hn. apply float_add_nan_r.
Qed.

Lemma titles_elem rows t :
  t ∈ titles rows ↔ t ≠ [] ∧ ∃ d, d ∈ rows ∧ strip (DESENHO d) = t.
Proof.
  unfold titles. rewrite elem_of_list_to_set, list_elem_of_filter, list_elem_of_fmap.
  naive_solver.
Qed.

Lemma provenance_elem rows f : f ∈ provenance rows ↔ ∃ d, d ∈ rows ∧ fonte_of d = f.
Proof.
  unfold provenance. rewrite elem_of_list_to_set, list_elem_of_fmap. naive_solver.
Qed.

(** X17: [consolidate] raises no exception; its records have descriptions
    that are pairwise different, not empty and trimmed, each the trimmed
    description of an input row, and there are no more records than rows. *)
Theorem consolidate_distinct_descriptions (rows : list DetailRow) :
  ∃ out, consolidate rows = Ok out
    ∧ NoDup (c_descricao <$> out)
    ∧ (length out ≤ length rows)%nat
    ∧ Forall (λ c, c_descricao c ≠ []
                   ∧ strip (c_descricao c) = c_descricao c
                   ∧ ∃ d, d ∈ rows ∧ strip (DESCRICAO d) = c_descricao c) out.
Proof.
  destruct (consolidate_spec rows) as (out & Hout & _). exists out.
  destruct (consolidate_out rows out Hout) as [Hk _].
  split_and!; [done | | |].
  - rewrite Hk. apply first_seen_NoDup.
  - rewrite <- (length_fmap c_descricao), Hk.
    pose proof (first_seen_length (keys_of rows)). pose proof (keys_of_length rows). lia.
  - apply Forall_forall. intros c Hc.
    assert (c_descricao c ∈ keys_of rows) as Hin.
    { apply first_seen_elem. rewrite <- Hk. by apply list_elem_of_fmap_2. }
    unfold keys_of in Hin.
    apply list_elem_of_filter in Hin as [Hne (d & Hd & Hin)%list_elem_of_fmap].
    unfold key_of in Hd. split_and!; [done | | by exists d].
    rewrite Hd. apply strip_strip.
Qed.

(** X18: rows added at the end keep the records of the rows before them in
    their places, and do not change the record of a description that does
    not occur among the added rows. *)
Theorem consolidate_more_rows (rows more : list DetailRow) :
  ∃ out out', consolidate rows = Ok out ∧ consolidate (rows ++ more) = Ok out'
    ∧ (c_descricao <$> out) `prefix_of` (c_descricao <$> out')
    ∧ ∀ c, c ∈ out → keyed (c_descricao c) more = [] → c ∈ out'.
Proof.
  destruct (consolidate_spec rows) as (out & Hout & Hf).
  destruct (consolidate_spec (rows ++ more)) as (out' & Hout' & Hf').
  exists out, out'. split_and!; [done | done | |].
  - destruct (consolidate_out _ _ Hout) as [-> _].
    destruct (consolidate_out _ _ Hout') as [-> _].
    rewrite keys_of_app. apply first_seen_app.
  - intros c Hc Hmore.
    apply list_elem_of_lookup in Hc as [i Hi].
    destruct (Forall2_lookup_r _ _ _ _ _ Hf Hi) as (k & Hk & a & Ha & ->).
    cbn in Hmore.
    destruct (first_seen_app (keys_of rows) (keys_of more)) as [rest Hrest].
    rewrite <- keys_of_app in Hrest.
    assert (first_seen (keys_of (rows ++ more)) !! i = Some k) as Hk'
      by (rewrite Hrest; by apply lookup_app_l_Some).
    destruct (Forall2_lookup_l _ _ _ _ _ Hf' Hk') as (c' & Hc' & a' & Ha' & ->).
    rewrite keyed_app, Hmore, app_nil_r, Ha in Ha'. injection Ha' as <-.
    by eapply list_elem_of_lookup_2.
Qed.

(** X20: a quantity that reads as NaN makes the quantity of its record NaN,
    whatever the other rows of the description hold. *)
Theorem consolidate_nan_quantity (rows : list DetailRow) (out : list ConsRow)
    (c : ConsRow) (d : DetailRow) :
  consolidate rows = Ok out → c ∈ out →
  d ∈ rows → strip (DESCRICAO d) = c_descricao c →
  to_float_br (PyStr (QUANT d)) = S754_nan →
  c_quant c = S754_nan.
Proof.
  intros Hout Hc Hd Hk Hn.
  destruct (consolidate_out _ _ Hout) as [_ Hrec].
  destruct (Hrec c Hc) as (d0 & rest & Hkeyed & _ & _ & _ & -> & _).
  rewrite <- Hkeyed. apply (quantity_sum_nan _ d); [| done].
  by apply keyed_elem.
Qed.

(** X19: the drawings and the sources of a record are listed once each, in
    the order of their code points, joined by ["; "]: the drawings are the
    trimmed titles that are not empty, the sources the
    [file | sheet | Tn] texts, of the rows of the description. *)
Theorem consolidate_sorted_lists (rows : list DetailRow) (out : list ConsRow)
    (c : ConsRow) :
  consolidate rows = Ok out → c ∈ out →
  ∃ ts fs,
    c_desenhos c = join (lit "; ") ts ∧ c_arquivos_origem c = join (lit "; ") fs
    ∧ Sorted str_le ts ∧ NoDup ts ∧ Sorted str_le fs ∧ NoDup fs
    ∧ (∀ t, t ∈ ts ↔
         t ≠ [] ∧ ∃ d, d ∈ rows ∧ strip (DESCRICAO d) = c_descricao c
                       ∧ strip (DESENHO d) = t)
    ∧ (∀ f, f ∈ fs ↔
         ∃ d, d ∈ rows ∧ strip (DESCRICAO d) = c_descricao c ∧ fonte_of d = f).
Proof.
  intros Hout Hc.
  destruct (consolidate_out _ _ Hout) as [_ Hrec].
  destruct (Hrec c Hc) as (d0 & rest & Hkeyed & _ & _ & _ & _ & -> & ->).
  rewrite <- Hkeyed.
  destruct (render_spec (titles (keyed (c_descricao c) rows))) as (ts & -> & ? & ? & Hts).
  destruct (render_spec (provenance (keyed (c_descricao c) rows))) as (fs & -> & ? & ? & Hfs).
  exists ts, fs. split_and!; [done .. | |].
  - intros t. rewrite Hts, titles_elem. setoid_rewrite keyed_elem. naive_solver.
  - intros f. rewrite Hfs, provenance_elem. setoid_rewrite keyed_elem. naive_solver.
Qed.
End ConsolidatorFacts.

Lemma consolidate_nan_quantity_witness :
  ∃ out c, consolidate (U := Latin1.tables) Cases.with_nan = Ok out
    ∧ c ∈ out ∧ c_quant c = S754_nan.
Proof.
  eexists _, _. split; [vm_compute; reflexivity |]. split; [left |].
  eapply (consolidate_nan_quantity (U := Latin1.tables)) with
    (rows := Cases.with_nan) (d := Cases.nan_row).
  - vm_compute; reflexivity.
  - left.
  - apply (list_elem_of_lookup_2 _ 1); reflexivity.
  - vm_compute; reflexivity.
  - vm_compute; reflexivity.
Defined.

Lemma consolidate_sorted_lists_witness :
  ∃ out c,
    consolidate (U := Latin1.tables) Example.rows = Ok out ∧ c ∈ out
    ∧ ∃ ts fs,
        c_desenhos c = join (lit "; ") ts ∧ c_arquivos_origem c = join (lit "; ") fs
        ∧ Sorted str_le ts ∧ NoDup ts ∧ Sorted str_le fs ∧ NoDup fs
        ∧ (∀ t, t ∈ ts ↔
             t ≠ [] ∧ ∃ d, d ∈ Example.rows ∧ strip (DESCRICAO d) = c_descricao c
                           ∧ strip (DESENHO d) = t)
        ∧ (∀ f, f ∈ fs ↔
             ∃ d, d ∈ Example.rows ∧ strip (DESCRICAO d) = c_descricao c
                  ∧ fonte_of d = f).
Proof.
  eexists _, _. split; [vm_compute; reflexivity |]. split; [left |].
  eapply (consolidate_sorted_lists (U := Latin1.tables)) with (rows := Example.rows).
  - vm_compute; reflexivity.
  - left.
Defined.

#[local] Open Scope Z_scope.

Lemma iter_pos_iter {A} (f : A → A) (n : positive) (x : A) :
  SpecFloat.iter_pos f n x = Pos.iter f x n.
Proof.
  revert x. induction n as [n IH | n IH |]; intros x; cbn; [| | done].
  - by rewrite !IH, !Pos.iter_swap.
  - by rewrite !IH.
Qed.

(** Shifting right the bits that were shifted in is exact. *)
Lemma shr_iter_xO (q j : positive) :
  SpecFloat.iter_pos shr_1 j
    {| shr_m := Zpos (Pos.iter xO q j); shr_r := false; shr_s := false |}
  = {| shr_m := Zpos q; shr_r := false; shr_s := false |}.
Proof.
  rewrite iter_pos_iter. induction j as [| j IH] using Pos.peano_ind; [done |].
  rewrite Pos.iter_succ_r, Pos.iter_succ. exact IH.
Qed.

Lemma pos_shifted (m q : positive) (s : Z) :
  0 ≤ s → Zpos m = Zpos q * 2 ^ s →
  match s with
  | Zpos j => m = Pos.iter xO q j
  | _ => m = q
  end.
Proof.
  intros Hs Hm. destruct s as [| j | j]; [| | lia].
  - rewrite Z.pow_0_r in Hm. lia.
  - rewrite <- iter_xO_value in Hm. by injection Hm.
Qed.

(** A mantissa of 53 bits that was shifted to the left, with its exponent
    lowered as much, is rounded to itself. *)
Lemma binary_round_aux_shifted sx (m q : positive) (e1 s : Z) :
  Zpos (digits2_pos q) = 53 → -1074 ≤ e1 ≤ 971 → 0 ≤ s →
  Zpos m = Zpos q * 2 ^ s →
  binary_round_aux 53 1024 sx (Zpos m) (e1 - s) loc_Exact = S754_finite sx q e1.
Proof.
  intros Hq He Hs Hm. apply pos_shifted in Hm; [| done].
  unfold binary_round_aux, shr_fexp. cbn [Zdigits2 shr_record_of_loc].
  assert (fexp 53 1024 (53 + e1) - e1 = 0) as H0 by (unfold fexp, emin; lia).
  destruct s as [| j | j]; [| | lia]; subst m.
  - rewrite Z.sub_0_r, Hq, H0.
    cbn [shr shr_m loc_of_shr_record round_nearest_even Zdigits2 shr_record_of_loc].
    rewrite Hq, H0. cbn [shr shr_m].
    by rewrite (proj2 (Z.leb_le _ _)) by lia.
  - rewrite digits2_pos_iter, Hq.
    replace (fexp 53 1024 (53 + Z.pos j + (e1 - Z.pos j)) - (e1 - Z.pos j))
      with (Zpos j) by (unfold fexp, emin; lia).
    cbn [shr]. rewrite shr_iter_xO.
    cbn [shr_m loc_of_shr_record round_nearest_even Zdigits2 shr_record_of_loc].
    replace (e1 - Z.pos j + Z.pos j) with e1 by lia.
    rewrite Hq, H0. cbn [shr shr_m].
    by rewrite (proj2 (Z.leb_le _ _)) by lia.
Qed.

Lemma size_bounds p : 2 ^ (Zpos (Pos.size p) - 1) ≤ Zpos p < 2 ^ Zpos (Pos.size p).
Proof.
  pose proof (Pos.size_le p) as Hle. pose proof (Pos.size_gt p) as Hgt.
  apply Pos2Z.pos_le_pos in Hle. apply Pos2Z.pos_lt_pos in Hgt.
  rewrite Pos2Z.inj_pow in Hle, Hgt. split; [| done].
  replace (2 ^ Zpos (Pos.size p)) with (2 * 2 ^ (Zpos (Pos.size p) - 1)) in Hle
    by (rewrite <- Z.pow_succ_r by lia; f_equal; lia).
  lia.
Qed.

Lemma size_unique p k : 2 ^ (k - 1) ≤ Zpos p < 2 ^ k → Zpos (Pos.size p) = k.
Proof.
  intros [Hlo Hhi]. pose proof (size_bounds p) as [Hlo' Hhi'].
  destruct (Z.lt_trichotomy (Zpos (Pos.size p)) k) as [Hlt | [Heq | Hgt]]; [| done |].
  - assert (2 ^ Zpos (Pos.size p) ≤ 2 ^ (k - 1)) by (apply Z.pow_le_mono_r; lia). lia.
  - assert (0 ≤ k).
    { destruct (Z.le_gt_cases 0 k); [done |]. rewrite Z.pow_neg_r in Hhi by lia. lia. }
    assert (2 ^ k ≤ 2 ^ (Zpos (Pos.size p) - 1)) by (apply Z.pow_le_mono_r; lia). lia.
Qed.

Lemma size_mono a b : Zpos a ≤ Zpos b → Zpos (Pos.size a) ≤ Zpos (Pos.size b).
Proof.
  intros Hab. pose proof (size_bounds a) as [Hlo _]. pose proof (size_bounds b) as [_ Hhi].
  destruct (Z.le_gt_cases (Zpos (Pos.size a)) (Zpos (Pos.size b))) as [| Hgt]; [done |].
  assert (2 ^ Zpos (Pos.size b) ≤ 2 ^ (Zpos (Pos.size a) - 1))
    by (apply Z.pow_le_mono_r; lia). lia.
Qed.

Lemma mantissa_value n :
  Zpos n < 2 ^ 53 →
  Zpos (mantissa n) = Zpos n * 2 ^ (53 - Zpos (Pos.size n))
  ∧ Zpos (digits2_pos (mantissa n)) = 53
  ∧ 1 ≤ Zpos (Pos.size n) ≤ 53.
Proof.
  intros Hn. pose proof (digits2_pos_bound n Hn) as Hd. rewrite digits2_pos_size in Hd.
  assert (0 < 2 ^ (53 - Zpos (Pos.size n))) by (apply Z.pow_pos_nonneg; lia).
  assert (Zpos (mantissa n) = Zpos n * 2 ^ (53 - Zpos (Pos.size n))) as Hv
    by (unfold mantissa; rewrite Z2Pos.id; lia).
  split; [done |]. split; [| lia].
  rewrite digits2_pos_size. apply size_unique. rewrite Hv.
  pose proof (size_bounds n) as [Hlo Hhi].
  replace (2 ^ (53 - 1)) with (2 ^ (Zpos (Pos.size n) - 1) * 2 ^ (53 - Zpos (Pos.size n)))
    by (rewrite <- Z.pow_add_r by lia; f_equal; lia).
  replace (2 ^ 53) with (2 ^ Zpos (Pos.size n) * 2 ^ (53 - Zpos (Pos.size n)))
    by (rewrite <- Z.pow_add_r by lia; f_equal; lia).
  split; [apply Z.mul_le_mono_nonneg_r; lia | apply Z.mul_lt_mono_pos_r; lia].
Qed.

(** The float of a positive integer below [2 ^ 53]. *)
Lemma float_of_pos_mantissa neg n :
  Zpos n < 2 ^ 53 →
  float_of_decimal neg (Zpos n) 0
  = S754_finite neg (mantissa n) (Zpos (Pos.size n) - 53).
Proof.
  intros Hn. destruct (mantissa_value n Hn) as (Hv & Hd & Hs).
  unfold float_of_decimal. cbn [Z.eqb Z.leb Z.compare].
  rewrite Z.pow_0_r, Z.mul_1_r. unfold float_of_ratio.
  rewrite Z.gcd_1_r, !Z.div_1_r.
  unfold SFdiv_core_binary. cbn [Zdigits2 digits2_pos]. rewrite digits2_pos_size.
  unfold fexp, emin.
  replace (Z.min (Z.max (Z.pos (Pos.size n) + 0 - (1 + 0) - 53) (3 - 1024 - 53)) (0 - 0))
    with (Zpos (Pos.size n) - 54) by lia.
  destruct (0 - 0 - (Zpos (Pos.size n) - 54)) as [| k | k] eqn:Hk; [lia | | lia].
  rewrite shiftl_pos, div_eucl_1.
  change (new_location 1 0) with loc_Exact.
  replace (Zpos (Pos.size n) - 54) with (Zpos (Pos.size n) - 53 - 1) by lia.
  apply binary_round_aux_shifted; [done | lia | lia |].
  rewrite iter_xO_value, Hv, <- Z.mul_assoc, <- Z.pow_add_r by lia.
  f_equal. f_equal. lia.
Qed.

Lemma shl_align_value m e ez :
  ez ≤ e → Zpos (shl_align m e ez).1 = Zpos m * 2 ^ (e - ez).
Proof.
  intros He. unfold shl_align.
  destruct (ez - e) as [| d | d] eqn:Hd; cbn [fst]; [| lia |].
  - replace (e - ez) with 0 by lia. lia.
  - rewrite iter_xO_value. f_equal. f_equal. lia.
Qed.

(** Adding the floats of two natural numbers whose sum is below [2 ^ 53]
    gives the float of the sum. *)
Lemma float_add_exact a b :
  0 ≤ a → 0 ≤ b → a + b < 2 ^ 53 →
  float_add (float_of_decimal false a 0) (float_of_decimal false b 0)
  = float_of_decimal false (a + b) 0.
Proof.
  intros Ha Hb Hab.
  destruct a as [| a | a]; [| | lia].
  { destruct b as [| b | b]; [done | | lia].
    rewrite Z.add_0_l, float_of_pos_mantissa by lia. done. }
  destruct b as [| b | b]; [| | lia].
  { rewrite Z.add_0_r, float_of_pos_mantissa by lia. done. }
  change (Zpos a + Zpos b) with (Zpos (a + b)) in *.
  rewrite !float_of_pos_mantissa by lia.
  destruct (mantissa_value a) as (Hva & _ & Hsa); [lia |].
  destruct (mantissa_value b) as (Hvb & _ & Hsb); [lia |].
  destruct (mantissa_value (a + b)) as (Hvc & Hdc & Hsc); [lia |].
  pose proof (size_mono a (a + b)) as Hma. pose proof (size_mono b (a + b)) as Hmb.
  set (sa := Zpos (Pos.size a)) in *. set (sb := Zpos (Pos.size b)) in *.
  set (sc := Zpos (Pos.size (a + b))) in *.
  unfold float_add, SFadd. cbn [cond_Zopp].
  set (ez := Z.min (sa - 53) (sb - 53)).
  assert (Zpos (shl_align (mantissa a) (sa - 53) ez).1 = Zpos a * 2 ^ (- ez)) as H1.
  { rewrite shl_align_value, Hva, <- Z.mul_assoc, <- Z.pow_add_r by lia.
    f_equal. f_equal. lia. }
  assert (Zpos (shl_align (mantissa b) (sb - 53) ez).1 = Zpos b * 2 ^ (- ez)) as H2.
  { rewrite shl_align_value, Hvb, <- Z.mul_assoc, <- Z.pow_add_r by lia.
    f_equal. f_equal. lia. }
  change (Zpos ?x + Zpos ?y) with (Zpos (x + y)).
  set (M := ((shl_align (mantissa a) (sa - 53) ez).1
             + (shl_align (mantissa b) (sb - 53) ez).1)%positive).
  assert (Zpos M = Zpos (mantissa (a + b)) * 2 ^ (sc - 53 - ez)) as HM.
  { unfold M. rewrite Pos2Z.inj_add, H1, H2, Hvc, <- Z.mul_assoc, <- Z.pow_add_r by lia.
    replace (53 - sc + (sc - 53 - ez)) with (- ez) by lia. lia. }
  cbn [binary_normalize]. unfold binary_round.
  assert (Zpos (digits2_pos M) = 53 + (sc - 53 - ez)) as HdM.
  { pose proof (pos_shifted M (mantissa (a + b)) (sc - 53 - ez)) as Hsh.
    destruct (sc - 53 - ez) as [| j | j] eqn:Hj; [| | lia].
    - rewrite Hsh by lia. lia.
    - rewrite Hsh, digits2_pos_iter by lia. lia. }
  rewrite HdM.
  replace (fexp 53 1024 (53 + (sc - 53 - ez) + ez)) with (sc - 53)
    by (unfold fexp, emin; lia).
  unfold shl_align at 1.
  destruct (sc - 53 - ez) as [| j | j] eqn:Hj; [| | lia].
  - replace ez with (sc - 53 - 0) at 1 by lia.
    apply binary_round_aux_shifted; [done | lia | lia |]. rewrite HM. by rewrite ?Hj.
  - replace ez with (sc - 53 - Zpos j) at 1 by lia.
    apply binary_round_aux_shifted; [done | lia | lia |]. rewrite HM. by rewrite ?Hj.
Qed.
#[local] Close Scope Z_scope.

Lemma total_snoc qs q : total (qs ++ [q]) = (total qs + q)%Z.
Proof. unfold total. induction qs as [| x qs IH]; cbn in *; lia. Qed.

Section WholeQuantities.
Context {U : Unicode}.

(** The text of a natural number is read as its float. *)
Lemma to_float_br_natural (q : Z) :
  (0 ≤ q)%Z → to_float_br (PyStr (str_of_int q)) = float_of_decimal false q 0.
Proof.
  intros Hq.
  assert (∃ ds, str_of_int q = ds ∧ forallb is_digit ds = true ∧ ds ≠ []
                ∧ digits_value ds = q) as (ds & -> & Hd & Hne & Hv).
  { destruct q as [| p | p]; [by exists (lit "0") | | lia].
    exists (str_of_uint (Pos.to_uint p)). split_and!; [done | | |].
    - apply str_of_uint_digits.
    - apply str_of_pos_nonempty.
    - apply digits_value_pos. }
  rewrite to_float_br_plain by (done || by apply digits_plain).
  destruct (string_to_double_digits ds Hd Hne) as (-> & _). by rewrite Hv.
Qed.

Lemma quantity_sum_integers (rows : list DetailRow) (qs : list Z) :
  Forall2 (λ d q, (0 ≤ q)%Z ∧ QUANT d = str_of_int q) rows qs →
  (total qs < 2 ^ 53)%Z →
  (0 ≤ total qs)%Z ∧ quantity_sum rows = float_of_decimal false (total qs) 0.
Proof.
  revert qs. induction rows as [| d rows IH] using rev_ind; intros qs Hf Hlt.
  - apply Forall2_nil_inv_l in Hf as ->. done.
  - apply Forall2_app_inv_l in Hf as (qs1 & qs2 & Hf1 & Hf2 & ->).
    apply Forall2_cons_inv_l in Hf2 as (q & qs3 & [Hq Hd] & Hnil & ->).
    apply Forall2_nil_inv_l in Hnil as ->.
    rewrite total_snoc in *.
    assert (0 ≤ total qs1)%Z as H0.
    { clear -Hf1. induction Hf1 as [| ? ? ? ? [? _] _ ?]; unfold total in *; cbn; lia. }
    destruct (IH qs1 Hf1) as [_ IHq]; [lia |].
    split; [lia |].
    rewrite quantity_sum_snoc, IHq, Hd, to_float_br_natural by done.
    apply float_add_exact; lia.
Qed.

(** X21: when the quantities of the rows of a description are written as
    natural numbers and add up to less than [2 ^ 53], the quantity of the
    record is the float of their exact sum, which Python prints as the sum
    followed by [".0"]; the order of the rows does not matter then. *)
Theorem consolidate_integer_quantities (rows : list DetailRow) (out : list ConsRow)
    (c : ConsRow) (qs : list Z) :
  consolidate rows = Ok out → c ∈ out →
  Forall2 (λ d q, (0 ≤ q)%Z ∧ QUANT d = str_of_int q)
    (filter (λ d, strip (DESCRICAO d) = c_descricao c) rows) qs →
  (total qs < 2 ^ 53)%Z →
  c_quant c = float_of_decimal false (total qs) 0
  ∧ float_str (c_quant c) = Some (str_of_int (total qs) ++ lit ".0").
Proof.
  intros Hout Hc Hqs Hlt.
  destruct (consolidate_out _ _ Hout) as [_ Hrec].
  destruct (Hrec c Hc) as (d0 & rest & Hkeyed & _ & _ & _ & Hq & _).
  rewrite <- Hkeyed in Hq.
  destruct (quantity_sum_integers _ _ Hqs Hlt) as [H0 Hsum].
  change (filter _ rows) with (keyed (c_descricao c) rows) in Hsum.
  rewrite Hq, Hsum. split; [done |].
  destruct (total qs) as [| p | p]; [done | | lia].
  destruct (float_of_pos_exact false p Hlt) as (m & e & -> & He & Hm).
  by rewrite (float_str_exact false p m e).
Qed.
End WholeQuantities.

Lemma consolidate_integer_quantities_witness :
  ∃ out c, consolidate (U := Latin1.tables) Cases.whole = Ok out ∧ c ∈ out
    ∧ c_quant c = float_of_decimal false 15 0
    ∧ float_str (c_quant c) = Some (lit "15.0").
Proof.
  eexists _, _. split; [vm_compute; reflexivity |]. split; [left |].
  eapply (consolidate_integer_quantities (U := Latin1.tables)) with
    (rows := Cases.whole) (qs := [3; 0; 12]%Z).
  - vm_compute; reflexivity.
  - left.
  - repeat (apply List.Forall2_cons; [split; [lia | reflexivity] |]).
    apply List.Forall2_nil.
  - reflexivity.
Defined.
